(** * resume_made_easy: the LaTeX template-to-PDF backend

    A shallow embedding of the server ([backend/server.js], kept in
    [src/backend/test-gemini.js]): the escaping and the
    placeholder substitution of the [/generate-pdf] handler, the schema
    validation of the [/upload-tex] handler, the compiler fallback chain
    [tryCompileLatex] and the workspace cleanup [safeRemoveDir]; further
    the [/validate-latex] handler, the front checks, the prompt and the
    cleaning of the model's answer in [/upload-tex], and the compiler check
    of [src/backend/test-latex.js].

    JavaScript strings are modelled by [string]; a character stands for a
    code unit in the range 0..255.  The built-ins the code calls
    ([String.prototype.replace] with a global regular expression,
    [includes], [trim], [toLowerCase], [slice]) are modelled after
    ECMAScript on that range. *)

From Stdlib Require Import Strings.String Strings.Ascii List Bool Arith Lia.
From Stdlib Require Import Numbers.DecimalString.
Import ListNotations.
Open Scope list_scope.
Open Scope string_scope.
Open Scope nat_scope.

(** ** JavaScript string built-ins *)

Module JS.

(** [s.startsWith(p)] *)
Fixpoint startsWith (p s : string) : bool :=
  match p, s with
  | EmptyString, _ => true
  | String _ _, EmptyString => false
  | String a p', String b s' => Ascii.eqb a b && startsWith p' s'
  end.

(** [s.includes(p)] *)
Fixpoint includes (p s : string) : bool :=
  startsWith p s ||
  match s with
  | EmptyString => false
  | String _ s' => includes p s'
  end.

(** the string without its first [n] characters: [s.slice(n)], [n >= 0] *)
Fixpoint drop (n : nat) (s : string) : string :=
  match n, s with
  | O, _ => s
  | S _, EmptyString => EmptyString
  | S k, String _ s' => drop k s'
  end.

(** [s.slice(-n)]: the last [n] characters *)
Definition sliceLast (n : nat) (s : string) : string :=
  drop (String.length s - n) s.

Definition inRange (lo hi c : ascii) : bool :=
  (nat_of_ascii lo <=? nat_of_ascii c) && (nat_of_ascii c <=? nat_of_ascii hi).

(** [toLowerCase] on code units below 256: A-Z, and the upper-case letters
    of Latin-1 (U+00C0..U+00DE without the multiplication sign U+00D7). *)
Definition lowerChar (c : ascii) : ascii :=
  let n := nat_of_ascii c in
  if (65 <=? n) && (n <=? 90) then ascii_of_nat (n + 32)
  else if (192 <=? n) && (n <=? 222) && negb (n =? 215) then ascii_of_nat (n + 32)
  else c.

Fixpoint toLowerCase (s : string) : string :=
  match s with
  | EmptyString => EmptyString
  | String c s' => String (lowerChar c) (toLowerCase s')
  end.

(** WhiteSpace and LineTerminator code units below 256: TAB, LF, VT, FF, CR,
    SP and NBSP. *)
Definition isWhite (c : ascii) : bool :=
  let n := nat_of_ascii c in
  ((9 <=? n) && (n <=? 13)) || (n =? 32) || (n =? 160).

Fixpoint trimStart (s : string) : string :=
  match s with
  | EmptyString => EmptyString
  | String c s' => if isWhite c then trimStart s' else s
  end.

(** [trimEnd] keeps a character when it is not white space or when something
    is kept after it. *)
Fixpoint trimEnd (s : string) : string :=
  match s with
  | EmptyString => EmptyString
  | String c s' =>
      match trimEnd s' with
      | EmptyString => if isWhite c then EmptyString else String c EmptyString
      | t => String c t
      end
  end.

Definition trim (s : string) : string := trimEnd (trimStart s).

End JS.

(** ** Regular expressions

    The fragment of ECMAScript regular expressions the backend writes:
    literal characters, identity and control escapes, character classes with
    ranges and negation, a class under the lazy star, and capture groups. *)

Module RegExp.

Inductive node : Type :=
| Char (c : ascii)
| Class (neg : bool) (ranges : list (ascii * ascii))
| LazyStar (neg : bool) (ranges : list (ascii * ascii))
| Open
| Close.

(** SyntaxCharacter of the ECMAScript pattern grammar *)
Definition isSyntaxChar (c : ascii) : bool :=
  existsb (Ascii.eqb c) (list_ascii_of_string "^$\.*+?()[]{}|").

(** ControlEscape: [\t \n \v \f \r] *)
Definition controlEscape (c : ascii) : option ascii :=
  if Ascii.eqb c "t" then Some (ascii_of_nat 9)
  else if Ascii.eqb c "n" then Some (ascii_of_nat 10)
  else if Ascii.eqb c "v" then Some (ascii_of_nat 11)
  else if Ascii.eqb c "f" then Some (ascii_of_nat 12)
  else if Ascii.eqb c "r" then Some (ascii_of_nat 13)
  else None.

(** What follows a backslash: an escaped syntax character stands for itself,
    a control escape for its control character; other escapes are outside
    the fragment. *)
Definition escaped (c : ascii) : option ascii :=
  if isSyntaxChar c then Some c else controlEscape c.

Inductive state : Type :=
| SNormal
| SEscape
| SClassStart
| SClass (neg : bool) (rs : list (ascii * ascii)) (pend : option ascii)
| SClassEscape (neg : bool) (rs : list (ascii * ascii)) (pend : option ascii)
| SClassDash (neg : bool) (rs : list (ascii * ascii)) (lo : ascii)
| SAfterClass (neg : bool) (rs : list (ascii * ascii))
| SAfterStar (neg : bool) (rs : list (ascii * ascii)).

Definition flush (pend : option ascii) : list (ascii * ascii) :=
  match pend with
  | Some c => [(c, c)]
  | None => []
  end.

Definition stepNormal (acc : list node) (c : ascii) : option (state * list node) :=
  if Ascii.eqb c "\" then Some (SEscape, acc)
  else if Ascii.eqb c "(" then Some (SNormal, acc ++ [Open])%list
  else if Ascii.eqb c ")" then Some (SNormal, acc ++ [Close])%list
  else if Ascii.eqb c "[" then Some (SClassStart, acc)
  else if isSyntaxChar c then None
  else Some (SNormal, acc ++ [Char c])%list.

Definition stepClass (neg : bool) (rs : list (ascii * ascii)) (pend : option ascii)
    (acc : list node) (c : ascii) : option (state * list node) :=
  if Ascii.eqb c "]" then Some (SAfterClass neg (rs ++ flush pend)%list, acc)
  else if Ascii.eqb c "\" then Some (SClassEscape neg rs pend, acc)
  else if Ascii.eqb c "-" then
    match pend with
    | Some lo => Some (SClassDash neg rs lo, acc)
    | None => Some (SClass neg rs (Some c), acc)
    end
  else Some (SClass neg (rs ++ flush pend)%list (Some c), acc).

Definition step (st : state) (acc : list node) (c : ascii)
    : option (state * list node) :=
  match st with
  | SNormal => stepNormal acc c
  | SEscape =>
      match escaped c with
      | Some d => Some (SNormal, acc ++ [Char d])%list
      | None => None
      end
  | SClassStart =>
      if Ascii.eqb c "^" then Some (SClass true [] None, acc)
      else stepClass false [] None acc c
  | SClass neg rs pend => stepClass neg rs pend acc c
  | SClassEscape neg rs pend =>
      match (if Ascii.eqb c "-" then Some c else escaped c) with
      | Some d => Some (SClass neg (rs ++ flush pend)%list (Some d), acc)
      | None => None
      end
  | SClassDash neg rs lo =>
      if Ascii.eqb c "]"
      then Some (SAfterClass neg (rs ++ [(lo, lo); ("-"%char, "-"%char)])%list, acc)
      else if Ascii.eqb c "\" then None
      else if nat_of_ascii lo <=? nat_of_ascii c
      then Some (SClass neg (rs ++ [(lo, c)])%list None, acc)
      else None
  | SAfterClass neg rs =>
      if Ascii.eqb c "*" then Some (SAfterStar neg rs, acc)
      else stepNormal (acc ++ [Class neg rs])%list c
  | SAfterStar neg rs =>
      if Ascii.eqb c "?" then Some (SNormal, acc ++ [LazyStar neg rs])%list
      else None
  end.

Definition finish (st : state) (acc : list node) : option (list node) :=
  match st with
  | SNormal => Some acc
  | SAfterClass neg rs => Some (acc ++ [Class neg rs])%list
  | _ => None
  end.

Fixpoint parse (st : state) (acc : list node) (src : string)
    : option (list node) :=
  match src with
  | EmptyString => finish st acc
  | String c src' =>
      match step st acc c with
      | Some (st', acc') => parse st' acc' src'
      | None => None
      end
  end.

(** Groups open and close in turn (no nesting in the fragment). *)
Fixpoint balanced (inGroup : bool) (ns : list node) : bool :=
  match ns with
  | [] => negb inGroup
  | Open :: ns' => negb inGroup && balanced true ns'
  | Close :: ns' => inGroup && balanced false ns'
  | _ :: ns' => balanced inGroup ns'
  end.

(** [new RegExp(src, 'g')]; [None] stands for the SyntaxError it throws (or
    for a pattern outside the fragment). *)
Definition compile (src : string) : option (list node) :=
  match parse SNormal [] src with
  | Some ns => if balanced false ns then Some ns else None
  | None => None
  end.

Definition inClass (neg : bool) (rs : list (ascii * ascii)) (c : ascii) : bool :=
  xorb neg (existsb (fun r => JS.inRange (fst r) (snd r) c) rs).

Definition push (cur : option string) (c : ascii) : option string :=
  match cur with
  | Some g => Some (g ++ String c EmptyString)
  | None => None
  end.

(** The outcome of a match at the start of the input: the matched text, the
    captures in order, and the input left after the match. *)
Record result : Type := mkResult
  { matched : string; captures : list string; after : string }.

(** A class under the lazy star: the rest of the pattern ([cont]) is tried
    first, and a character of the class is taken only when it fails. *)
Fixpoint lazyStar (cont : string -> string -> option string -> option result)
    (neg : bool) (rs : list (ascii * ascii)) (input m : string)
    (cur : option string) {struct input} : option result :=
  match cont input m cur with
  | Some r => Some r
  | None =>
      match input with
      | String d rest =>
          if inClass neg rs d
          then lazyStar cont neg rs rest (m ++ String d EmptyString) (push cur d)
          else None
      | EmptyString => None
      end
  end.

(** Backtracking match of the node sequence at the start of [input]; [m] is
    the text matched so far, [cur] the text of the group being captured. *)
Fixpoint matchNodes (ns : list node) {struct ns}
    : string -> string -> option string -> list string -> option result :=
  match ns with
  | [] => fun input m _ caps => Some (mkResult m caps input)
  | Char c :: ns' => fun input m cur caps =>
      match input with
      | String d rest =>
          if Ascii.eqb c d
          then matchNodes ns' rest (m ++ String d EmptyString) (push cur d) caps
          else None
      | EmptyString => None
      end
  | Class neg rs :: ns' => fun input m cur caps =>
      match input with
      | String d rest =>
          if inClass neg rs d
          then matchNodes ns' rest (m ++ String d EmptyString) (push cur d) caps
          else None
      | EmptyString => None
      end
  | Open :: ns' => fun input m _ caps =>
      matchNodes ns' input m (Some EmptyString) caps
  | Close :: ns' => fun input m cur caps =>
      match cur with
      | Some g => matchNodes ns' input m None (caps ++ [g])%list
      | None => None
      end
  | LazyStar neg rs :: ns' => fun input m cur caps =>
      lazyStar (fun i m' c => matchNodes ns' i m' c caps) neg rs input m cur
  end.

(** A match of [re] at the start of [input]. *)
Definition exec (re : list node) (input : string) : option result :=
  matchNodes re input EmptyString None [].

Definition isDigit (c : ascii) : bool := JS.inRange "0" "9" c.
Definition digitVal (c : ascii) : nat := nat_of_ascii c - 48.

(** The replacement for [$n] or [$nn] (ECMAScript GetSubstitution): a
    two-digit index beyond the number of captures is read as a one-digit
    index followed by a literal digit; an index that names no capture leaves
    the reference as it is.  The result holds the text to emit and whether
    the second digit was consumed. *)
Definition groupRef (caps : list string) (d1 : ascii) (d2 : option ascii)
    : string * bool :=
  let one :=
    let i := digitVal d1 in
    if (1 <=? i) && (i <=? List.length caps)
    then nth (i - 1) caps EmptyString
    else String "$" (String d1 EmptyString) in
  match d2 with
  | Some e =>
      let i := 10 * digitVal d1 + digitVal e in
      if List.length caps <? i then (one, false)
      else if 1 <=? i then (nth (i - 1) caps EmptyString, true)
      else (String "$" (String d1 (String e EmptyString)), true)
  | None => (one, false)
  end.

(** GetSubstitution: the expansion of the replacement template [tpl] for one
    match; [before] and [rest] are the parts of the subject around it. *)
Fixpoint getSubstitution (m before rest : string) (caps : list string)
    (tpl : string) : string :=
  match tpl with
  | EmptyString => EmptyString
  | String c t =>
      if Ascii.eqb c "$" then
        match t with
        | EmptyString => String c EmptyString
        | String d t' =>
            if Ascii.eqb d "$" then String "$" (getSubstitution m before rest caps t')
            else if Ascii.eqb d "&" then m ++ getSubstitution m before rest caps t'
            else if Ascii.eqb d "`" then before ++ getSubstitution m before rest caps t'
            else if Ascii.eqb d "'" then rest ++ getSubstitution m before rest caps t'
            else if isDigit d then
              match t' with
              | String e t'' =>
                  if isDigit e then
                    match groupRef caps d (Some e) with
                    | (txt, true) => txt ++ getSubstitution m before rest caps t''
                    | (txt, false) => txt ++ getSubstitution m before rest caps t'
                    end
                  else fst (groupRef caps d None) ++ getSubstitution m before rest caps t'
              | EmptyString => fst (groupRef caps d None)
              end
            else String c (getSubstitution m before rest caps t)
        end
      else String c (getSubstitution m before rest caps t)
  end.

(** [subject.replace(re, tpl)] for a global [re], scanning what is left of
    the subject: [before] is the part of the subject already passed, [skip]
    the number of characters still covered by the last match. *)
Fixpoint replaceFrom (re : list node) (tpl before : string) (skip : nat)
    (rest : string) : string :=
  match rest with
  | EmptyString =>
      match exec re EmptyString with
      | Some r => getSubstitution (matched r) before (after r) (captures r) tpl
      | None => EmptyString
      end
  | String c rest' =>
      match skip with
      | S k => replaceFrom re tpl (before ++ String c EmptyString) k rest'
      | O =>
          match exec re rest with
          | Some r =>
              let out := getSubstitution (matched r) before (after r) (captures r) tpl in
              match String.length (matched r) with
              | O => out ++ String c (replaceFrom re tpl (before ++ String c EmptyString) 0 rest')
              | S k => out ++ replaceFrom re tpl (before ++ String c EmptyString) k rest'
              end
          | None => String c (replaceFrom re tpl (before ++ String c EmptyString) 0 rest')
          end
      end
  end.

Definition replace (re : list node) (tpl subject : string) : string :=
  replaceFrom re tpl EmptyString 0 subject.

(** [re.test(s)]: a match at some position of [s]. *)
Fixpoint test (re : list node) (s : string) : bool :=
  match exec re s with
  | Some _ => true
  | None =>
      match s with
      | EmptyString => false
      | String _ s' => test re s'
      end
  end.

End RegExp.

(** ** Sanitizer / Injector: [escapeLatex] and the substitution of the
    [/generate-pdf] handler *)

Module Injector.
Import RegExp.

(** A regular expression literal of the source, compiled when the script is
    loaded. *)
Ltac literal src :=
  let r := eval vm_compute in (compile src) in
  match r with
  | Some ?ns => exact ns
  end.

(** [/\\/g] *)
Definition reBackslash : list node := ltac:(literal "\\").
(** [/[{}]/g] *)
Definition reBraces : list node := ltac:(literal "[{}]").
(** [/[$&%#^_~]/g] *)
Definition reReserved : list node := ltac:(literal "[$&%#^_~]").
(** [/\textbackslash\{\}/g]: the pattern starts with the control escape
    [\t]. *)
Definition reTextbackslash : list node := ltac:(literal "\textbackslash\{\}").
(** [/[.*+?^${}()|[\]\\]/g] *)
Definition reSpecial : list node := ltac:(literal "[.*+?^${}()|[\]\\]").

(** [escapeLatex(text)] for a string [text]. *)
Definition escapeLatex (text : string) : string :=
  replace reTextbackslash "\textbackslash{}"
    (replace reReserved "\$&"
      (replace reBraces "\$&"
        (replace reBackslash "\textbackslash{}" text))).

(** The [try] block of the handler: [None] is an exception thrown inside it. *)
Definition bind {A B : Type} (x : option A) (f : A -> option B) : option B :=
  match x with
  | Some a => f a
  | None => None
  end.

Notation "x <- e ;; k" := (bind e (fun x => k))
  (at level 61, e at next level, right associativity).

(** The sources handed to [new RegExp(..., 'g')]. *)
Definition newCmdSource (escKey : string) : string :=
  "(\\newcommand\{\\" ++ escKey ++ "\}\{)[^}]*?(\})".
Definition defSource (escKey : string) : string :=
  "(\\def\\" ++ escKey ++ "\{)[^}]*?(\})".
Definition placeholderSource (escKey : string) : string :=
  "\{" ++ escKey ++ "\}".
Definition varSource (escKey : string) : string :=
  "\\VAR\{" ++ escKey ++ "\}".
Definition bracketSource (escKey : string) : string :=
  "<<" ++ escKey ++ ">>".

(** One round of the loop over [Object.entries(values)]; the value of an
    entry is a string, for which [String(val || '')] is [val]. *)
Definition substituteField (key val processed : string) : option string :=
  let escKey := replace reSpecial "\$&" key in
  let safeVal := escapeLatex val in
  newCmdRegex <- compile (newCmdSource escKey) ;;
  let processed := replace newCmdRegex ("$1" ++ safeVal ++ "$2") processed in
  defRegex <- compile (defSource escKey) ;;
  let processed := replace defRegex ("$1" ++ safeVal ++ "$2") processed in
  placeholderRegex <- compile (placeholderSource escKey) ;;
  let processed := replace placeholderRegex safeVal processed in
  varRegex <- compile (varSource escKey) ;;
  let processed := replace varRegex safeVal processed in
  bracketRegex <- compile (bracketSource escKey) ;;
  let processed := replace bracketRegex safeVal processed in
  Some processed.

(** The loop; [values] lists the entries of the value map in the order of
    [Object.entries]. *)
Fixpoint substitute (processed : string) (values : list (string * string))
    : option string :=
  match values with
  | [] => Some processed
  | (key, val) :: values' =>
      processed' <- substituteField key val processed ;;
      substitute processed' values'
  end.

(** What the handler has after its [try] block. *)
Inductive injection : Type :=
| Processed (doc : string)
| MissingStructure (marker : string)
| ProcessingError.

Definition documentclass : string := "\documentclass".
Definition beginDocument : string := "\begin{document}".

Definition inject (template : string) (values : list (string * string))
    : injection :=
  match substitute template values with
  | None => ProcessingError
  | Some processed =>
      if negb (JS.includes documentclass processed)
      then MissingStructure documentclass
      else if negb (JS.includes beginDocument processed)
      then MissingStructure beginDocument
      else Processed processed
  end.

End Injector.

(** ** Schema Extractor: the validation of the parsed model response in the
    [/upload-tex] handler *)

Module Extractor.
Import RegExp.

(** [/[^a-z0-9_]/g] *)
Definition reNonCanonical : list node := ltac:(Injector.literal "[^a-z0-9_]").

Section Json.

(** JSON numbers are doubles; the code only asks whether one is falsy (a
    zero) and how [String] prints it. *)
Variable num : Type.
Variable numIsZero : num -> bool.
Variable numToString : num -> string.

(** What [JSON.parse] returns; an object is the list of its own
    properties. *)
#[local] Set Warnings "-register-all".
Inductive value : Type :=
| JNull
| JBool (b : bool)
| JNum (n : num)
| JStr (s : string)
| JArr (items : list value)
| JObj (props : list (string * value)).

Fixpoint lookup (k : string) (props : list (string * value)) : option value :=
  match props with
  | [] => None
  | (k', v) :: props' => if String.eqb k k' then Some v else lookup k props'
  end.

(** [item.k]; [None] is [undefined]. *)
Definition get (item : value) (k : string) : option value :=
  match item with
  | JObj props => lookup k props
  | _ => None
  end.

Definition truthy (v : option value) : bool :=
  match v with
  | None => false
  | Some JNull => false
  | Some (JBool b) => b
  | Some (JNum n) => negb (numIsZero n)
  | Some (JStr s) => negb (String.eqb s EmptyString)
  | Some (JArr _) => true
  | Some (JObj _) => true
  end.

Inductive jstype : Type := TUndefined | TObject | TBoolean | TNumber | TString.

Definition typeof (v : option value) : jstype :=
  match v with
  | None => TUndefined
  | Some JNull => TObject
  | Some (JBool _) => TBoolean
  | Some (JNum _) => TNumber
  | Some (JStr _) => TString
  | Some (JArr _) => TObject
  | Some (JObj _) => TObject
  end.

Definition isType (t : jstype) (v : option value) : bool :=
  match t, typeof v with
  | TUndefined, TUndefined => true
  | TObject, TObject => true
  | TBoolean, TBoolean => true
  | TNumber, TNumber => true
  | TString, TString => true
  | _, _ => false
  end.

(** The string behind a value known to be one. *)
Definition str (v : option value) : string :=
  match v with
  | Some (JStr s) => s
  | _ => EmptyString
  end.

(** [String(v)]; an array is joined with commas, its [null] elements
    printing as nothing. *)
Fixpoint toString (v : value) : string :=
  match v with
  | JNull => "null"
  | JBool true => "true"
  | JBool false => "false"
  | JNum n => numToString n
  | JStr s => s
  | JArr items =>
      (fix join (l : list value) : string :=
         match l with
         | [] => EmptyString
         | x :: l' =>
             let e := match x with JNull => EmptyString | _ => toString x end in
             match l' with
             | [] => e
             | _ :: _ => e ++ "," ++ join l'
             end
         end) items
  | JObj _ => "[object Object]"
  end.

(** A field of the schema sent to the client. *)
Record field : Type := mkField
  { id : string; label : string; default : string }.

(** The predicate of [schema.filter]. *)
Definition isValid (item : value) : bool :=
  truthy (Some item) &&
  isType TObject (Some item) &&
  isType TString (get item "id") &&
  isType TString (get item "label") &&
  (0 <? String.length (str (get item "id"))) &&
  (0 <? String.length (str (get item "label"))).

(** The function of [.map]. *)
Definition clean (item : value) : field :=
  {| id := replace reNonCanonical EmptyString (JS.toLowerCase (str (get item "id")));
     label := JS.trim (str (get item "label"));
     default :=
       JS.trim (toString (if truthy (get item "default")
                          then match get item "default" with
                               | Some v => v
                               | None => JStr EmptyString
                               end
                          else JStr EmptyString)) |}.

(** The answers of the handler once the response is parsed. *)
Inductive response : Type :=
| ExpectedArray
| NoFieldsFound
| Schema (validatedSchema : list field) (totalFound validFields : nat).

Definition validate (schema : value) : response :=
  match schema with
  | JArr items =>
      let validatedSchema := map clean (filter isValid items) in
      if List.length validatedSchema =? 0
      then NoFieldsFound
      else Schema validatedSchema (List.length items) (List.length validatedSchema)
  | _ => ExpectedArray
  end.

End Json.

Arguments JNull {num}.
Arguments JBool {num} b.
Arguments JNum {num} n.
Arguments JStr {num} s.
Arguments JArr {num} items.
Arguments JObj {num} props.
Arguments lookup {num} k props.
Arguments get {num} item k.
Arguments truthy {num} numIsZero v.
Arguments typeof {num} v.
Arguments isType {num} t v.
Arguments toString {num} numToString v.
Arguments str {num} v.
Arguments isValid {num} numIsZero item.
Arguments clean {num} numIsZero numToString item.
Arguments validate {num} numIsZero numToString schema.

End Extractor.

(** ** The world around the server: file system and external processes *)

Module Env.

(** An error object as the code reads it: [err.code] and [err.message]. *)
Record jsError : Type := mkError { code : string; message : string }.

(** How a block of statements ends: normally, or by throwing. *)
Inductive completion : Type :=
| Normal
| Throw (e : jsError).

(** What the callback of [child_process.exec] receives. *)
Record execResult : Type := mkExec
  { err : option jsError; stdout : string; stderr : string }.

(** The calls the server makes on its environment, each on the present
    state of the world.  A call that can throw answers with the error. *)
Record env (world : Type) : Type := mkEnv
  { existsSync : string -> world -> bool;
    readFileSync : string -> world -> jsError + string;
    unlinkSync : string -> world -> option jsError * world;
    writeFileSync : string -> string -> world -> option jsError * world;
    rmSync : string -> world -> option jsError * world;
    mkdtempSync : string -> world -> (jsError + string) * world;
    exec : string -> string -> world -> execResult * world;
    pathJoin : string -> string -> string;
    dirname : string;
    tmpdir : string }.

Arguments existsSync {world} e _ _.
Arguments readFileSync {world} e _ _.
Arguments unlinkSync {world} e _ _.
Arguments writeFileSync {world} e _ _ _.
Arguments rmSync {world} e _ _.
Arguments mkdtempSync {world} e _ _.
Arguments exec {world} e _ _ _.
Arguments pathJoin {world} e _ _.
Arguments dirname {world} e.
Arguments tmpdir {world} e.

End Env.

(** ** Compiler Chain: [tryCompileLatex] *)

Module Compiler.
Import Env.

Record compiler : Type := mkCompiler
  { name : string; command : string; description : string }.

(** An entry of [attempts]; [error] is [err?.message]. *)
Record compilationAttempt : Type := mkAttempt
  { a_compiler : string;
    a_command : string;
    success : bool;
    error : option string;
    log : string }.

Section Chain.

Context {world : Type} (E : env world).

Definition dquote : string := String (ascii_of_nat 34) EmptyString.
Definition quoted (s : string) : string := dquote ++ s ++ dquote.

(** The candidates, the local executable first. *)
Definition compilers (texPath outputDir : string) : list compiler :=
  let tectonicPath := pathJoin E (dirname E) "tectonic.exe" in
  [ {| name := "tectonic-local";
       command := quoted tectonicPath ++ " --outdir " ++ quoted outputDir
                  ++ " " ++ quoted texPath;
       description := "Tectonic (local executable)" |};
    {| name := "tectonic-system";
       command := "tectonic --outdir " ++ quoted outputDir ++ " " ++ quoted texPath;
       description := "Tectonic (system installation)" |};
    {| name := "pdflatex";
       command := "pdflatex -output-directory=" ++ quoted outputDir
                  ++ " -interaction=nonstopmode " ++ quoted texPath;
       description := "pdfLaTeX (traditional)" |} ].

(** The body of the callback of [exec]: the log gathered for the attempt. *)
Definition fullLog (logPath : string) (r : execResult) (w : world) : string :=
  let fullLog := stdout r ++ stderr r in
  if existsSync E logPath w then
    match readFileSync E logPath w with
    | inr logContent => logContent ++ String (ascii_of_nat 10) EmptyString ++ fullLog
    | inl _ => fullLog
    end
  else fullLog.

Definition succeeded (pdfPath : string) (r : execResult) (w : world) : bool :=
  match err r with
  | None => existsSync E pdfPath w
  | Some _ => false
  end.

Definition recordAttempt (pdfPath logPath : string) (c : compiler)
    (r : execResult) (w : world) : compilationAttempt :=
  {| a_compiler := name c;
     a_command := command c;
     success := succeeded pdfPath r w;
     error := option_map message (err r);
     log := JS.sliceLast 3000 (fullLog logPath r w) |}.

(** "Clean up failed artifacts before trying next compiler": an error of the
    removal is ignored. *)
Definition removeArtifact (pdfPath : string) (w : world) : world :=
  if existsSync E pdfPath w then snd (unlinkSync E pdfPath w) else w.

(** [tryNextCompiler(index)], on the candidates from [index] on; what it
    returns is what it hands to [callback]: the error of exhaustion if any,
    and [attempts]. *)
Fixpoint tryNextCompiler (pdfPath logPath outputDir : string)
    (rest : list compiler) (attempts : list compilationAttempt) (w : world)
    : option string * list compilationAttempt * world :=
  match rest with
  | [] => (Some "All LaTeX compilers failed", attempts, w)
  | c :: rest' =>
      let '(r, w1) := exec E (command c) outputDir w in
      let attempts := (attempts ++ [recordAttempt pdfPath logPath c r w1])%list in
      if succeeded pdfPath r w1
      then (None, attempts, w1)
      else tryNextCompiler pdfPath logPath outputDir rest' attempts
             (removeArtifact pdfPath w1)
  end.

(** The chain over a list of candidates. *)
Definition runChain (outputDir : string) (cs : list compiler) (w : world)
    : option string * list compilationAttempt * world :=
  tryNextCompiler (pathJoin E outputDir "resume.pdf")
    (pathJoin E outputDir "resume.log") outputDir cs [] w.

Definition tryCompileLatex (texPath outputDir : string) (w : world)
    : option string * list compilationAttempt * world :=
  runChain outputDir (compilers texPath outputDir) w.

End Chain.

End Compiler.

(** ** Workspace Manager: [safeRemoveDir] *)

Module Workspace.
Import Env.

(** What a run of the cleanup leaves on the console: the log line of a
    removal, of a retry, of giving up, and the warning of the outer [catch];
    [OutOfFuel] marks a run cut short by the bound of the model. *)
Inductive event : Type :=
| Cleaned
| RetryCleanup (retries : nat)
| CouldNotRemove (message : string)
| CleanupWarning (message : string)
| OutOfFuel.

Definition maxRetries : nat := 3.

(** The lines that follow a call of [fs.rmSync]: all but the warning of the
    outer [catch]. *)
Definition isRemoval (ev : event) : bool :=
  match ev with
  | CleanupWarning _ => false
  | _ => true
  end.

(** The calls of [fs.rmSync] behind a run. *)
Definition removals (evs : list event) : nat :=
  List.length (filter isRemoval evs).

Section Cleanup.

Context {world : Type} (E : env world).

(** The [try] block of [attempt]: [fs.rmSync], then the log line. *)
Definition tryRemove (dirPath : string) (w : world)
    : completion * list event * world :=
  match rmSync E dirPath w with
  | (None, w') => (Normal, [Cleaned], w')
  | (Some err, w') => (Throw err, [], w')
  end.

(** The closure [attempt] with its [catch], and the counter [retries] it
    increments; [fuel] bounds the number of reschedules. *)
Fixpoint attempt (fuel : nat) (dirPath : string) (retries : nat) (w : world)
    : completion * list event * world :=
  match tryRemove dirPath w with
  | (Normal, evs, w') => (Normal, evs, w')
  | (Throw err, evs, w') =>
      let retries := S retries in
      if (retries <? maxRetries) && String.eqb (code err) "ENOTEMPTY"
      then
        match fuel with
        | S fuel' =>
            let '(c, evs', w'') := attempt fuel' dirPath retries w' in
            (c, (evs ++ RetryCleanup retries :: evs')%list, w'')
        | O => (Normal, (evs ++ [OutOfFuel])%list, w')
        end
      else (Normal, (evs ++ [CouldNotRemove (message err)])%list, w')
  end.

(** [safeRemoveDir(dirPath)], with its outer [try] and [catch]. *)
Definition safeRemoveDir (dirPath : string) (w : world)
    : completion * list event * world :=
  match (if existsSync E dirPath w
         then attempt maxRetries dirPath 0 w
         else (Normal, [], w)) with
  | (Normal, evs, w') => (Normal, evs, w')
  | (Throw err, evs, w') =>
      (Normal, (evs ++ [CleanupWarning (message err)])%list, w')
  end.

End Cleanup.

End Workspace.

(** ** The [/generate-pdf] handler *)

Module Handler.
Import Env Compiler Workspace.

(** A value of an entry as the loop reads it: a string, or another JSON
    value, given by what [String(val || '')] makes of it: a text, or nothing
    when the conversion throws (an object whose own [toString] and [valueOf]
    are not functions). *)
Inductive payloadValue : Type :=
| StringValue (s : string)
| OtherValue (converted : option string).

(** [values] of the payload: a value whose type is not ['object']; [null],
    whose type is; or an object (or array), given by the entries that
    [Object.entries] lists. *)
Inductive payloadValues : Type :=
| NotAnObject
| NullValues
| ValueMap (entries : list (string * payloadValue)).

(** [String(val || '')]. *)
Definition text (val : payloadValue) : option string :=
  match val with
  | StringValue s => Some s
  | OtherValue converted => converted
  end.

(** The entries with their values converted, in order; nothing when one of
    the conversions throws. *)
Fixpoint texts (entries : list (string * payloadValue))
    : option (list (string * string)) :=
  match entries with
  | [] => Some []
  | (key, val) :: rest =>
      match text val with
      | None => None
      | Some s =>
          match texts rest with
          | None => None
          | Some values => Some ((key, s) :: values)
          end
      end
  end.

(** The answers of the handler. *)
Inductive response : Type :=
| InvalidPayload
| InvalidTemplate (marker : string)
| ErrorProcessingTemplate
| FailedToWrite (details : string)
| GenerationFailed (attempts : list compilationAttempt) (troubleshooting : list string)
| Pdf (pdfPath : string)
| Uncaught (e : jsError).

Definition baseTroubleshooting : list string :=
  [ "Install a LaTeX distribution (TeX Live, MiKTeX, or Tectonic)";
    "Make sure LaTeX executables are in your system PATH";
    "Check that all required packages are available";
    "Verify your template syntax is correct";
    "Try simplifying your template to test basic functionality" ].

(** The hints put in front of the list from the log of the last attempt. *)
Definition troubleshootingFor (attempts : list compilationAttempt) : list string :=
  match last (map Some attempts) None with
  | Some lastAttempt =>
      let l := log lastAttempt in
      if negb (String.eqb l EmptyString) then
        let t := baseTroubleshooting in
        let t := if JS.includes "! LaTeX Error" l
                 then "LaTeX syntax error detected - check your template" :: t else t in
        let t := if JS.includes "File" l && JS.includes "not found" l
                 then "Missing LaTeX package - install required packages" :: t else t in
        let t := if JS.includes "Emergency stop" l
                 then "Critical LaTeX error - check document structure" :: t else t in
        t
      else baseTroubleshooting
  | None => baseTroubleshooting
  end.

Section Generate.

Context {world : Type} (E : env world).

(** The handler on a string [template].  [Object.entries(null)] and a
    conversion of a value that throws both happen inside the [try] block,
    whose [catch] answers whatever the loop did before;
    [fs.mkdtempSync] is called outside every [try], so an error it throws
    leaves the handler ([Uncaught]).  On a failure the cleanup is called
    before the answer is sent, so an exception out of it would leave the
    request without its answer ([Uncaught]); on success the file is sent
    first. *)
Definition generatePdf (template : string) (values : payloadValues)
    (w : world) : response * list event * world :=
  match values with
  | NotAnObject => (InvalidPayload, [], w)
  | NullValues => (ErrorProcessingTemplate, [], w)
  | ValueMap entries =>
      match texts entries with
      | None => (ErrorProcessingTemplate, [], w)
      | Some converted =>
          match Injector.inject template converted with
          | Injector.MissingStructure marker => (InvalidTemplate marker, [], w)
          | Injector.ProcessingError => (ErrorProcessingTemplate, [], w)
          | Injector.Processed processed =>
              match mkdtempSync E (pathJoin E (tmpdir E) "latex-") w with
              | (inl e, w) => (Uncaught e, [], w)
              | (inr tmp, w) =>
                  let texPath := pathJoin E tmp "resume.tex" in
                  match writeFileSync E texPath processed w with
                  | (Some error, w) =>
                      let '(c, evs, w) := safeRemoveDir E tmp w in
                      match c with
                      | Normal => (FailedToWrite (message error), evs, w)
                      | Throw e => (Uncaught e, evs, w)
                      end
                  | (None, w) =>
                      let '(err, attempts, w) := tryCompileLatex E texPath tmp w in
                      let pdfPath := pathJoin E tmp "resume.pdf" in
                      let failed :=
                        match err with
                        | Some _ => true
                        | None => negb (existsSync E pdfPath w)
                        end in
                      if failed then
                        let answer :=
                          GenerationFailed attempts (troubleshootingFor attempts) in
                        let '(c, evs, w) := safeRemoveDir E tmp w in
                        match c with
                        | Normal => (answer, evs, w)
                        | Throw e => (Uncaught e, evs, w)
                        end
                      else
                        let '(_, evs, w) := safeRemoveDir E tmp w in
                        (Pdf pdfPath, evs, w)
                  end
              end
          end
      end
  end.

End Generate.

End Handler.

(** ** Definitions for the statements

    The words of the specification, and the shapes the proofs read off the
    patterns. *)

Module Spec.
Import RegExp Injector.

(** The nodes of a literal text. *)
Definition chars (p : string) : list node := map Char (list_ascii_of_string p).

Definition pushs (cur : option string) (p : string) : option string :=
  match cur with
  | Some g => Some (g ++ p)
  | None => None
  end.

Fixpoint flatMap (f : ascii -> string) (s : string) : string :=
  match s with
  | EmptyString => EmptyString
  | String c s' => f c ++ flatMap f s'
  end.

(** A syntax character with a backslash before it. *)
Definition escChar (c : ascii) : string :=
  if isSyntaxChar c then String "\" (String c EmptyString)
  else String c EmptyString.

(** What follows the head of a definition pattern: [)[^}]*?(\})]. *)
Definition starTail : list node :=
  [Close; LazyStar true [("}"%char, "}"%char)]; Open; Char "}"; Close].

(** The node sequences of the five patterns of a key. *)
Definition newCmdNodes (key : string) : list node :=
  (Open :: chars ("\newcommand{\" ++ key ++ "}{") ++ starTail)%list.
Definition defNodes (key : string) : list node :=
  (Open :: chars ("\def\" ++ key ++ "{") ++ starTail)%list.
Definition placeholderNodes (key : string) : list node :=
  chars ("{" ++ key ++ "}").
Definition varNodes (key : string) : list node :=
  chars ("\VAR{" ++ key ++ "}").
Definition bracketNodes (key : string) : list node :=
  chars ("<<" ++ key ++ ">>").

(** What [escapeLatex] makes of one character. *)
Definition escapedChar (c : ascii) : string :=
  if Ascii.eqb c "\" then "\textbackslash\{\}"
  else if Ascii.eqb c "{" || Ascii.eqb c "}" then String "\" (String c EmptyString)
  else if existsb (Ascii.eqb c) (list_ascii_of_string "$&%#^_~")
  then String "\" (String c EmptyString)
  else String c EmptyString.

(** The text the last pattern of [escapeLatex] looks for: a TAB, then
    [extbackslash{}]. *)
Definition tabPattern : string := String (ascii_of_nat 9) "extbackslash{}".

(** The text before the first closing brace, and the text after it. *)
Fixpoint untilBrace (s : string) : option (string * string) :=
  match s with
  | EmptyString => None
  | String c s' =>
      if Ascii.eqb "}" c then Some (EmptyString, s')
      else match untilBrace s' with
           | Some (b, r) => Some (String c b, r)
           | None => None
           end
  end.


(** Wherever the head [pre] of a definition stands in [doc], the body [s]
    and the closing brace follow it. *)
Fixpoint definitionsHold (pre s doc : string) : bool :=
  (negb (JS.startsWith pre doc) || JS.startsWith (pre ++ s ++ "}") doc) &&
  match doc with
  | EmptyString => true
  | String _ doc' => definitionsHold pre s doc'
  end.




(** The pattern built from [src] matches somewhere in [doc]. *)
Definition matchesIn (src doc : string) : bool :=
  match compile src with
  | Some re => test re doc
  | None => false
  end.

(** One of the five patterns of [key] matches somewhere in [doc]. *)
Definition placeholderOccurs (key doc : string) : bool :=
  let escKey := replace reSpecial "\$&" key in
  matchesIn (newCmdSource escKey) doc ||
  matchesIn (defSource escKey) doc ||
  matchesIn (placeholderSource escKey) doc ||
  matchesIn (varSource escKey) doc ||
  matchesIn (bracketSource escKey) doc.

(** The canonical charset [a-z0-9_]. *)
Definition canonical (c : ascii) : bool :=
  JS.inRange "a" "z" c || JS.inRange "0" "9" c || Ascii.eqb c "_".

Fixpoint keepCanonical (s : string) : string :=
  match s with
  | EmptyString => EmptyString
  | String c s' =>
      if canonical c then String c (keepCanonical s') else keepCanonical s'
  end.

Fixpoint allCanonical (s : string) : bool :=
  match s with
  | EmptyString => true
  | String c s' => canonical c && allCanonical s'
  end.

(** The elements the specification keeps: objects with a non-empty string
    [id] and a non-empty string [label]. *)
Definition Keeps {num : Type} (item : Extractor.value num) : Prop :=
  exists props i l,
    item = Extractor.JObj props /\
    Extractor.lookup "id" props = Some (Extractor.JStr i) /\
    Extractor.lookup "label" props = Some (Extractor.JStr l) /\
    i <> EmptyString /\ l <> EmptyString.

(** The invariant the specification gives a schema: ids non-empty and over
    the canonical charset, labels non-empty, ids pairwise distinct. *)
Definition descriptorInvariant (f : Extractor.field) : Prop :=
  Extractor.id f <> EmptyString /\
  allCanonical (Extractor.id f) = true /\
  Extractor.label f <> EmptyString.

Definition schemaInvariant (schema : list Extractor.field) : Prop :=
  Forall descriptorInvariant schema /\ NoDup (map Extractor.id schema).

Section Chain.
Import Env Compiler.

Context {world : Type} (E : env world).
Variables pdfPath outputDir : string.

(** The chain as the specification words it: one attempt per candidate in
    order; an attempt succeeds when the process ended without error and the
    artifact exists; after a failed attempt the next candidate runs in the
    world the attempt left, from which the artifact, if there was one, has
    been removed: the artifact is gone; the first success ends the chain;
    when the candidates are used up the chain fails with all the attempts. *)
Inductive ChainSpec
  : list compiler -> world ->
    option string * list compilationAttempt * world -> Prop :=
| chain_exhausted (w : world) :
    ChainSpec [] w (Some "All LaTeX compilers failed", [], w)
| chain_success (c : compiler) (cs : list compiler) (w w1 : world)
    (r : execResult) (a : compilationAttempt) :
    exec E (command c) outputDir w = (r, w1) ->
    err r = None -> existsSync E pdfPath w1 = true ->
    a_compiler a = name c -> success a = true ->
    ChainSpec (c :: cs) w (None, [a], w1)
| chain_failure (c : compiler) (cs : list compiler) (w w1 w2 w' : world)
    (r : execResult) (a : compilationAttempt) (res : option string)
    (atts : list compilationAttempt) :
    exec E (command c) outputDir w = (r, w1) ->
    err r <> None \/ existsSync E pdfPath w1 = false ->
    a_compiler a = name c -> success a = false ->
    w2 = (if existsSync E pdfPath w1 then snd (unlinkSync E pdfPath w1) else w1) ->
    existsSync E pdfPath w2 = false ->
    ChainSpec cs w2 (res, atts, w') ->
    ChainSpec (c :: cs) w (res, a :: atts, w').

End Chain.

Section Cleanup.
Import Env Workspace.

Context {world : Type} (E : Env.env world).
Variable dirPath : string.

(** The cleanup of an existing directory in the words of C9 as amended, from
    the call of [fs.rmSync] that follows [retries] failed ones: a removal
    that works ends the cleanup; a removal that fails is retried when its
    error code is ENOTEMPTY and the calls made are fewer than [maxRetries];
    after any other failure the cleanup gives up at once with the message of
    that failure. *)
Inductive CleanupSpec : nat -> world -> list event * world -> Prop :=
| cleanup_done (retries : nat) (w w' : world) :
    rmSync E dirPath w = (None, w') ->
    CleanupSpec retries w ([Cleaned], w')
| cleanup_retry (retries : nat) (w w' w'' : world) (e : jsError)
    (evs : list event) :
    rmSync E dirPath w = (Some e, w') ->
    S retries < maxRetries -> code e = "ENOTEMPTY" ->
    CleanupSpec (S retries) w' (evs, w'') ->
    CleanupSpec retries w (RetryCleanup (S retries) :: evs, w'')
| cleanup_give_up (retries : nat) (w w' : world) (e : jsError) :
    rmSync E dirPath w = (Some e, w') ->
    maxRetries <= S retries \/ code e <> "ENOTEMPTY" ->
    CleanupSpec retries w ([CouldNotRemove (message e)], w').

End Cleanup.

(** The environment with another [fs.rmSync]. *)
Definition withRmSync {world : Type} (E : Env.env world)
    (rm : string -> world -> option Env.jsError * world) : Env.env world :=
  {| Env.existsSync := Env.existsSync E;
     Env.readFileSync := Env.readFileSync E;
     Env.unlinkSync := Env.unlinkSync E;
     Env.writeFileSync := Env.writeFileSync E;
     Env.rmSync := rm;
     Env.mkdtempSync := Env.mkdtempSync E;
     Env.exec := Env.exec E;
     Env.pathJoin := Env.pathJoin E;
     Env.dirname := Env.dirname E;
     Env.tmpdir := Env.tmpdir E |}.

Definition isRetry (ev : Workspace.event) : bool :=
  match ev with
  | Workspace.RetryCleanup _ => true
  | _ => false
  end.

Definition isFinal (ev : Workspace.event) : bool :=
  match ev with
  | Workspace.Cleaned => true
  | Workspace.CouldNotRemove _ => true
  | _ => false
  end.

(** The answers for which a workspace was made. *)
Definition hasWorkspace (r : Handler.response) : bool :=
  match r with
  | Handler.FailedToWrite _ => true
  | Handler.GenerationFailed _ _ => true
  | Handler.Pdf _ => true
  | _ => false
  end.

End Spec.

(** ** A small world to run the server in *)

Module Sim.
Import Env.

(** The file system as the list of the paths that exist. *)
Definition world : Type := list string.

Definition present (p : string) (w : world) : bool := existsb (String.eqb p) w.

Definition removeFile (p : string) (w : world) : world :=
  filter (fun q => negb (String.eqb p q)) w.

Definition join (a b : string) : string := a ++ "/" ++ b.

(** Only [pdflatex] is installed; it writes the PDF. *)
Definition pdflatexOnly (cmd cwd : string) (w : world) : execResult * world :=
  if JS.startsWith "pdflatex" cmd
  then ({| err := None; stdout := "Output written on resume.pdf"; stderr := EmptyString |},
        join cwd "resume.pdf" :: w)
  else ({| err := Some {| code := "ENOENT"; message := "Command failed" |};
           stdout := EmptyString; stderr := "command not found" |}, w).

(** The local Tectonic fails and leaves a partial PDF, the system one is
    not installed, and [pdflatex] writes the PDF. *)
Definition partialThenPdflatex (cmd cwd : string) (w : world) : execResult * world :=
  if JS.startsWith "pdflatex" cmd
  then ({| err := None; stdout := "Output written on resume.pdf"; stderr := EmptyString |},
        join cwd "resume.pdf" :: w)
  else if JS.startsWith "tectonic" cmd
  then ({| err := Some {| code := "ENOENT"; message := "Command failed" |};
           stdout := EmptyString; stderr := "command not found" |}, w)
  else ({| err := Some {| code := "1"; message := "Command failed" |};
           stdout := EmptyString; stderr := "error: halted on potentially-recoverable error" |},
        join cwd "resume.pdf" :: w).

(** The local Tectonic fails and leaves a partial PDF; the system one ends
    without error and writes nothing. *)
Definition partialThenNothing (cmd cwd : string) (w : world) : execResult * world :=
  if JS.startsWith "tectonic" cmd
  then ({| err := None; stdout := EmptyString; stderr := EmptyString |}, w)
  else ({| err := Some {| code := "1"; message := "Command failed" |};
           stdout := EmptyString; stderr := "error: halted on potentially-recoverable error" |},
        join cwd "resume.pdf" :: w).

(** A removal that works, and one that the system refuses with [code]. *)
Definition rmWorks (p : string) (w : world) : option jsError * world :=
  (None, removeFile p w).

Definition rmRefused (code : string) (p : string) (w : world)
    : option jsError * world :=
  (Some {| code := code; message := "rm failed" |}, w).

Definition simEnv (run : string -> string -> world -> execResult * world)
    (rm : string -> world -> option jsError * world) : env world :=
  {| existsSync := present;
     readFileSync := fun _ _ => inl {| code := "ENOENT"; message := "no such file" |};
     unlinkSync := fun p w => (None, removeFile p w);
     writeFileSync := fun p _ w => (None, p :: w);
     rmSync := rm;
     mkdtempSync := fun prefix w =>
                      (inr (prefix ++ "a1B2c3"), (prefix ++ "a1B2c3") :: w);
     exec := run;
     pathJoin := join;
     dirname := "/srv/backend";
     tmpdir := "/tmp" |}.


Definition letter : string :=
  "\documentclass{letter}\begin{document}Dear <<name>>,\end{document}".

Definition varDocument : string :=
  "\documentclass{article}\begin{document}\VAR{name}\end{document}".

(** A model response with the same id twice after normalisation. *)
Definition twins : list (Extractor.value nat) :=
  [ Extractor.JObj [("id", Extractor.JStr "name"); ("label", Extractor.JStr "Name")];
    Extractor.JObj [("id", Extractor.JStr "Name"); ("label", Extractor.JStr "Full name")] ].

(** A host where the cleanup works, one where the system refuses it, and
    the workspace of a request. *)
Definition host : env world := simEnv pdflatexOnly rmWorks.
Definition partialHost : env world := simEnv partialThenPdflatex rmWorks.

(** A host on which the PDF is locked: [fs.unlinkSync] throws and the file
    stays. *)
Definition lockedHost : env world :=
  {| existsSync := present;
     readFileSync := fun _ _ => inl {| code := "ENOENT"; message := "no such file" |};
     unlinkSync := fun p w =>
                     (Some {| code := "EBUSY"; message := "resource busy or locked" |}, w);
     writeFileSync := fun p _ w => (None, p :: w);
     rmSync := rmWorks;
     mkdtempSync := fun prefix w =>
                      (inr (prefix ++ "a1B2c3"), (prefix ++ "a1B2c3") :: w);
     exec := partialThenNothing;
     pathJoin := join;
     dirname := "/srv/backend";
     tmpdir := "/tmp" |}.
Definition refusingHost : env world := simEnv pdflatexOnly (rmRefused "EPERM").

(** A host on which no temporary directory can be made. *)
Definition fullHost : env world :=
  {| existsSync := present;
     readFileSync := fun _ _ => inl {| code := "ENOENT"; message := "no such file" |};
     unlinkSync := fun p w => (None, removeFile p w);
     writeFileSync := fun p _ w => (None, p :: w);
     rmSync := rmWorks;
     mkdtempSync := fun prefix w =>
                      (inl {| code := "ENOSPC"; message := "no space left on device" |}, w);
     exec := pdflatexOnly;
     pathJoin := join;
     dirname := "/srv/backend";
     tmpdir := "/tmp" |}.
Definition workdir : string := "/tmp/latex-a1B2c3".

Definition natToString (n : nat) : string :=
  NilZero.string_of_uint (Nat.to_uint n).

End Sim.

(** ** More JavaScript string built-ins *)

Module Text.

(** [s.slice(0, n)]: the first [n] characters *)
Fixpoint take (n : nat) (s : string) : string :=
  match n, s with
  | O, _ => EmptyString
  | S _, EmptyString => EmptyString
  | S k, String c s' => String c (take k s')
  end.

(** [s.endsWith(p)] *)
Definition endsWith (p s : string) : bool :=
  (String.length p <=? String.length s) &&
  String.eqb (JS.drop (String.length s - String.length p) s) p.

(** [s.split('\n')[0]]: the text before the first line feed *)
Fixpoint firstLine (s : string) : string :=
  match s with
  | EmptyString => EmptyString
  | String c s' =>
      if Ascii.eqb c (ascii_of_nat 10) then EmptyString
      else String c (firstLine s')
  end.

(** a non-negative integer in a template literal *)
Definition ofNat (n : nat) : string :=
  NilZero.string_of_uint (Nat.to_uint n).

(** [(s.match(re) || []).length] for a global [re]: the matches are found
    as [replace] finds them. *)
Fixpoint countFrom (re : list RegExp.node) (skip : nat) (rest : string) : nat :=
  match rest with
  | EmptyString =>
      match RegExp.exec re EmptyString with
      | Some _ => 1
      | None => 0
      end
  | String c rest' =>
      match skip with
      | S k => countFrom re k rest'
      | O =>
          match RegExp.exec re rest with
          | Some r =>
              match String.length (RegExp.matched r) with
              | O => S (countFrom re 0 rest')
              | S k => S (countFrom re k rest')
              end
          | None => countFrom re 0 rest'
          end
      end
  end.

Definition matchCount (re : list RegExp.node) (s : string) : nat :=
  countFrom re 0 s.

End Text.

(** ** The [/validate-latex] handler *)

Module Validator.
Import RegExp.

(** [/\\newcommand/] *)
Definition reNewcommand : list node := ltac:(Injector.literal "\\newcommand").
(** [/\\def\\/] *)
Definition reDefCommand : list node := ltac:(Injector.literal "\\def\\").
(** [/\{/g] *)
Definition reOpenBrace : list node := ltac:(Injector.literal "\{").
(** [/\}/g] *)
Definition reCloseBrace : list node := ltac:(Injector.literal "\}").

Record flags : Type := mkFlags
  { hasDocumentClass : bool;
    hasBeginDocument : bool;
    hasEndDocument : bool;
    hasNewCommands : bool;
    hasDefCommands : bool }.

Record validation : Type := mkValidation
  { valid : bool;
    warnings : list string;
    errors : list string;
    structure : flags }.

Inductive response : Type :=
| NoLatexProvided
| Validated (v : validation).

Definition endDocument : string := "\end{document}".

(** [validation.errors.push(e); validation.valid = false] *)
Definition fail (e : string) (v : validation) : validation :=
  {| valid := false;
     warnings := warnings v;
     errors := (errors v ++ [e])%list;
     structure := structure v |}.

(** [validation.warnings.push(m)] *)
Definition warn (m : string) (v : validation) : validation :=
  {| valid := valid v;
     warnings := (warnings v ++ [m])%list;
     errors := errors v;
     structure := structure v |}.

(** The handler on the text body of the request. *)
Definition validateLatex (body : string) : response :=
  let latex := JS.trim body in
  if String.eqb latex EmptyString then NoLatexProvided
  else
    let validation :=
      {| valid := true;
         warnings := [];
         errors := [];
         structure :=
           {| hasDocumentClass := JS.includes Injector.documentclass latex;
              hasBeginDocument := JS.includes Injector.beginDocument latex;
              hasEndDocument := JS.includes endDocument latex;
              hasNewCommands := test reNewcommand latex;
              hasDefCommands := test reDefCommand latex |} |} in
    let validation :=
      if negb (hasDocumentClass (structure validation))
      then fail "Missing \documentclass declaration" validation
      else validation in
    let validation :=
      if negb (hasBeginDocument (structure validation))
      then fail "Missing \begin{document}" validation
      else validation in
    let validation :=
      if negb (hasEndDocument (structure validation))
      then fail "Missing \end{document}" validation
      else validation in
    let validation :=
      if negb (hasNewCommands (structure validation)) &&
         negb (hasDefCommands (structure validation))
      then warn "No \newcommand or \def found - template might not have fillable fields"
             validation
      else validation in
    let openBraces := Text.matchCount reOpenBrace latex in
    let closeBraces := Text.matchCount reCloseBrace latex in
    let validation :=
      if negb (openBraces =? closeBraces)
      then warn ("Unbalanced braces: " ++ Text.ofNat openBraces ++ " open, "
                 ++ Text.ofNat closeBraces ++ " close") validation
      else validation in
    Validated validation.

End Validator.

(** ** Regular expressions with anchors, alternation and greedy stars

    The patterns that clean the answer of the model use more of the
    pattern language: [^] and [$], [|], the dot under the [s] flag, [\s],
    and the greedy and lazy star and the plus over one character. *)

Module Rx.

(** What matches one character. *)
Inductive atom : Type :=
| AChr (c : ascii)
| AAny
| AWhite.

Definition accepts (a : atom) (c : ascii) : bool :=
  match a with
  | AChr d => Ascii.eqb d c
  | AAny => true
  | AWhite => JS.isWhite c
  end.

Inductive rx : Type :=
| Eps
| One (a : atom)
| Star (greedy : bool) (a : atom)
| Bol
| Eol
| Seq (r1 r2 : rx)
| Alt (r1 r2 : rx).

(** [a+] *)
Definition plus (a : atom) : rx := Seq (One a) (Star true a).

(** a literal text *)
Fixpoint lit (s : string) : rx :=
  match s with
  | EmptyString => Eps
  | String c s' => Seq (One (AChr c)) (lit s')
  end.

(** What is left to match: it is given whether the position is the start
    of the subject, the text matched so far and the input left, and answers
    with the matched text and the input after the match. *)
Definition cont : Type := bool -> string -> string -> option (string * string).

(** The star over one character: the greedy one takes a character before it
    tries what follows, the lazy one tries what follows first. *)
Fixpoint star (greedy : bool) (a : atom) (k : cont) (atStart : bool)
    (m input : string) {struct input} : option (string * string) :=
  match input with
  | String c rest =>
      if accepts a c then
        if greedy then
          match star greedy a k false (m ++ String c EmptyString) rest with
          | Some r => Some r
          | None => k atStart m input
          end
        else
          match k atStart m input with
          | Some r => Some r
          | None => star greedy a k false (m ++ String c EmptyString) rest
          end
      else k atStart m input
  | EmptyString => k atStart m input
  end.

(** Backtracking match at the present position. *)
Fixpoint run (r : rx) (k : cont) {struct r} : cont :=
  match r with
  | Eps => k
  | One a => fun atStart m input =>
      match input with
      | String c rest =>
          if accepts a c then k false (m ++ String c EmptyString) rest else None
      | EmptyString => None
      end
  | Star greedy a => star greedy a k
  | Bol => fun atStart m input => if atStart then k atStart m input else None
  | Eol => fun atStart m input =>
      match input with
      | EmptyString => k atStart m input
      | String _ _ => None
      end
  | Seq r1 r2 => run r1 (run r2 k)
  | Alt r1 r2 => fun atStart m input =>
      match run r1 k atStart m input with
      | Some x => Some x
      | None => run r2 k atStart m input
      end
  end.

(** Nothing is left to match: the match is found. *)
Definition accept : cont := fun _ m rest => Some (m, rest).

(** A match at the present position: the matched text and what follows. *)
Definition exec (r : rx) (atStart : bool) (input : string)
    : option (string * string) :=
  run r accept atStart EmptyString input.

(** The first match from the left: the text before it, the matched text and
    the text after it. *)
Fixpoint searchFrom (r : rx) (before : string) (atStart : bool) (rest : string)
    : option (string * string * string) :=
  match exec r atStart rest with
  | Some (m, after) => Some (before, m, after)
  | None =>
      match rest with
      | String c rest' => searchFrom r (before ++ String c EmptyString) false rest'
      | EmptyString => None
      end
  end.

(** [s.match(re)] for a [re] without the [g] flag. *)
Definition firstMatch (r : rx) (s : string) : option (string * string * string) :=
  searchFrom r EmptyString true s.

(** [s.replace(re, tpl)] for a [re] without the [g] flag. *)
Definition replaceFirst (r : rx) (tpl s : string) : string :=
  match firstMatch r s with
  | Some (before, m, after) =>
      before ++ RegExp.getSubstitution m before after [] tpl ++ after
  | None => s
  end.

(** [s.replace(re, tpl)] for a global [re], as [RegExp.replaceFrom]. *)
Fixpoint replaceAllFrom (r : rx) (tpl before : string) (skip : nat)
    (atStart : bool) (rest : string) : string :=
  match rest with
  | EmptyString =>
      match exec r atStart EmptyString with
      | Some (m, after) => RegExp.getSubstitution m before after [] tpl
      | None => EmptyString
      end
  | String c rest' =>
      match skip with
      | S k => replaceAllFrom r tpl (before ++ String c EmptyString) k false rest'
      | O =>
          match exec r atStart rest with
          | Some (m, after) =>
              let out := RegExp.getSubstitution m before after [] tpl in
              match String.length m with
              | O => out ++ String c
                       (replaceAllFrom r tpl (before ++ String c EmptyString) 0 false rest')
              | S k => out ++
                       replaceAllFrom r tpl (before ++ String c EmptyString) k false rest'
              end
          | None =>
              String c (replaceAllFrom r tpl (before ++ String c EmptyString) 0 false rest')
          end
      end
  end.

Definition replaceAll (r : rx) (tpl s : string) : string :=
  replaceAllFrom r tpl EmptyString 0 true s.

End Rx.

(** ** The [/upload-tex] handler around the validation of the schema *)

Module Upload.
Import Rx Env.

Definition tick : ascii := "`".

(** [/^.*?```json\s*/s] *)
Definition reFenceOpen : rx :=
  Seq Bol (Seq (Star false AAny) (Seq (lit "```json") (Star true AWhite))).
(** [/\s*```.*$/s] *)
Definition reFenceClose : rx :=
  Seq (Star true AWhite) (Seq (lit "```") (Seq (Star true AAny) Eol)).
(** [/^`+|`+$/g] *)
Definition reTicks : rx :=
  Alt (Seq Bol (plus (AChr tick))) (Seq (plus (AChr tick)) Eol).
(** [/\[[\s\S]*\]/] *)
Definition reArray : rx :=
  Seq (One (AChr "[")) (Seq (Star true AAny) (One (AChr "]"))).

(** "Remove markdown formatting if present" *)
Definition stripFences (raw : string) : string :=
  let cleaned := JS.trim raw in
  JS.trim
    (replaceAll reTicks EmptyString
       (replaceFirst reFenceClose EmptyString
          (replaceFirst reFenceOpen EmptyString cleaned))).

(** "Handle case where AI adds explanation before JSON" *)
Definition extractArray (cleaned : string) : string :=
  match firstMatch reArray cleaned with
  | Some (_, jsonMatch, _) => jsonMatch
  | None => cleaned
  end.

Definition q : string := String (ascii_of_nat 34) EmptyString.

(** The instructions before the template and after it, line by line. *)
Definition promptHead : list string :=
  [ EmptyString;
    "You are a LaTeX resume parsing assistant. Analyze this LaTeX template and extract ALL user-fillable fields.";
    EmptyString;
    "Look for these patterns:";
    "1. \newcommand{\fieldname}{default value}";
    "2. \def\fieldname{default value}";
    "3. {PLACEHOLDER} or {fieldname}";
    "4. \VAR{fieldname}";
    "5. <<fieldname>> or [fieldname]";
    "6. Any obvious placeholder text like " ++ q ++ "Your Name" ++ q ++ ", " ++ q ++ "your.email@domain.com" ++ q ++ ", etc.";
    EmptyString;
    "For each field found, create a JSON object with:";
    "- id: machine-readable key (lowercase, underscores for spaces, no special chars)";
    "- label: human-readable label (proper case, spaces allowed)";
    "- default: the current value/placeholder text";
    EmptyString;
    "Return ONLY a valid JSON array. Be comprehensive - extract every fillable field you can identify.";
    EmptyString;
    "Example output:";
    "[";
    "  {" ++ q ++ "id" ++ q ++ ": " ++ q ++ "name" ++ q ++ ", " ++ q ++ "label" ++ q ++ ": " ++ q ++ "Full Name" ++ q ++ ", " ++ q ++ "default" ++ q ++ ": " ++ q ++ "John Doe" ++ q ++ "},";
    "  {" ++ q ++ "id" ++ q ++ ": " ++ q ++ "email" ++ q ++ ", " ++ q ++ "label" ++ q ++ ": " ++ q ++ "Email Address" ++ q ++ ", " ++ q ++ "default" ++ q ++ ": " ++ q ++ "john@example.com" ++ q ++ "},";
    "  {" ++ q ++ "id" ++ q ++ ": " ++ q ++ "phone" ++ q ++ ", " ++ q ++ "label" ++ q ++ ": " ++ q ++ "Phone Number" ++ q ++ ", " ++ q ++ "default" ++ q ++ ": " ++ q ++ "(555) 123-4567" ++ q ++ "}";
    "]";
    EmptyString;
    "### LATEX TEMPLATE START ###";
    EmptyString ].

Definition promptTail : list string :=
  [ EmptyString;
    "### LATEX TEMPLATE END ###";
    EmptyString;
    "Return JSON array:" ].

Fixpoint unlines (l : list string) : string :=
  match l with
  | [] => EmptyString
  | [x] => x
  | x :: l' => x ++ String (ascii_of_nat 10) (unlines l')
  end.

(** The template literal of the prompt, trimmed. *)
Definition prompt (latex : string) : string :=
  JS.trim (unlines promptHead ++ latex ++ unlines promptTail).

(** The answers of the handler. *)
Inductive response : Type :=
| NoLatexProvided
| MissingDocumentclass
| InvalidJsonFormat (raw cleaned : string)
| ParseFailed (parseError cleaned : string)
| Answered (r : Extractor.response)
| ExtractionFailed (error : string) (troubleshooting : list string).

(** The tips of the [catch] block. *)
Definition extractionTroubleshooting (message : string) : list string :=
  let troubleshooting :=
    [ "Check your internet connection";
      "Verify GEMINI_API_KEY is set correctly";
      "Try a simpler LaTeX template";
      "Make sure the template is complete and valid" ] in
  if JS.includes "Timeout" message
  then "Request timed out - try a shorter template" :: troubleshooting
  else if JS.includes "API" message
  then "Gemini API error - check your API key and quota" :: troubleshooting
  else troubleshooting.

Section Request.

Context {num : Type} (numIsZero : num -> bool) (numToString : num -> string).

(** [JSON.parse], which throws on a text that is not JSON, and the call of
    the model raced against the timer, which answers with the text of the
    model or throws. *)
Variable jsonParse : string -> jsError + Extractor.value num.
Variable generateContent : string -> jsError + string.

(** The handler from the answer of the model on. *)
Definition afterModel (raw : string) : response :=
  let cleaned := extractArray (stripFences raw) in
  if negb (JS.startsWith "[" cleaned) || negb (Text.endsWith "]" cleaned)
  then InvalidJsonFormat (Text.take 500 raw ++ "...") (Text.take 500 cleaned ++ "...")
  else
    match jsonParse cleaned with
    | inl parseErr => ParseFailed (message parseErr) (Text.take 500 cleaned ++ "...")
    | inr schema => Answered (Extractor.validate numIsZero numToString schema)
    end.

(** The handler on the text body of the request. *)
Definition uploadTex (body : string) : response :=
  let latex := JS.trim body in
  if String.eqb latex EmptyString then NoLatexProvided
  else if negb (JS.includes Injector.documentclass latex) then MissingDocumentclass
  else
    match generateContent (prompt latex) with
    | inr raw => afterModel raw
    | inl err =>
        ExtractionFailed ("AI extraction failed: " ++ message err)
          (extractionTroubleshooting (message err))
    end.

End Request.

End Upload.

(** ** The script that looks for the LaTeX compilers ([test-latex.js]) *)

Module LatexCheck.
Import Env.

Record compiler : Type := mkCompiler { name : string; command : string }.

Definition compilers : list compiler :=
  [ {| name := "tectonic"; command := "tectonic --version" |};
    {| name := "pdflatex"; command := "pdflatex --version" |};
    {| name := "xelatex"; command := "xelatex --version" |};
    {| name := "lualatex"; command := "lualatex --version" |} ].

(** The lines the script writes on the console. *)
Inductive line : Type :=
| Checking
| NotAvailable (name : string)
| Available (name : string)
| Version (version : string)
| Summary
| AvailableCount (n : nat)
| Item (name : string)
| NoneFound
| ToInstall
| InstallMiKTeX
| InstallTectonic.

Section Script.

Context {world : Type}.

(** [child_process.exec] with its timeout: the error, if any, and the
    output of the command. *)
Variable exec : string -> world -> execResult * world.

(** [checkCompiler(compiler)]: what the promise resolves to, and the lines
    written. *)
Definition checkCompiler (c : compiler) (w : world) : bool * list line * world :=
  let '(r, w') := exec (command c) w in
  match err r with
  | Some _ => (false, [NotAvailable (name c)], w')
  | None =>
      let version := Text.take 80 (Text.firstLine (stdout r)) in
      (true, [Available (name c); Version version], w')
  end.

(** The loop of [checkAllCompilers] over what is left of [compilers]. *)
Fixpoint checkEach (cs : list compiler) (results : list (string * bool))
    (w : world) : list (string * bool) * list line * world :=
  match cs with
  | [] => (results, [], w)
  | c :: cs' =>
      let '(available, out, w') := checkCompiler c w in
      let '(results', out', w'') :=
        checkEach cs' (results ++ [(name c, available)])%list w' in
      (results', (out ++ out')%list, w'')
  end.

(** The lines after the loop. *)
Definition summary (results : list (string * bool)) : list line :=
  let availableCompilers := filter (fun r => snd r) results in
  Summary ::
  (if 0 <? List.length availableCompilers
   then AvailableCount (List.length availableCompilers)
        :: map (fun c => Item (fst c)) availableCompilers
   else [NoneFound; ToInstall; InstallMiKTeX; InstallTectonic]).

Definition checkAllCompilers (w : world) : list line * world :=
  let '(results, out, w') := checkEach compilers [] w in
  ((out ++ summary results)%list, w').

(** The script: the first line, then [checkAllCompilers()]. *)
Definition main (w : world) : list line * world :=
  let '(out, w') := checkAllCompilers w in
  (Checking :: out, w').

End Script.

End LatexCheck.

(** ** Definitions for the statements about the other handlers *)

Module Props.

(** The nine characters [escapeLatex] puts a backslash before, and with the
    backslash the ten it rewrites. *)
Definition reserved (c : ascii) : bool :=
  existsb (Ascii.eqb c) (list_ascii_of_string "{}$&%#^_~").

Definition special (c : ascii) : bool := Ascii.eqb c "\" || reserved c.

(** Every reserved character of [s] has a backslash right before it; [prev]
    tells whether a backslash stands before [s]. *)
Fixpoint guarded (prev : bool) (s : string) : bool :=
  match s with
  | EmptyString => true
  | String c s' => (if reserved c then prev else true) && guarded (Ascii.eqb c "\") s'
  end.

(** Every character of [s] satisfies [p]. *)
Fixpoint all (p : ascii -> bool) (s : string) : bool :=
  match s with
  | EmptyString => true
  | String c s' => p c && all p s'
  end.

(** Plain text: none of the ten characters of [special] and no [<]. *)
Definition text (s : string) : bool :=
  all (fun c => negb (special c) && negb (Ascii.eqb c "<")) s.

(** The number of times [c] stands in [s]. *)
Fixpoint countChar (c : ascii) (s : string) : nat :=
  match s with
  | EmptyString => 0
  | String d s' => (if Ascii.eqb c d then 1 else 0) + countChar c s'
  end.

(** The longest prefix of [s] whose characters satisfy [p]. *)
Fixpoint leading (p : ascii -> bool) (s : string) : string :=
  match s with
  | EmptyString => EmptyString
  | String c s' => if p c then String c (leading p s') else EmptyString
  end.

(** The text before the last [c] of [s], and the text after it. *)
Fixpoint splitLast (c : ascii) (s : string) : option (string * string) :=
  match s with
  | EmptyString => None
  | String d s' =>
      match splitLast c s' with
      | Some (x, y) => Some (String d x, y)
      | None => if Ascii.eqb c d then Some (EmptyString, s') else None
      end
  end.

(** A continuation that needs the character [d] first. *)
Definition needs (d : ascii) (k : Rx.cont) : Prop :=
  (forall b m, k b m EmptyString = None) /\
  (forall b m c rest, Ascii.eqb c d = false -> k b m (String c rest) = None).












(** The [try] block of [/generate-pdf] ends with [r]: [values] is an
    object, the conversion of its values throws nowhere, and the injection
    of the converted entries gives [r]. *)
Definition injects (template : string) (values : Handler.payloadValues)
    (r : Injector.injection) : Prop :=
  exists entries converted,
    values = Handler.ValueMap entries /\
    Handler.texts entries = Some converted /\
    Injector.inject template converted = r.

(** The compilers a run of the script reports on, and those it reports as
    available, in the order of the lines. *)
Fixpoint checkedNames (out : list LatexCheck.line) : list string :=
  match out with
  | [] => []
  | LatexCheck.Available n :: out' => n :: checkedNames out'
  | LatexCheck.NotAvailable n :: out' => n :: checkedNames out'
  | _ :: out' => checkedNames out'
  end.

Fixpoint availableNames (out : list LatexCheck.line) : list string :=
  match out with
  | [] => []
  | LatexCheck.Available n :: out' => n :: availableNames out'
  | _ :: out' => availableNames out'
  end.

End Props.

(** ** Lemmas *)

Import RegExp Injector Spec.

(** *** Strings *)

Lemma append_nil_r (s : string) : s ++ EmptyString = s.
Proof. induction s as [|c s IH]; simpl; [reflexivity | now rewrite IH]. Qed.

Lemma append_assoc (a b c : string) : (a ++ b) ++ c = a ++ (b ++ c).
Proof. induction a as [|x a IH]; simpl; [reflexivity | now rewrite IH]. Qed.

Lemma append_snoc (a : string) (c : ascii) (b : string) :
  (a ++ String c EmptyString) ++ b = a ++ String c b.
Proof. now rewrite append_assoc. Qed.

Lemma startsWith_append (p s : string) : JS.startsWith p (p ++ s) = true.
Proof.
  induction p as [|c p IH]; simpl; [reflexivity|].
  now rewrite Ascii.eqb_refl.
Qed.

Lemma startsWith_split (p s : string) :
  JS.startsWith p s = true -> s = p ++ JS.drop (String.length p) s.
Proof.
  revert s; induction p as [|c p IH]; intros s H; simpl in *.
  - reflexivity.
  - destruct s as [|d s]; [discriminate|].
    apply andb_true_iff in H as [Hc Hp].
    apply Ascii.eqb_eq in Hc; subst d.
    simpl. now rewrite <- IH.
Qed.

Lemma drop_append (p s : string) : JS.drop (String.length p) (p ++ s) = s.
Proof. induction p as [|c p IH]; simpl; [reflexivity | exact IH]. Qed.

Lemma includes_false_startsWith (p s : string) :
  JS.includes p s = false -> JS.startsWith p s = false.
Proof.
  destruct s; simpl; intro H; apply orb_false_iff in H; tauto.
Qed.

Lemma includes_false_tail (p : string) (c : ascii) (s : string) :
  JS.includes p (String c s) = false -> JS.includes p s = false.
Proof. simpl; intro H; apply orb_false_iff in H; tauto. Qed.

Lemma inRange_single (c d : ascii) : JS.inRange c c d = Ascii.eqb c d.
Proof.
  unfold JS.inRange.
  destruct (Ascii.eqb_spec c d) as [->|Hne].
  - now rewrite Nat.leb_refl.
  - apply andb_false_iff.
    destruct (Nat.leb_spec (nat_of_ascii c) (nat_of_ascii d)) as [H1|H1];
      [right | now left].
    apply Nat.leb_gt.
    assert (nat_of_ascii c <> nat_of_ascii d).
    { intro H. apply Hne.
      rewrite <- (ascii_nat_embedding c), <- (ascii_nat_embedding d).
      now rewrite H. }
    lia.
Qed.

(** *** Matching *)

Lemma matchNodes_chars (p : string) (ns : list node) :
  forall input m cur caps,
    matchNodes (chars p ++ ns) input m cur caps =
    if JS.startsWith p input
    then matchNodes ns (JS.drop (String.length p) input) (m ++ p) (pushs cur p) caps
    else None.
Proof.
  induction p as [|c p IH]; intros input m cur caps.
  - simpl. rewrite append_nil_r. destruct cur; simpl; [now rewrite append_nil_r|reflexivity].
  - change (chars (String c p) ++ ns)%list with (Char c :: (chars p ++ ns))%list.
    destruct input as [|d rest]; [reflexivity|].
    simpl matchNodes. simpl JS.startsWith.
    destruct (Ascii.eqb_spec c d) as [->|Hne]; [|reflexivity].
    rewrite IH. simpl JS.drop. unfold andb.
    destruct (JS.startsWith p rest); [|reflexivity].
    rewrite append_snoc.
    destruct cur; simpl; [now rewrite append_snoc|reflexivity].
Qed.

Lemma exec_chars (p input : string) :
  exec (chars p) input =
  if JS.startsWith p input
  then Some (mkResult p [] (JS.drop (String.length p) input))
  else None.
Proof.
  unfold exec. rewrite <- (app_nil_r (chars p)). rewrite matchNodes_chars.
  reflexivity.
Qed.

Lemma test_chars (p s : string) : test (chars p) s = JS.includes p s.
Proof.
  induction s as [|c s IH].
  - simpl. rewrite exec_chars. now destruct (JS.startsWith p EmptyString).
  - simpl test. rewrite exec_chars. simpl JS.includes.
    destruct (JS.startsWith p (String c s)); [reflexivity | exact IH].
Qed.

(** *** Global replacement *)

Lemma test_false_exec (re : list node) (s : string) :
  test re s = false -> exec re s = None.
Proof. destruct s; simpl; destruct (exec re _); congruence. Qed.

Lemma replaceFrom_no_match (re : list node) (tpl : string) :
  forall s before, test re s = false -> replaceFrom re tpl before 0 s = s.
Proof.
  induction s as [|c s IH]; intros before H.
  - simpl. now rewrite (test_false_exec _ _ H).
  - simpl replaceFrom. rewrite (test_false_exec _ _ H).
    simpl in H. destruct (exec re (String c s)); [discriminate|].
    now rewrite IH.
Qed.

Lemma replace_no_match (re : list node) (tpl s : string) :
  test re s = false -> replace re tpl s = s.
Proof. apply replaceFrom_no_match. Qed.

Lemma exec_class (neg : bool) (rs : list (ascii * ascii)) (c : ascii) (rest : string) :
  exec [Class neg rs] (String c rest) =
  if inClass neg rs c then Some (mkResult (String c EmptyString) [] rest) else None.
Proof. reflexivity. Qed.

Lemma replaceFrom_class (neg : bool) (rs : list (ascii * ascii)) (tpl : string)
    (f : ascii -> string) :
  (forall c bf rest, getSubstitution (String c EmptyString) bf rest [] tpl = f c) ->
  forall s bf,
    replaceFrom [Class neg rs] tpl bf 0 s =
    flatMap (fun c => if inClass neg rs c then f c else String c EmptyString) s.
Proof.
  intros Hf. induction s as [|c s IH]; intro bf.
  - reflexivity.
  - cbn [replaceFrom flatMap]. rewrite exec_class.
    destruct (inClass neg rs c).
    + cbn [matched captures after String.length]. now rewrite Hf, IH.
    + now rewrite IH.
Qed.

Lemma special_syntax (c : ascii) :
  inClass false
    [("."%char, "."%char); ("*"%char, "*"%char); ("+"%char, "+"%char);
     ("?"%char, "?"%char); ("^"%char, "^"%char); ("$"%char, "$"%char);
     ("{"%char, "{"%char); ("}"%char, "}"%char); ("("%char, "("%char);
     (")"%char, ")"%char); ("|"%char, "|"%char); ("["%char, "["%char);
     ("]"%char, "]"%char); ("\"%char, "\"%char)] c = isSyntaxChar c.
Proof.
  destruct c as [[] [] [] [] [] [] [] []]; vm_compute; reflexivity.
Qed.

Lemma flatMap_ext (f g : ascii -> string) (s : string) :
  (forall c, f c = g c) -> flatMap f s = flatMap g s.
Proof. intro H. induction s as [|c s IH]; simpl; [reflexivity | now rewrite H, IH]. Qed.

Lemma escKey_flatMap (key : string) :
  replace reSpecial "\$&" key = flatMap escChar key.
Proof.
  unfold replace, reSpecial.
  rewrite (replaceFrom_class _ _ _ (fun c => String "\" (String c EmptyString)))
    by reflexivity.
  apply flatMap_ext. intro c. unfold escChar. now rewrite special_syntax.
Qed.

Lemma syntax_false_step (c : ascii) (acc : list node) :
  isSyntaxChar c = false ->
  stepNormal acc c = Some (SNormal, (acc ++ [Char c])%list).
Proof.
  intro H. unfold stepNormal.
  destruct (Ascii.eqb_spec c "\") as [->|_]; [discriminate H|].
  destruct (Ascii.eqb_spec c "(") as [->|_]; [discriminate H|].
  destruct (Ascii.eqb_spec c ")") as [->|_]; [discriminate H|].
  destruct (Ascii.eqb_spec c "[") as [->|_]; [discriminate H|].
  now rewrite H.
Qed.

Lemma chars_cons (c : ascii) (k : string) : chars (String c k) = Char c :: chars k.
Proof. reflexivity. Qed.

Lemma chars_append (a b : string) : chars (a ++ b) = (chars a ++ chars b)%list.
Proof. induction a as [|c a IH]; [reflexivity|]. simpl append. rewrite !chars_cons, IH. reflexivity. Qed.

Lemma parse_escaped_key (k rest : string) :
  forall acc,
    parse SNormal acc (flatMap escChar k ++ rest) =
    parse SNormal (acc ++ chars k)%list rest.
Proof.
  induction k as [|c k IH]; intro acc.
  - simpl. unfold chars. simpl. now rewrite app_nil_r.
  - cbn [flatMap]. unfold escChar at 1. rewrite chars_cons.
    destruct (isSyntaxChar c) eqn:Hc.
    + cbn [append parse step stepNormal]. 
      replace (stepNormal acc "\") with (Some (SEscape, acc)) by reflexivity.
      cbn [parse step]. unfold escaped. rewrite Hc. rewrite IH.
      now rewrite <- app_assoc.
    + cbn [append parse step]. rewrite (syntax_false_step _ _ Hc). rewrite IH.
      now rewrite <- app_assoc.
Qed.

Lemma balanced_chars (p : string) (ns : list node) (b : bool) :
  balanced b (chars p ++ ns) = balanced b ns.
Proof.
  unfold chars. induction (list_ascii_of_string p) as [|c l IH]; simpl; auto.
Qed.

Arguments chars : simpl never.

Ltac compile_pattern src :=
  rewrite escKey_flatMap; unfold compile, src;
  match goal with
  | |- context [(?pre ++ flatMap escChar ?key ++ ?post)] =>
      let tl := fresh "tl" in
      change (pre ++ flatMap escChar key ++ post)
        with (pre ++ (flatMap escChar key ++ post));
      set (tl := flatMap escChar key ++ post);
      cbn; subst tl
  end;
  rewrite parse_escaped_key; cbn;
  rewrite <- ?app_assoc; cbn [app];
  rewrite ?balanced_chars; cbn;
  rewrite ?chars_cons, ?chars_append; unfold starTail, chars; cbn;
  rewrite <- ?app_assoc; reflexivity.

Lemma compile_newCmd (key : string) :
  compile (newCmdSource (replace reSpecial "\$&" key)) = Some (newCmdNodes key).
Proof. unfold newCmdNodes. compile_pattern newCmdSource. Qed.

Lemma compile_def (key : string) :
  compile (defSource (replace reSpecial "\$&" key)) = Some (defNodes key).
Proof. unfold defNodes. compile_pattern defSource. Qed.

Lemma compile_placeholder (key : string) :
  compile (placeholderSource (replace reSpecial "\$&" key)) = Some (placeholderNodes key).
Proof. unfold placeholderNodes. compile_pattern placeholderSource. Qed.

Lemma compile_var (key : string) :
  compile (varSource (replace reSpecial "\$&" key)) = Some (varNodes key).
Proof. unfold varNodes. compile_pattern varSource. Qed.

Lemma compile_bracket (key : string) :
  compile (bracketSource (replace reSpecial "\$&" key)) = Some (bracketNodes key).
Proof. unfold bracketNodes. compile_pattern bracketSource. Qed.

(** One round of the loop, with the five patterns compiled. *)
Lemma substituteField_eq (key val processed : string) :
  substituteField key val processed =
  let safeVal := escapeLatex val in
  Some (replace (bracketNodes key) safeVal
         (replace (varNodes key) safeVal
           (replace (placeholderNodes key) safeVal
             (replace (defNodes key) ("$1" ++ safeVal ++ "$2")
               (replace (newCmdNodes key) ("$1" ++ safeVal ++ "$2") processed))))).
Proof.
  unfold substituteField.
  rewrite compile_newCmd, compile_def, compile_placeholder, compile_var, compile_bracket.
  reflexivity.
Qed.

Lemma substitute_total (values : list (string * string)) :
  forall processed, exists doc, substitute processed values = Some doc.
Proof.
  induction values as [|[key val] values IH]; intro processed.
  - now exists processed.
  - simpl. rewrite substituteField_eq. simpl. apply IH.
Qed.

(** *** The replacement template *)

Lemma includes_char_cons (d c : ascii) (s : string) :
  JS.includes (String d EmptyString) (String c s) = false ->
  Ascii.eqb c d = false /\ JS.includes (String d EmptyString) s = false.
Proof.
  simpl. intro H. apply orb_false_iff in H as [H1 H2].
  rewrite andb_true_r in H1. rewrite Ascii.eqb_sym. split; [assumption|].
  destruct s; exact H2.
Qed.

Lemma getSubstitution_plain (m bf rest : string) (caps : list string) (s t : string) :
  JS.includes "$" s = false ->
  getSubstitution m bf rest caps (s ++ t) = s ++ getSubstitution m bf rest caps t.
Proof.
  induction s as [|c s IH]; intro H; [reflexivity|].
  apply includes_char_cons in H as [Hc Hs].
  cbn [append getSubstitution]. rewrite Hc. now rewrite IH.
Qed.

Lemma getSubstitution_plain_all (m bf rest : string) (caps : list string) (s : string) :
  JS.includes "$" s = false -> getSubstitution m bf rest caps s = s.
Proof.
  intro H. rewrite <- (append_nil_r s) at 1.
  rewrite getSubstitution_plain by assumption. simpl. apply append_nil_r.
Qed.

Lemma groupRef_first (a b : string) (e : ascii) :
  groupRef [a; b] "1" (Some e) = (a, false).
Proof.
  unfold groupRef.
  replace (List.length [a; b] <? 10 * digitVal "1" + digitVal e) with true.
  - reflexivity.
  - symmetry. apply Nat.ltb_lt. simpl. lia.
Qed.

Lemma getSubstitution_groups (m bf rest a b s : string) :
  JS.includes "$" s = false ->
  getSubstitution m bf rest [a; b] ("$1" ++ s ++ "$2") = a ++ s ++ b.
Proof.
  intro H.
  assert (Hhead : forall t,
             getSubstitution m bf rest [a; b] (String "$" (String "1" t)) =
             a ++ getSubstitution m bf rest [a; b] t).
  { intro t. cbn [getSubstitution]. 
    replace (Ascii.eqb "$" "$") with true by reflexivity.
    replace (Ascii.eqb "1" "$") with false by reflexivity.
    replace (Ascii.eqb "1" "&") with false by reflexivity.
    replace (Ascii.eqb "1" "`") with false by reflexivity.
    replace (Ascii.eqb "1" "'") with false by reflexivity.
    replace (isDigit "1") with true by reflexivity.
    destruct t as [|e t''].
    - simpl. now rewrite append_nil_r.
    - destruct (isDigit e).
      + rewrite groupRef_first. reflexivity.
      + reflexivity. }
  change ("$1" ++ s ++ "$2") with (String "$" (String "1" (s ++ "$2"))).
  rewrite Hhead, getSubstitution_plain by assumption.
  simpl. rewrite ?append_nil_r. reflexivity.
Qed.




(** *** The definition patterns *)

Lemma lazyStar_brace (caps : list string) :
  forall input m,
    lazyStar (fun i m' c => matchNodes [Open; Char "}"; Close] i m' c caps)
      true [("}"%char, "}"%char)] input m None =
    match untilBrace input with
    | Some (b, r) => Some (mkResult (m ++ b ++ "}") (caps ++ ["}"])%list r)
    | None => None
    end.
Proof.
  induction input as [|d rest IH]; intro m.
  - reflexivity.
  - cbn [lazyStar matchNodes untilBrace push].
    destruct (Ascii.eqb_spec "}" d) as [<-|Hd].
    + reflexivity.
    + apply Ascii.eqb_neq in Hd. unfold inClass. cbn [existsb fst snd]. rewrite inRange_single, Hd.
      cbn [orb xorb]. rewrite IH.
      destruct (untilBrace rest) as [[b r]|]; [|reflexivity].
      now rewrite append_snoc.
Qed.

Lemma exec_definition (pre input : string) :
  exec (Open :: chars pre ++ starTail) input =
  if JS.startsWith pre input then
    match untilBrace (JS.drop (String.length pre) input) with
    | Some (b, r) => Some (mkResult (pre ++ b ++ "}") [pre; "}"] r)
    | None => None
    end
  else None.
Proof.
  unfold exec.
  change (matchNodes (Open :: chars pre ++ starTail) input EmptyString None [])
    with (matchNodes (chars pre ++ starTail) input EmptyString (Some EmptyString) []).
  rewrite matchNodes_chars.
  destruct (JS.startsWith pre input); [|reflexivity].
  exact (lazyStar_brace [pre] (JS.drop (String.length pre) input) pre).
Qed.

Lemma untilBrace_body (s r : string) :
  JS.includes "}" s = false -> untilBrace (s ++ String "}" r) = Some (s, r).
Proof.
  induction s as [|c s IH]; intro H.
  - reflexivity.
  - apply includes_char_cons in H as [Hc Hs].
    cbn [append untilBrace]. rewrite Ascii.eqb_sym, Hc. now rewrite IH.
Qed.

(** *** Replacements that change nothing *)










Lemma includes_append_l (p q s : string) :
  JS.includes p s = true -> JS.includes p (q ++ s) = true.
Proof.
  intro H. induction q as [|c q IH]; [exact H|].
  cbn [append JS.includes]. rewrite IH. apply orb_true_r.
Qed.

Lemma includes_self (p s : string) : JS.includes p (p ++ s) = true.
Proof.
  destruct p; simpl.
  - now destruct s.
  - now rewrite Ascii.eqb_refl, startsWith_append.
Qed.

Lemma includes_suffix (q p s : string) :
  JS.includes (q ++ p) s = true -> JS.includes p s = true.
Proof.
  induction s as [|c s IH]; intro H.
  - simpl in H. rewrite orb_false_r in H. apply startsWith_split in H.
    destruct q; [now destruct p | discriminate].
  - cbn [JS.includes] in H. apply orb_true_iff in H as [H|H].
    + apply startsWith_split in H. rewrite H, append_assoc.
      apply includes_append_l, includes_self.
    + cbn [JS.includes]. rewrite (IH H). apply orb_true_r.
Qed.

Lemma includes_suffix_false (q p s : string) :
  JS.includes p s = false -> JS.includes (q ++ p) s = false.
Proof.
  intro H. destruct (JS.includes (q ++ p) s) eqn:E; [|reflexivity].
  apply includes_suffix in E. congruence.
Qed.

Lemma substituteField_unknown (key val doc : string) :
  placeholderOccurs key doc = false -> substituteField key val doc = Some doc.
Proof.
  unfold placeholderOccurs, matchesIn.
  rewrite compile_newCmd, compile_def, compile_placeholder, compile_var, compile_bracket.
  intro H. repeat (apply orb_false_iff in H as [H ?]).
  rewrite substituteField_eq. cbn zeta.
  rewrite (replace_no_match (newCmdNodes key) _ doc) by assumption.
  rewrite (replace_no_match (defNodes key) _ doc) by assumption.
  rewrite (replace_no_match (placeholderNodes key) _ doc) by assumption.
  rewrite (replace_no_match (varNodes key) _ doc) by assumption.
  rewrite (replace_no_match (bracketNodes key) _ doc) by assumption.
  reflexivity.
Qed.

Lemma substitute_app (before after : list (string * string)) :
  forall template,
    substitute template (before ++ after) =
    bind (substitute template before) (fun doc => substitute doc after).
Proof.
  induction before as [|[k v] before IH]; intro template; [reflexivity|].
  cbn [app substitute]. destruct (substituteField k v template); [apply IH | reflexivity].
Qed.

Lemma substitute_unknown (unknown : list (string * string)) (doc : string) :
  (forall k v, In (k, v) unknown -> placeholderOccurs k doc = false) ->
  substitute doc unknown = Some doc.
Proof.
  induction unknown as [|[k v] unknown IH]; intro H; [reflexivity|].
  cbn [substitute]. rewrite (substituteField_unknown k v doc).
  - apply IH. intros k' v' Hin. apply (H k' v'). now right.
  - apply (H k v). now left.
Qed.


(** *** [escapeLatex], character by character *)

Lemma flatMap_append (f : ascii -> string) (a b : string) :
  flatMap f (a ++ b) = flatMap f a ++ flatMap f b.
Proof.
  induction a as [|c a IH]; [reflexivity|].
  cbn [append flatMap]. now rewrite IH, append_assoc.
Qed.

Lemma flatMap_flatMap (f g : ascii -> string) (s : string) :
  flatMap f (flatMap g s) = flatMap (fun c => flatMap f (g c)) s.
Proof.
  induction s as [|c s IH]; [reflexivity|].
  cbn [flatMap]. now rewrite flatMap_append, IH.
Qed.

Lemma exec_char (a c : ascii) (rest : string) :
  exec [Char a] (String c rest) =
  if Ascii.eqb a c then Some (mkResult (String c EmptyString) [] rest) else None.
Proof. reflexivity. Qed.

Lemma replaceFrom_char (a : ascii) (tpl : string) (f : ascii -> string) :
  (forall c bf rest, getSubstitution (String c EmptyString) bf rest [] tpl = f c) ->
  forall s bf,
    replaceFrom [Char a] tpl bf 0 s =
    flatMap (fun c => if Ascii.eqb a c then f c else String c EmptyString) s.
Proof.
  intros Hf. induction s as [|c s IH]; intro bf.
  - reflexivity.
  - cbn [replaceFrom flatMap]. rewrite exec_char.
    destruct (Ascii.eqb a c).
    + cbn [matched captures after String.length]. now rewrite Hf, IH.
    + now rewrite IH.
Qed.

Lemma escape_steps (text : string) :
  replace reReserved "\$&"
    (replace reBraces "\$&" (replace reBackslash "\textbackslash{}" text))
  = flatMap escapedChar text.
Proof.
  unfold replace, reReserved, reBraces, reBackslash.
  rewrite (replaceFrom_char _ _ (fun _ => "\textbackslash{}")) by reflexivity.
  rewrite (replaceFrom_class _ _ _ (fun c => String "\" (String c EmptyString)))
    by reflexivity.
  rewrite (replaceFrom_class _ _ _ (fun c => String "\" (String c EmptyString)))
    by reflexivity.
  rewrite !flatMap_flatMap. apply flatMap_ext. intro c.
  destruct c as [[] [] [] [] [] [] [] []]; reflexivity.
Qed.

Lemma escapedChar_cases (c : ascii) :
  escapedChar c = String c EmptyString /\ Ascii.eqb "{" c = false \/
  exists t, escapedChar c = String "\" t.
Proof.
  unfold escapedChar.
  destruct (Ascii.eqb c "\"); [right; eexists; reflexivity|].
  destruct (Ascii.eqb c "{") eqn:Hb; [right; eexists; reflexivity|].
  destruct (Ascii.eqb c "}"); [right; eexists; reflexivity|].
  cbn [orb].
  destruct (existsb _ _); [right; eexists; reflexivity|].
  left. split; [reflexivity|]. now rewrite Ascii.eqb_sym.
Qed.

Lemma startsWith_escaped_brace (p : string) :
  JS.includes "\" p = false ->
  forall s, JS.startsWith (p ++ "{}") (flatMap escapedChar s) = false.
Proof.
  induction p as [|a p IH]; intros Hp s.
  - destruct s as [|c s]; [reflexivity|]. cbn [append flatMap].
    destruct (escapedChar_cases c) as [[-> Hc]|[t ->]].
    + cbn [append JS.startsWith]. now rewrite Hc.
    + reflexivity.
  - apply includes_char_cons in Hp as [Ha Hp].
    destruct s as [|c s]; [reflexivity|]. cbn [append flatMap].
    destruct (escapedChar_cases c) as [[-> Hc]|[t ->]].
    + cbn [append JS.startsWith]. rewrite (IH Hp). apply andb_false_r.
    + cbn [append JS.startsWith]. now rewrite Ha.
Qed.

Lemma tabPattern_absent (s : string) :
  JS.includes tabPattern (flatMap escapedChar s) = false.
Proof.
  unfold tabPattern. change (ascii_of_nat 9) with "009"%char.
  induction s as [|c s IH]; [reflexivity|].
  cbn [flatMap].
  destruct (Ascii.eqb_spec "009" c) as [<-|Hc].
  - change (escapedChar "009") with (String "009" EmptyString).
    cbn [append JS.includes JS.startsWith].
    rewrite Ascii.eqb_refl, IH, orb_false_r. cbn [andb].
    exact (startsWith_escaped_brace "extbackslash" eq_refl s).
  - apply Ascii.eqb_neq in Hc. unfold escapedChar at 1.
    destruct (Ascii.eqb c "\");
      [|destruct (Ascii.eqb c "{" || Ascii.eqb c "}");
        [|destruct (existsb _ _)]];
      cbn [append JS.includes JS.startsWith];
      rewrite ?Hc, IH; reflexivity.
Qed.

Lemma escapeLatex_flatMap (text : string) :
  escapeLatex text = flatMap escapedChar text.
Proof.
  unfold escapeLatex. rewrite escape_steps.
  apply replace_no_match.
  change reTextbackslash with (chars tabPattern).
  rewrite test_chars. apply tabPattern_absent.
Qed.

Section ExtractorFacts.

Import Extractor.

Lemma nonCanonical_class (c : ascii) :
  inClass true [("a"%char, "z"%char); ("0"%char, "9"%char); ("_"%char, "_"%char)] c
  = negb (canonical c).
Proof.
  unfold inClass, canonical. cbn [existsb fst snd xorb].
  rewrite inRange_single, orb_false_r, (Ascii.eqb_sym "_" c).
  now rewrite orb_assoc.
Qed.

Lemma strip_keepCanonical (s : string) :
  replace reNonCanonical EmptyString s = keepCanonical s.
Proof.
  unfold replace, reNonCanonical.
  rewrite (replaceFrom_class _ _ _ (fun _ => EmptyString)) by reflexivity.
  induction s as [|c s IH]; [reflexivity|].
  cbn [flatMap keepCanonical]. rewrite nonCanonical_class, IH.
  now destruct (canonical c).
Qed.

Lemma keepCanonical_all (s : string) : allCanonical (keepCanonical s) = true.
Proof.
  induction s as [|c s IH]; [reflexivity|].
  cbn [keepCanonical]. destruct (canonical c) eqn:Hc; [|exact IH].
  cbn [allCanonical]. now rewrite Hc.
Qed.

Lemma length_pos (s : string) : (0 <? String.length s) = true <-> s <> EmptyString.
Proof.
  destruct s; cbn; split; intro H; try reflexivity; try discriminate.
  now elim H.
Qed.

Section Json.

Context {num : Type} (numIsZero : num -> bool) (numToString : num -> string).

Lemma isType_string (v : option (value num)) :
  isType TString v = true -> exists s, v = Some (JStr s).
Proof.
  destruct v as [[]|]; try discriminate. intros _. now eexists.
Qed.

Lemma isValid_Keeps (item : value num) :
  isValid numIsZero item = true <-> Keeps item.
Proof.
  unfold isValid, Keeps. split.
  - intro H. rewrite !andb_true_iff in H.
    destruct H as [[[[[Ht Hobj] Hid] Hlabel] Hli] Hll].
    destruct item as [| | | | |props]; try discriminate.
    cbn [get] in *.
    destruct (isType_string _ Hid) as [i Hi], (isType_string _ Hlabel) as [l Hl].
    rewrite Hi, Hl in *. cbn [str] in *.
    exists props, i, l. repeat split; try assumption; now apply length_pos.
  - intros (props & i & l & -> & Hi & Hl & Hni & Hnl).
    cbn [get truthy isType typeof andb]. rewrite Hi, Hl. cbn [typeof str andb].
    apply length_pos in Hni, Hnl. now rewrite Hni, Hnl.
Qed.

Lemma validate_filter (items : list (value num)) :
  validate numIsZero numToString (JArr items) =
  match filter (isValid numIsZero) items with
  | [] => NoFieldsFound
  | kept => Schema (map (clean numIsZero numToString) kept)
              (List.length items) (List.length kept)
  end.
Proof.
  unfold validate. destruct (filter (isValid numIsZero) items) as [|x kept].
  - reflexivity.
  - cbn [map List.length Nat.eqb]. now rewrite length_map.
Qed.

End Json.

End ExtractorFacts.

Section ChainFacts.

Import Env Compiler.
Local Open Scope list_scope.

Context {world : Type} (E : env world).
Variables pdfPath logPath outputDir : string.

Lemma tryNextCompiler_acc (rest : list compiler) :
  forall attempts w,
    tryNextCompiler E pdfPath logPath outputDir rest attempts w =
    let '(res, atts, w') := tryNextCompiler E pdfPath logPath outputDir rest [] w in
    (res, attempts ++ atts, w').
Proof.
  induction rest as [|c rest IH]; intros attempts w.
  - cbn. now rewrite app_nil_r.
  - cbn [tryNextCompiler].
    destruct (exec E (command c) outputDir w) as [r w1].
    destruct (succeeded E pdfPath r w1).
    + reflexivity.
    + rewrite (IH (attempts ++ _)), (IH ([] ++ _)).
      destruct (tryNextCompiler E pdfPath logPath outputDir rest []
                  (removeArtifact E pdfPath w1)) as [[res atts] w'].
      now rewrite <- app_assoc.
Qed.

Lemma succeeded_iff (r : execResult) (w : world) :
  succeeded E pdfPath r w = true <-> err r = None /\ existsSync E pdfPath w = true.
Proof.
  unfold succeeded. destruct (err r); split; intros; try tauto; try discriminate.
  - destruct H; discriminate.
Qed.

Lemma succeeded_false (r : execResult) (w : world) :
  succeeded E pdfPath r w = false -> err r <> None \/ existsSync E pdfPath w = false.
Proof.
  unfold succeeded. destruct (err r); intro H; [left; discriminate | now right].
Qed.

Hypothesis unlink_removes : forall w,
  existsSync E pdfPath w = true ->
  existsSync E pdfPath (snd (unlinkSync E pdfPath w)) = false.

Lemma removeArtifact_gone (w : world) :
  existsSync E pdfPath (removeArtifact E pdfPath w) = false.
Proof.
  unfold removeArtifact. destruct (existsSync E pdfPath w) eqn:Hx; [|exact Hx].
  now apply unlink_removes.
Qed.

Lemma tryNextCompiler_spec (rest : list compiler) :
  forall w, ChainSpec E pdfPath outputDir rest w
              (tryNextCompiler E pdfPath logPath outputDir rest [] w).
Proof.
  induction rest as [|c rest IH]; intro w.
  - constructor.
  - cbn [tryNextCompiler].
    destruct (exec E (command c) outputDir w) as [r w1] eqn:Hexec.
    destruct (succeeded E pdfPath r w1) eqn:Hs.
    + apply succeeded_iff in Hs as Hs'. destruct Hs' as [He Hx].
      eapply chain_success; eauto.
    + rewrite tryNextCompiler_acc.
      specialize (IH (removeArtifact E pdfPath w1)).
      destruct (tryNextCompiler E pdfPath logPath outputDir rest []
                  (removeArtifact E pdfPath w1)) as [[res atts] w'].
      cbn [app].
      eapply chain_failure; eauto using succeeded_false, removeArtifact_gone.
Qed.

End ChainFacts.

Section ChainOrder.

Import Env Compiler.
Local Open Scope list_scope.

Context {world : Type} (E : env world).
Variables pdfPath outputDir : string.

Lemma ChainSpec_order (cs : list compiler) (w : world)
    (out : option string * list compilationAttempt * world) :
  ChainSpec E pdfPath outputDir cs w out ->
  let '(res, attempts, _) := out in
  map a_compiler attempts = firstn (List.length attempts) (map name cs) /\
  (res <> None ->
     List.length attempts = List.length cs /\
     Forall (fun a => success a = false) attempts) /\
  (res = None ->
     exists init a, attempts = init ++ [a] /\ success a = true /\
                    Forall (fun a => success a = false) init).
Proof.
  induction 1 as [w | c cs w w1 r a He Herr Hx Hn Hs
                 | c cs w w1 w2 w' r a res atts He Hf Hn Hs Hw2 Hx Hrest IH].
  - cbn. split; [reflexivity|]. split.
    + intros _. split; [reflexivity | constructor].
    + discriminate.
  - cbn. rewrite Hn. split; [reflexivity|]. split.
    + intro H. now elim H.
    + intros _. exists [], a. repeat split; auto.
  - destruct IH as (Hord & Hfail & Hok). cbn [map List.length firstn].
    rewrite Hn, Hord. split; [reflexivity|]. split.
    + intro Hres. destruct (Hfail Hres) as [Hlen Hall]. split.
      * cbn. now rewrite Hlen.
      * now constructor.
    + intro Hres. destruct (Hok Hres) as (init & a' & -> & Ha' & Hinit).
      exists (a :: init), a'. repeat split; auto.
Qed.

End ChainOrder.

Section CleanupFacts.

Import Env Compiler Workspace Handler.
Local Open Scope list_scope.

Context {world : Type} (E : env world).

Lemma removals_shape (init : list event) (final : event) :
  forallb isRetry init = true -> isFinal final = true ->
  removals (init ++ [final]) = S (List.length init).
Proof.
  intros Hi Hf. unfold removals. rewrite filter_app, length_app.
  assert (Hinit : filter isRemoval init = init).
  { induction init as [|ev init IH]; [reflexivity|].
    cbn [forallb] in Hi. apply andb_true_iff in Hi as [Hev Hi].
    destruct ev; try discriminate. cbn. now rewrite IH. }
  rewrite Hinit. destruct final; try discriminate; cbn; lia.
Qed.

Lemma attempt_S (dirPath : string) (fuel retries : nat) (w : world) :
  attempt E (S fuel) dirPath retries w =
  match rmSync E dirPath w with
  | (None, w') => (Normal, [Cleaned], w')
  | (Some err, w') =>
      if (S retries <? maxRetries) && String.eqb (code err) "ENOTEMPTY"
      then let '(c, evs, w'') := attempt E fuel dirPath (S retries) w' in
           (c, RetryCleanup (S retries) :: evs, w'')
      else (Normal, [CouldNotRemove (message err)], w')
  end.
Proof.
  cbn [attempt]. unfold tryRemove.
  destruct (rmSync E dirPath w) as [[e|] w']; reflexivity.
Qed.

Lemma attempt_shape (dirPath : string) :
  forall fuel retries w,
    maxRetries <= fuel + S retries ->
    exists init final w',
      attempt E fuel dirPath retries w = (Normal, init ++ [final], w') /\
      forallb isRetry init = true /\ isFinal final = true /\
      S (List.length init) + retries <= Nat.max maxRetries (S retries).
Proof.
  induction fuel as [|fuel IH]; intros retries w Hfuel.
  - cbn [attempt]. unfold tryRemove.
    destruct (rmSync E dirPath w) as [[e|] w'].
    + destruct ((S retries <? maxRetries) && String.eqb (code e) "ENOTEMPTY") eqn:Hc.
      * apply andb_true_iff in Hc as [Hlt _]. apply Nat.ltb_lt in Hlt. lia.
      * exists [], (CouldNotRemove (message e)), w'.
        split; [reflexivity|]. split; [reflexivity|]. split; [reflexivity|].
        cbn [List.length]. lia.
    + exists [], Cleaned, w'.
      split; [reflexivity|]. split; [reflexivity|]. split; [reflexivity|].
      cbn [List.length]. lia.
  - rewrite attempt_S. destruct (rmSync E dirPath w) as [[e|] w'].
    + destruct ((S retries <? maxRetries) && String.eqb (code e) "ENOTEMPTY") eqn:Hc.
      * apply andb_true_iff in Hc as [Hlt _]. apply Nat.ltb_lt in Hlt.
        destruct (IH (S retries) w' ltac:(lia))
          as (init & final & w'' & -> & Hi & Hf & Hlen).
        exists (RetryCleanup (S retries) :: init), final, w''.
        split; [reflexivity|]. split; [exact Hi|]. split; [exact Hf|].
        cbn [List.length]. lia.
      * exists [], (CouldNotRemove (message e)), w'.
        split; [reflexivity|]. split; [reflexivity|]. split; [reflexivity|].
        cbn [List.length]. lia.
    + exists [], Cleaned, w'.
      split; [reflexivity|]. split; [reflexivity|]. split; [reflexivity|].
      cbn [List.length]. lia.
Qed.

Lemma attempt_first_failure (dirPath : string) (w w' : world) (e : jsError) :
  rmSync E dirPath w = (Some e, w') ->
  let evs := snd (fst (attempt E maxRetries dirPath 0 w)) in
  (code e = "ENOTEMPTY" -> 2 <= removals evs) /\
  (code e <> "ENOTEMPTY" -> evs = [CouldNotRemove (message e)]).
Proof.
  intro Hrm.
  change (attempt E maxRetries dirPath 0 w) with (attempt E (S 2) dirPath 0 w).
  rewrite attempt_S, Hrm.
  change (1 <? maxRetries) with true. cbn [andb]. split.
  - intro Hc. rewrite Hc, String.eqb_refl.
    destruct (attempt_shape dirPath 2 1 w' ltac:(unfold maxRetries; lia))
      as (init & final & w'' & -> & Hi & Hf & _).
    cbn [fst snd].
    change (RetryCleanup 1 :: init ++ [final])
      with ((RetryCleanup 1 :: init) ++ [final]).
    rewrite removals_shape by (cbn; auto). cbn [List.length]. lia.
  - intro Hc. apply String.eqb_neq in Hc. now rewrite Hc.
Qed.

Lemma not_retry_OutOfFuel (init : list event) :
  forallb isRetry init = true -> ~ In OutOfFuel init.
Proof.
  intros H Hin. rewrite forallb_forall in H. now apply H in Hin.
Qed.

Lemma safeRemoveDir_policy (dirPath : string) (w : world) :
  let '(c, evs, _) := safeRemoveDir E dirPath w in
  c = Normal /\
  (existsSync E dirPath w = true -> 1 <= removals evs) /\
  removals evs <= maxRetries /\
  ~ In OutOfFuel evs /\
  (forall e w', existsSync E dirPath w = true ->
     rmSync E dirPath w = (Some e, w') ->
     (code e = "ENOTEMPTY" -> 2 <= removals evs) /\
     (code e <> "ENOTEMPTY" -> evs = [CouldNotRemove (message e)])).
Proof.
  unfold safeRemoveDir. destruct (existsSync E dirPath w) eqn:Hx.
  - pose proof (attempt_first_failure dirPath w) as Hfirst.
    destruct (attempt_shape dirPath maxRetries 0 w ltac:(unfold maxRetries; lia))
      as (init & final & w' & Hrun & Hi & Hf & Hlen).
    rewrite Hrun in *. cbn [fst snd] in Hfirst.
    split; [reflexivity|]. rewrite (removals_shape _ _ Hi Hf).
    split; [intros _; lia|].
    split; [unfold maxRetries in *; lia|]. split.
    + intro Hin. apply in_app_or in Hin as [Hin|[Heq|[]]].
      * now apply (not_retry_OutOfFuel init).
      * subst final. discriminate.
    + intros e w0 _ Hrm. specialize (Hfirst w0 e Hrm). cbn zeta in Hfirst.
      rewrite (removals_shape _ _ Hi Hf) in Hfirst. exact Hfirst.
  - split; [reflexivity|]. split; [discriminate|].
    split; [cbn; unfold maxRetries; lia|]. split; [intros []|].
    intros e w' Hx'. discriminate.
Qed.

Lemma attempt_refines (dirPath : string) :
  forall fuel retries w,
    maxRetries <= fuel + S retries ->
    exists evs w',
      attempt E fuel dirPath retries w = (Normal, evs, w') /\
      Spec.CleanupSpec E dirPath retries w (evs, w').
Proof.
  assert (Hstop : forall retries (e : jsError),
            (S retries <? maxRetries) && String.eqb (code e) "ENOTEMPTY" = false ->
            maxRetries <= S retries \/ code e <> "ENOTEMPTY"%string).
  { intros retries e Hc. apply andb_false_iff in Hc as [Hc|Hc].
    - left. now apply Nat.ltb_ge in Hc.
    - right. now apply String.eqb_neq. }
  induction fuel as [|fuel IH]; intros retries w Hfuel.
  - cbn [attempt]. unfold tryRemove.
    destruct (rmSync E dirPath w) as [[e|] w'] eqn:Hrm.
    + destruct ((S retries <? maxRetries) && String.eqb (code e) "ENOTEMPTY") eqn:Hc.
      * apply andb_true_iff in Hc as [Hlt _]. apply Nat.ltb_lt in Hlt. lia.
      * exists [CouldNotRemove (message e)], w'. split; [reflexivity|].
        apply Spec.cleanup_give_up; [exact Hrm | now apply Hstop].
    + exists [Cleaned], w'. split; [reflexivity|]. now apply Spec.cleanup_done.
  - rewrite attempt_S. destruct (rmSync E dirPath w) as [[e|] w'] eqn:Hrm.
    + destruct ((S retries <? maxRetries) && String.eqb (code e) "ENOTEMPTY") eqn:Hc.
      * apply andb_true_iff in Hc as [Hlt Hcode]. apply Nat.ltb_lt in Hlt.
        apply String.eqb_eq in Hcode.
        destruct (IH (S retries) w' ltac:(lia)) as (evs & w'' & -> & Hs).
        exists (RetryCleanup (S retries) :: evs), w''. split; [reflexivity|].
        now apply (Spec.cleanup_retry E dirPath retries w w' w'' e evs).
      * exists [CouldNotRemove (message e)], w'. split; [reflexivity|].
        apply Spec.cleanup_give_up; [exact Hrm | now apply Hstop].
    + exists [Cleaned], w'. split; [reflexivity|]. now apply Spec.cleanup_done.
Qed.

Lemma safeRemoveDir_refines (dirPath : string) (w : world) :
  let '(_, evs, w') := safeRemoveDir E dirPath w in
  if existsSync E dirPath w
  then Spec.CleanupSpec E dirPath 0 w (evs, w')
  else evs = [] /\ w' = w.
Proof.
  unfold safeRemoveDir. destruct (existsSync E dirPath w).
  - destruct (attempt_refines dirPath maxRetries 0 w ltac:(unfold maxRetries; lia))
      as (evs & w' & -> & Hs).
    exact Hs.
  - now split.
Qed.

Lemma CleanupSpec_functional (dirPath : string) (retries : nat) (w : world)
    (r1 r2 : list event * world) :
  Spec.CleanupSpec E dirPath retries w r1 ->
  Spec.CleanupSpec E dirPath retries w r2 -> r1 = r2.
Proof.
  intro H1. revert r2.
  induction H1 as [retries w w' Hrm | retries w w' w'' e evs Hrm Hlt Hc Hrest IH
                  | retries w w' e Hrm Hstop];
    intros r2 H2; inversion H2; subst;
    match goal with
    | Ha : rmSync E dirPath w = _, Hb : rmSync E dirPath w = _ |- _ =>
        rewrite Ha in Hb; inversion Hb; subst
    end; try reflexivity.
  - match goal with
    | Hr : Spec.CleanupSpec E dirPath (S retries) _ _ |- _ =>
        apply IH in Hr; now inversion Hr
    end.
  - match goal with Hs : _ \/ _ |- _ => destruct Hs as [Hs|Hs] end;
      [unfold maxRetries in *; lia | contradiction].
  - destruct Hstop as [Hs|Hs]; [unfold maxRetries in *; lia | contradiction].
Qed.

Lemma safeRemoveDir_completes (dirPath : string) (w : world) :
  exists evs w', safeRemoveDir E dirPath w = (Normal, evs, w').
Proof.
  pose proof (safeRemoveDir_policy dirPath w) as H.
  destruct (safeRemoveDir E dirPath w) as [[c evs] w'].
  destruct H as [-> _]. now exists evs, w'.
Qed.

End CleanupFacts.

Section HandlerFacts.

Import Env Compiler Workspace Handler.
Context {world : Type} (E : env world).

Lemma tryNextCompiler_withRmSync rm pdfPath logPath outputDir (rest : list compiler) :
  forall attempts w,
    tryNextCompiler (withRmSync E rm) pdfPath logPath outputDir rest attempts w =
    tryNextCompiler E pdfPath logPath outputDir rest attempts w.
Proof.
  induction rest as [|c rest IH]; intros attempts w; [reflexivity|].
  cbn [tryNextCompiler]. 
  change (exec (withRmSync E rm)) with (exec E).
  destruct (exec E (command c) outputDir w) as [r w1].
  change (succeeded (withRmSync E rm)) with (succeeded E).
  change (recordAttempt (withRmSync E rm)) with (recordAttempt E).
  change (removeArtifact (withRmSync E rm)) with (removeArtifact E).
  now rewrite IH.
Qed.

Lemma answer_withRmSync rm (template : string) (values : payloadValues)
    (w : world) :
  fst (fst (generatePdf (withRmSync E rm) template values w)) =
  fst (fst (generatePdf E template values w)).
Proof.
  unfold generatePdf. destruct values as [| |entries]; try reflexivity.
  destruct (texts entries) as [converted|]; [|reflexivity].
  destruct (Injector.inject template converted); try reflexivity.
  change (mkdtempSync (withRmSync E rm)) with (mkdtempSync E).
  change (pathJoin (withRmSync E rm)) with (pathJoin E).
  change (tmpdir (withRmSync E rm)) with (tmpdir E).
  destruct (mkdtempSync E _ w) as [[e|tmp] w0]; [reflexivity|].
  change (writeFileSync (withRmSync E rm)) with (writeFileSync E).
  destruct (writeFileSync E _ doc w0) as [[e|] w1].
  - destruct (safeRemoveDir_completes (withRmSync E rm) tmp w1) as (evs & w' & ->).
    destruct (safeRemoveDir_completes E tmp w1) as (evs0 & w0' & ->).
    reflexivity.
  - unfold tryCompileLatex, runChain.
    change (pathJoin (withRmSync E rm)) with (pathJoin E).
    change (compilers (withRmSync E rm)) with (compilers E).
    rewrite tryNextCompiler_withRmSync.
    destruct (tryNextCompiler E _ _ tmp _ [] w1) as [[err attempts] w2].
    change (existsSync (withRmSync E rm)) with (existsSync E).
    destruct (safeRemoveDir_completes (withRmSync E rm) tmp w2) as (evs & w' & ->).
    destruct (safeRemoveDir_completes E tmp w2) as (evs0 & w0' & ->).
    destruct (match err with Some _ => true | None => _ end); reflexivity.
Qed.

Lemma cleanup_runs (template : string) (values : payloadValues) (w : world) :
  let '(answer, evs, w') := generatePdf E template values w in
  if hasWorkspace answer
  then exists tmp w1 w0,
         mkdtempSync E (pathJoin E (tmpdir E) "latex-") w = (inr tmp, w1) /\
         (Normal, evs, w') = safeRemoveDir E tmp w0
  else evs = [].
Proof.
  unfold generatePdf. destruct values as [| |entries]; try reflexivity.
  destruct (texts entries) as [converted|]; [|reflexivity].
  destruct (Injector.inject template converted); try reflexivity.
  destruct (mkdtempSync E _ w) as [[e|tmp] w0]; [reflexivity|].
  destruct (writeFileSync E _ doc w0) as [[e|] w1].
  - destruct (safeRemoveDir_completes E tmp w1) as (evs & w' & Hc).
    rewrite Hc. cbn. now exists tmp, w0, w1.
  - destruct (tryCompileLatex E _ tmp w1) as [[err attempts] w2].
    destruct (safeRemoveDir_completes E tmp w2) as (evs & w' & Hc).
    rewrite Hc.
    destruct (match err with Some _ => true | None => _ end); cbn;
      now exists tmp, w0, w2.
Qed.

End HandlerFacts.

(** ** The properties of the specification *)

Section Claims.

Import Env Compiler Workspace.
Local Open Scope string_scope.

(** The literals of the source and the node sequences they stand for. *)
Example literals_compile :
  compile "\\" = Some reBackslash /\
  compile "[{}]" = Some reBraces /\
  compile "[$&%#^_~]" = Some reReserved /\
  compile "\textbackslash\{\}" = Some reTextbackslash /\
  compile "[.*+?^${}()|[\]\\]" = Some reSpecial /\
  compile "[^a-z0-9_]" = Some Extractor.reNonCanonical.
Proof. repeat split. Qed.

(** The pattern of the last replace of [escapeLatex] starts with a TAB, the
    control escape [\t], and not with a backslash. *)
Example reTextbackslash_source : reTextbackslash = chars tabPattern.
Proof. reflexivity. Qed.

(** A value ending in [$] under a [\newcommand] definition: the [$] of the
    escaped value and the [$] of [$2] read as [$$], and the closing brace of
    the definition is lost. *)
Example dollar_value_breaks_definition :
  substitute "\newcommand{\price}{0} x" [("price", "5$")]
  = Some "\newcommand{\price}{5\$2 x".
Proof. vm_compute. reflexivity. Qed.

(** C1 (defect of the code): [escapeLatex] maps a text character by
    character ([escapedChar]), its last replace never finding anything; on
    the value made of one backslash the first step writes
    [\textbackslash{}], the brace step then escapes the two braces this
    introduced, and the value comes out as [\textbackslash\{\}]. *)
Theorem escapeLatex_backslash_reescaped :
  (forall text, escapeLatex text = flatMap escapedChar text) /\
  replace reBackslash "\textbackslash{}" "\" = "\textbackslash{}" /\
  replace reBraces "\$&" "\textbackslash{}" = "\textbackslash\{\}" /\
  escapeLatex "\" = "\textbackslash\{\}".
Proof.
  split; [exact escapeLatex_flatMap|]. vm_compute. repeat split.
Qed.

(** C2 (defect of the code): in a document holding the sentinel form
    [\VAR{name}], the bare-brace pattern, third in order, replaces the
    [{name}] inside it before the [\VAR] pattern runs; the placeholder comes
    out as [\VARAda] and not as [Ada]. *)
Theorem var_placeholder_corrupted :
  inject Sim.varDocument [("name", "Ada")]
  = Processed "\documentclass{article}\begin{document}\VARAda\end{document}".
Proof. vm_compute. reflexivity. Qed.

(** C3, as amended: when the removal of an existing artifact leaves it gone,
    in every world, the chain runs on every list of candidates as the
    specification words it ([ChainSpec]): one attempt per candidate in list
    order, an attempt successful exactly when the process ended without
    error and the artifact exists, the artifact removed and gone before the
    next candidate runs, the first success ending the chain, and exhaustion
    answering with the error and all the attempts.  The names of the
    attempts are a prefix of the names of the candidates; on failure every
    candidate was tried and every attempt failed; on success only the last
    attempt succeeded. *)
Theorem compiler_chain_refines_spec {world : Type} (E : env world)
    (outputDir : string) (cs : list compiler) (w : world) :
  (forall w0, existsSync E (pathJoin E outputDir "resume.pdf") w0 = true ->
     existsSync E (pathJoin E outputDir "resume.pdf")
       (snd (unlinkSync E (pathJoin E outputDir "resume.pdf") w0)) = false) ->
  ChainSpec E (pathJoin E outputDir "resume.pdf") outputDir cs w
    (runChain E outputDir cs w) /\
  (let '(res, attempts, _) := runChain E outputDir cs w in
   map a_compiler attempts = firstn (List.length attempts) (map name cs) /\
   (res <> None ->
      List.length attempts = List.length cs /\
      Forall (fun a => success a = false) attempts) /\
   (res = None ->
      exists init a, attempts = (init ++ [a])%list /\ success a = true /\
                     Forall (fun a => success a = false) init)).
Proof.
  intro Hunlink.
  assert (Hspec : ChainSpec E (pathJoin E outputDir "resume.pdf") outputDir cs w
                    (runChain E outputDir cs w)).
  { unfold runChain. now apply tryNextCompiler_spec. }
  split; [exact Hspec|].
  exact (ChainSpec_order E _ _ cs w _ Hspec).
Qed.

(** C5, as amended: entries whose ids match no placeholder in the document
    they meet are ignored, without an error: the pass and the injection
    give the same result with them as without them; in particular a map
    none of whose ids matches leaves the document, and every placeholder of
    other ids in it, as it is. *)
Theorem unknown_ids_ignored (template doc : string)
    (before unknown after : list (string * string)) :
  substitute template before = Some doc ->
  (forall k v, In (k, v) unknown -> placeholderOccurs k doc = false) ->
  substitute template (before ++ unknown ++ after)%list =
    substitute template (before ++ after)%list /\
  inject template (before ++ unknown ++ after)%list =
    inject template (before ++ after)%list.
Proof.
  intros Hdoc Hun.
  assert (E : substitute template (before ++ unknown ++ after)%list =
              substitute template (before ++ after)%list).
  { rewrite !substitute_app, Hdoc. cbn [bind].
    rewrite substitute_app, (substitute_unknown _ _ Hun). reflexivity. }
  split; [exact E|]. unfold inject. now rewrite E.
Qed.

(** C7: the substitution always yields a document; when that document lacks
    [\begin{document}] the injection fails with [MissingStructure] naming a
    marker that is missing, which is [\begin{document}] when the document
    class is there; when it lacks [\documentclass] the injection fails with
    [MissingStructure] naming [\documentclass]. *)
Theorem missing_structure_reported (template : string)
    (values : list (string * string)) :
  exists processed,
    substitute template values = Some processed /\
    (JS.includes beginDocument processed = false ->
       exists marker,
         inject template values = MissingStructure marker /\
         JS.includes marker processed = false /\
         (JS.includes documentclass processed = true -> marker = beginDocument)) /\
    (JS.includes documentclass processed = false ->
       inject template values = MissingStructure documentclass).
Proof.
  destruct (substitute_total values template) as [processed Hp].
  exists processed. split; [exact Hp|]. unfold inject. rewrite Hp. split.
  - intro Hb. destruct (JS.includes documentclass processed) eqn:Hd; cbn [negb].
    + rewrite Hb. cbn [negb]. exists beginDocument. auto.
    + exists documentclass. repeat split; auto. discriminate.
  - intro Hd. now rewrite Hd.
Qed.

(** C10: with the empty value map the substitution pass leaves the template
    as it is, and the injection answers with the template itself when the
    two markers are in it. *)
Theorem substitute_empty_map (template : string) :
  substitute template [] = Some template /\
  inject template [] =
    (if negb (JS.includes documentclass template)
     then MissingStructure documentclass
     else if negb (JS.includes beginDocument template)
     then MissingStructure beginDocument
     else Processed template).
Proof. split; reflexivity. Qed.

(** C9, as amended: a run of [safeRemoveDir] ends normally in all cases: it
    never throws to its caller.  On a directory that exists it runs as
    [CleanupSpec] words it: a removal that works ends it;
    every removal that fails is retried when its error is ENOTEMPTY and
    fewer than [maxRetries] calls were made, and after a failure with any
    other error, or the last call allowed, it gives up at once with the
    message of that failure.  It calls [fs.rmSync] at most [maxRetries]
    times, at least once when the directory exists, and ends within its
    bound.  The handler runs the cleanup on the workspace it made for each
    of its three outcomes with a workspace, and its answer is the same
    whatever [fs.rmSync] does. *)
Theorem cleanup_policy {world : Type} (E : env world) :
  (forall dirPath w,
     let '(c, evs, w') := safeRemoveDir E dirPath w in
     c = Normal /\
     (if existsSync E dirPath w
      then CleanupSpec E dirPath 0 w (evs, w')
      else evs = [] /\ w' = w) /\
     (existsSync E dirPath w = true -> 1 <= removals evs) /\
     removals evs <= maxRetries /\
     ~ In OutOfFuel evs) /\
  (forall template values w,
     let '(answer, evs, w') := Handler.generatePdf E template values w in
     if hasWorkspace answer
     then exists tmp w1 w0,
            mkdtempSync E (pathJoin E (tmpdir E) "latex-") w = (inr tmp, w1) /\
            (Normal, evs, w') = safeRemoveDir E tmp w0
     else evs = []) /\
  (forall rm template values w,
     fst (fst (Handler.generatePdf (withRmSync E rm) template values w)) =
     fst (fst (Handler.generatePdf E template values w))).
Proof.
  split; [|split].
  - intros dirPath w.
    pose proof (safeRemoveDir_policy E dirPath w) as Hp.
    pose proof (safeRemoveDir_refines E dirPath w) as Hr.
    destruct (safeRemoveDir E dirPath w) as [[c evs] w'].
    destruct Hp as (Hc & H1 & H3 & Hfuel & _).
    repeat split; assumption.
  - intros template values w. apply cleanup_runs.
  - intros rm template values w. apply answer_withRmSync.
Qed.

End Claims.

Section ExtractorClaims.

Import Extractor.
Local Open Scope string_scope.

Context {num : Type} (numIsZero : num -> bool) (numToString : num -> string).


(** C8, as amended: every descriptor of a schema the validation returns has
    an id made only of characters of [a-z0-9_], and is the cleaned form of
    an element of the response that is an object with a non-empty string id
    and a non-empty string label; the schema has at least one descriptor. *)
Theorem schema_ids_canonical (items : list (value num)) (schema : list field)
    (totalFound validFields : nat) :
  validate numIsZero numToString (JArr items) = Schema schema totalFound validFields ->
  schema <> [] /\
  Forall (fun f =>
            allCanonical (id f) = true /\
            exists item, In item items /\ Keeps item /\
                         f = clean numIsZero numToString item) schema.
Proof.
  rewrite validate_filter.
  destruct (filter (isValid numIsZero) items) as [|x kept] eqn:Hk; [discriminate|].
  intro H. injection H as <- _ _. split; [discriminate|].
  apply Forall_forall. intros f Hf.
  apply (in_map_iff (clean numIsZero numToString) (x :: kept) f)
    in Hf as (item & <- & Hin).
  rewrite <- Hk in Hin. apply filter_In in Hin as [Hin Hv].
  split.
  - unfold clean. cbn [id]. rewrite strip_keepCanonical. apply keepCanonical_all.
  - exists item. repeat split; auto. now apply (isValid_Keeps numIsZero).
Qed.

End ExtractorClaims.

(** ** Runs on concrete inputs *)

Section Runs.

Import Env Compiler Workspace Extractor.
Local Open Scope string_scope.

Lemma sim_unlink_removes (p : string) (w : Sim.world) :
  Sim.present p (Sim.removeFile p w) = false.
Proof.
  induction w as [|q w IH]; [reflexivity|].
  cbn [Sim.removeFile filter]. destruct (String.eqb p q) eqn:Hq; cbn [negb].
  - exact IH.
  - cbn [Sim.present existsb]. rewrite Hq. exact IH.
Qed.

(** Three candidates of which the first two fail and the third succeeds:
    three attempts, the last one successful, and the artifact on disk. *)
Example chain_third_engine_succeeds :
  let '(res, attempts, w) :=
    tryCompileLatex Sim.host (Sim.join Sim.workdir "resume.tex") Sim.workdir [] in
  res = None /\
  map (fun a => (a_compiler a, success a)) attempts
  = [("tectonic-local", false); ("tectonic-system", false); ("pdflatex", true)] /\
  Sim.present (Sim.join Sim.workdir "resume.pdf") w = true.
Proof. vm_compute. repeat split. Qed.

(** On a host where the local Tectonic fails and leaves a partial PDF, the
    system one is missing and [pdflatex] writes the PDF: the partial PDF is
    on disk after the first attempt and the chain ends with three attempts,
    the last one successful. *)
Example chain_partial_artifact_removed :
  Sim.present (Sim.join Sim.workdir "resume.pdf")
    (snd (exec Sim.partialHost
            (command (hd (mkCompiler EmptyString EmptyString EmptyString)
                        (compilers Sim.partialHost
                           (Sim.join Sim.workdir "resume.tex") Sim.workdir)))
            Sim.workdir [Sim.workdir])) = true /\
  (let '(res, attempts, w) :=
     tryCompileLatex Sim.partialHost (Sim.join Sim.workdir "resume.tex")
       Sim.workdir [Sim.workdir] in
   res = None /\
   map (fun a => (a_compiler a, success a)) attempts
   = [("tectonic-local", false); ("tectonic-system", false); ("pdflatex", true)]).
Proof. vm_compute. repeat split. Qed.

(** On that host the chain of the three candidates runs as specified. *)
Lemma compiler_chain_refines_spec_witness :
  ChainSpec Sim.partialHost (Sim.join Sim.workdir "resume.pdf") Sim.workdir
    (compilers Sim.partialHost (Sim.join Sim.workdir "resume.tex") Sim.workdir)
    [Sim.workdir]
    (tryCompileLatex Sim.partialHost (Sim.join Sim.workdir "resume.tex")
       Sim.workdir [Sim.workdir]).
Proof.
  refine (proj1 (compiler_chain_refines_spec Sim.partialHost Sim.workdir
                   (compilers Sim.partialHost (Sim.join Sim.workdir "resume.tex")
                      Sim.workdir)
                   [Sim.workdir] _)).
  intros w0 _. apply sim_unlink_removes.
Defined.

(** C3 as the specification states it fails: on a host where the PDF is
    locked, the local Tectonic fails and leaves a partial PDF, its removal
    throws and the error is ignored, and the system Tectonic, which ends
    without error and writes nothing in any world, is recorded as
    successful on the file the failed attempt left.  The partial artifact
    was not removed before the next candidate ran, and the run is not one
    of [ChainSpec]. *)
Lemma stale_artifact_accepted :
  (forall w,
     exec Sim.lockedHost
       (command (nth 1 (compilers Sim.lockedHost
                          (Sim.join Sim.workdir "resume.tex") Sim.workdir)
                   (mkCompiler EmptyString EmptyString EmptyString)))
       Sim.workdir w
     = ({| err := None; stdout := EmptyString; stderr := EmptyString |}, w)) /\
  (exists a1 a2,
     tryCompileLatex Sim.lockedHost (Sim.join Sim.workdir "resume.tex")
       Sim.workdir [Sim.workdir]
     = (None, [a1; a2], [Sim.join Sim.workdir "resume.pdf"; Sim.workdir]) /\
     a_compiler a1 = "tectonic-local" /\ success a1 = false /\
     a_compiler a2 = "tectonic-system" /\ success a2 = true) /\
  ~ ChainSpec Sim.lockedHost (Sim.join Sim.workdir "resume.pdf") Sim.workdir
      (compilers Sim.lockedHost (Sim.join Sim.workdir "resume.tex") Sim.workdir)
      [Sim.workdir]
      (tryCompileLatex Sim.lockedHost (Sim.join Sim.workdir "resume.tex")
         Sim.workdir [Sim.workdir]).
Proof.
  split; [|split].
  - intro w. reflexivity.
  - eexists _, _. split; [vm_compute; reflexivity|]. repeat split.
  - intro H. inversion H; subst.
    match goal with
    | Hexec : exec _ _ _ _ = _ |- _ =>
        vm_compute in Hexec; injection Hexec as <- <-
    end.
    match goal with
    | Hx : existsSync _ _ _ = false |- _ => vm_compute in Hx; discriminate Hx
    end.
Qed.

(** C5 as the specification states it fails: the id [name] is absent from the map and
    its placeholder stays in the processed document; it is not replaced by
    the empty string. *)
Lemma absent_id_not_emptied :
  inject Sim.letter [("email", "ada@example.org")] = Processed Sim.letter /\
  Processed Sim.letter
  <> Processed "\documentclass{letter}\begin{document}Dear ,\end{document}".
Proof. vm_compute. split; [reflexivity | discriminate]. Qed.

Lemma unknown_ids_ignored_witness :
  inject Sim.letter ([("name", "Ada")] ++ [("email", "ada@example.org")] ++ [])%list
  = inject Sim.letter ([("name", "Ada")] ++ [])%list.
Proof.
  refine (proj2 (unknown_ids_ignored Sim.letter
                   "\documentclass{letter}\begin{document}Dear Ada,\end{document}"
                   [("name", "Ada")] [("email", "ada@example.org")] [] _ _)).
  - vm_compute. reflexivity.
  - intros k v [H|[]]. injection H as <- <-. vm_compute. reflexivity.
Defined.

Lemma missing_structure_reported_witness :
  inject "\documentclass{article}\newcommand{\name}{x}" [("name", "Ada")]
  = MissingStructure beginDocument.
Proof.
  destruct (missing_structure_reported
              "\documentclass{article}\newcommand{\name}{x}" [("name", "Ada")])
    as (processed & Hp & Hb & _).
  vm_compute in Hp. injection Hp as <-.
  destruct (Hb eq_refl) as (marker & Hi & _ & Hm).
  rewrite Hi. f_equal. apply Hm. reflexivity.
Defined.


(** C8 as the specification states it fails: the ids [name] and [Name] of two elements
    both become [name]; the schema holds the id twice. *)
Lemma schema_ids_not_unique :
  validate (Nat.eqb 0) Sim.natToString (JArr Sim.twins)
  = Schema [mkField "name" "Name" EmptyString;
            mkField "name" "Full name" EmptyString] 2 2 /\
  ~ schemaInvariant [mkField "name" "Name" EmptyString;
                     mkField "name" "Full name" EmptyString].
Proof.
  split; [vm_compute; reflexivity|].
  intros [_ Hnd]. cbn in Hnd. inversion Hnd as [|x l Hnotin _]; subst.
  apply Hnotin. now left.
Qed.

Lemma schema_ids_canonical_witness :
  [mkField "name" "Name" EmptyString; mkField "name" "Full name" EmptyString] <> [] /\
  Forall (fun f =>
            allCanonical (id f) = true /\
            exists item, In item Sim.twins /\ Keeps item /\
                         f = clean (Nat.eqb 0) Sim.natToString item)
    [mkField "name" "Name" EmptyString; mkField "name" "Full name" EmptyString].
Proof.
  apply (schema_ids_canonical (Nat.eqb 0) Sim.natToString Sim.twins _ 2 2).
  vm_compute. reflexivity.
Defined.

(** C9 as the specification states it fails: the system refuses the removal
    with EPERM; the directory is still there and the bound is not reached,
    yet [fs.rmSync] is called once and not again. *)
Lemma cleanup_not_retried_when_refused :
  existsSync Sim.refusingHost Sim.workdir [Sim.workdir] = true /\
  fst (rmSync Sim.refusingHost Sim.workdir [Sim.workdir]) <> None /\
  safeRemoveDir Sim.refusingHost Sim.workdir [Sim.workdir]
  = (Normal, [CouldNotRemove "rm failed"], [Sim.workdir]) /\
  removals [CouldNotRemove "rm failed"] = 1 /\
  1 < maxRetries.
Proof. vm_compute. repeat split; try discriminate; lia. Qed.

Lemma cleanup_policy_witness :
  1 <= removals (snd (fst (safeRemoveDir Sim.host Sim.workdir [Sim.workdir]))).
Proof.
  destruct (cleanup_policy Sim.host) as (H & _).
  specialize (H Sim.workdir [Sim.workdir]).
  destruct (safeRemoveDir Sim.host Sim.workdir [Sim.workdir]) as [[c evs] w'].
  destruct H as (_ & _ & H1 & _). apply H1. reflexivity.
Defined.

End Runs.

(** ** Further lemmas *)

(** *** Strings, prefixes and trimming *)

Lemma length_append (a b : string) :
  String.length (a ++ b) = String.length a + String.length b.
Proof. induction a as [|c a IH]; simpl; [reflexivity | now rewrite IH]. Qed.

Lemma take_drop (n : nat) (s : string) : Text.take n s ++ JS.drop n s = s.
Proof.
  revert s; induction n as [|n IH]; intros [|c s]; simpl; try reflexivity.
  now rewrite IH.
Qed.

Lemma length_take (n : nat) (s : string) : String.length (Text.take n s) <= n.
Proof.
  revert s; induction n as [|n IH]; intros [|c s]; simpl; try lia.
  specialize (IH s). lia.
Qed.

Lemma length_drop (n : nat) (s : string) :
  String.length (JS.drop n s) = String.length s - n.
Proof.
  revert s; induction n as [|n IH]; intros [|c s]; simpl; try lia. apply IH.
Qed.

Lemma take_all (n : nat) (s : string) :
  String.length s <= n -> Text.take n s = s.
Proof.
  revert s; induction n as [|n IH]; intros [|c s]; simpl; intro H; try reflexivity; try lia.
  rewrite IH; [reflexivity | lia].
Qed.

Lemma startsWith_take (n : nat) (s : string) : JS.startsWith (Text.take n s) s = true.
Proof.
  revert s; induction n as [|n IH]; intros [|c s]; simpl; try reflexivity.
  now rewrite Ascii.eqb_refl, IH.
Qed.

Lemma endsWith_append (x p : string) : Text.endsWith p (x ++ p) = true.
Proof.
  unfold Text.endsWith. rewrite length_append.
  replace (String.length x + String.length p - String.length p) with (String.length x) by lia.
  rewrite drop_append, String.eqb_refl.
  apply andb_true_iff. split; [apply Nat.leb_le; lia | reflexivity].
Qed.

Lemma endsWith_split (p s : string) :
  Text.endsWith p s = true -> exists x, s = x ++ p.
Proof.
  unfold Text.endsWith. intro H. apply andb_true_iff in H as [_ H].
  apply String.eqb_eq in H.
  exists (Text.take (String.length s - String.length p) s).
  pose proof (take_drop (String.length s - String.length p) s) as Hs.
  rewrite H in Hs. now symmetry.
Qed.

Lemma includes_split (p s : string) :
  JS.includes p s = true <-> exists a b, s = a ++ p ++ b.
Proof.
  split.
  - induction s as [|c s IH]; intro H.
    + simpl in H. rewrite orb_false_r in H. apply startsWith_split in H.
      exists EmptyString. eexists. exact H.
    + cbn [JS.includes] in H. apply orb_true_iff in H as [H|H].
      * apply startsWith_split in H. exists EmptyString. eexists. exact H.
      * destruct (IH H) as (a & b & ->). exists (String c a), b. reflexivity.
  - intros (a & b & ->). apply includes_append_l, includes_self.
Qed.

Lemma includes_char_false_cons (d c : ascii) (s : string) :
  Ascii.eqb c d = false -> JS.includes (String d EmptyString) s = false ->
  JS.includes (String d EmptyString) (String c s) = false.
Proof.
  intros Hc Hs. cbn [JS.includes JS.startsWith]. rewrite (Ascii.eqb_sym d c), Hc.
  cbn [andb orb]. exact Hs.
Qed.

Lemma includes_char_append (d : ascii) (a b : string) :
  JS.includes (String d EmptyString) (a ++ b) =
  JS.includes (String d EmptyString) a || JS.includes (String d EmptyString) b.
Proof.
  induction a as [|c a IH].
  - reflexivity.
  - cbn [append JS.includes JS.startsWith]. rewrite IH.
    destruct (Ascii.eqb d c); cbn [andb orb]; [|reflexivity].
    now destruct (a ++ b), a.
Qed.

Lemma includes_char_append_false (d : ascii) (a b : string) :
  JS.includes (String d EmptyString) a = false ->
  JS.includes (String d EmptyString) b = false ->
  JS.includes (String d EmptyString) (a ++ b) = false.
Proof. intros Ha Hb. now rewrite includes_char_append, Ha, Hb. Qed.

(** A text that lacks a character of the pattern lacks the pattern. *)
Lemma includes_needs_char (d : ascii) (x y s : string) :
  JS.includes (String d EmptyString) s = false ->
  JS.includes (x ++ String d y) s = false.
Proof.
  intro H. destruct (JS.includes (x ++ String d y) s) eqn:E; [|reflexivity].
  apply includes_split in E as (a & b & ->).
  rewrite !includes_char_append in H. cbn [JS.includes JS.startsWith] in H.
  rewrite Ascii.eqb_refl in H. cbn in H.
  rewrite !orb_true_r in H. discriminate.
Qed.

Lemma trimStart_white (s : string) :
  Props.all JS.isWhite s = true -> JS.trimStart s = EmptyString.
Proof.
  induction s as [|c s IH]; [reflexivity|]. cbn [Props.all JS.trimStart].
  intro H. apply andb_true_iff in H as [Hc Hs]. rewrite Hc. auto.
Qed.

Lemma trimStart_empty (s : string) :
  JS.trimStart s = EmptyString -> Props.all JS.isWhite s = true.
Proof.
  induction s as [|c s IH]; [reflexivity|]. cbn [Props.all JS.trimStart].
  destruct (JS.isWhite c); [exact IH | discriminate].
Qed.

Lemma trimEnd_white (s : string) :
  Props.all JS.isWhite s = true <-> JS.trimEnd s = EmptyString.
Proof.
  induction s as [|c s IH]; [split; reflexivity|]. cbn [Props.all JS.trimEnd]. split.
  - intro H. apply andb_true_iff in H as [Hc Hs]. apply IH in Hs. now rewrite Hs, Hc.
  - destruct (JS.trimEnd s) eqn:E; [|discriminate].
    destruct (JS.isWhite c); [|discriminate]. intros _. now apply IH.
Qed.

Lemma trimEnd_cons (c : ascii) (s : string) :
  JS.trimEnd s <> EmptyString \/ JS.isWhite c = false ->
  JS.trimEnd (String c s) = String c (JS.trimEnd s).
Proof.
  cbn [JS.trimEnd]. intros [H|H].
  - destruct (JS.trimEnd s); [now elim H | reflexivity].
  - rewrite H. now destruct (JS.trimEnd s).
Qed.

Lemma trimEnd_append (x y : string) :
  JS.trimEnd y <> EmptyString -> JS.trimEnd (x ++ y) = x ++ JS.trimEnd y.
Proof.
  intro H. induction x as [|c x IH]; [reflexivity|].
  cbn [append]. rewrite trimEnd_cons; [now rewrite IH | left; now rewrite IH; destruct x].
Qed.

Lemma trimStart_append (a : string) (c : ascii) (r : string) :
  JS.isWhite c = false ->
  JS.trimStart (a ++ String c r) = JS.trimStart a ++ String c r.
Proof.
  intro H. induction a as [|d a IH].
  - cbn. now rewrite H.
  - cbn [append JS.trimStart]. destruct (JS.isWhite d); [exact IH | reflexivity].
Qed.

Lemma trimStart_fixed (s : string) : JS.trimStart (JS.trimStart s) = JS.trimStart s.
Proof.
  induction s as [|c s IH]; [reflexivity|]. cbn [JS.trimStart].
  destruct (JS.isWhite c) eqn:Hc; [exact IH|]. cbn [JS.trimStart]. now rewrite Hc.
Qed.

Lemma trimEnd_fixed (s : string) : JS.trimEnd (JS.trimEnd s) = JS.trimEnd s.
Proof.
  induction s as [|c s IH]; [reflexivity|].
  cbn [JS.trimEnd]. destruct (JS.trimEnd s) as [|d t] eqn:E.
  - destruct (JS.isWhite c) eqn:Hc; [reflexivity|]. cbn. now rewrite Hc.
  - rewrite trimEnd_cons; [now rewrite IH | left; now rewrite IH].
Qed.

(** Trimming the end leaves a first character that is not white space. *)
Lemma trimStart_trimEnd (c : ascii) (s : string) :
  JS.isWhite c = false ->
  JS.trimStart (JS.trimEnd (String c s)) = JS.trimEnd (String c s).
Proof.
  intro H. rewrite trimEnd_cons by now right. cbn [JS.trimStart]. now rewrite H.
Qed.

Lemma trim_fixed (s : string) : JS.trim (JS.trim s) = JS.trim s.
Proof.
  unfold JS.trim.
  assert (Hs : JS.trimStart (JS.trimEnd (JS.trimStart s)) = JS.trimEnd (JS.trimStart s)).
  { induction s as [|c s IH]; [reflexivity|]. cbn [JS.trimStart].
    destruct (JS.isWhite c) eqn:Hc; [exact IH|]. now apply trimStart_trimEnd. }
  rewrite Hs. apply trimEnd_fixed.
Qed.

Lemma trim_empty (s : string) :
  JS.trim s = EmptyString <-> Props.all JS.isWhite s = true.
Proof.
  unfold JS.trim. rewrite <- trimEnd_white. split.
  - intro H. apply trimStart_empty. 
    induction s as [|c s IH]; [reflexivity|]. cbn [JS.trimStart] in *.
    destruct (JS.isWhite c) eqn:Hc; [now apply IH|].
    cbn [Props.all] in H. rewrite Hc in H. discriminate.
  - intro H. now rewrite (trimStart_white _ H).
Qed.

(** What trimming drops: white space before and after. *)
Lemma trimStart_split (s : string) :
  s = Props.leading JS.isWhite s ++ JS.trimStart s.
Proof.
  induction s as [|c s IH]; [reflexivity|]. cbn [Props.leading JS.trimStart].
  destruct (JS.isWhite c); [|reflexivity]. cbn [append]. now rewrite <- IH.
Qed.

Lemma trimEnd_split (s : string) :
  exists w, s = JS.trimEnd s ++ w /\ Props.all JS.isWhite w = true.
Proof.
  induction s as [|c s (w & Hw & Hall)]; [now exists EmptyString|].
  cbn [JS.trimEnd]. destruct (JS.trimEnd s) as [|d t] eqn:E.
  - destruct (JS.isWhite c) eqn:Hc.
    + exists (String c s). split; [reflexivity|]. cbn [Props.all]. rewrite Hc.
      cbn [andb]. now apply trimEnd_white.
    + exists s. split; [reflexivity|]. now apply trimEnd_white.
  - exists w. split; [|exact Hall]. now rewrite Hw at 1.
Qed.

Lemma trim_split (s : string) :
  exists v w, s = v ++ JS.trim s ++ w /\
              Props.all JS.isWhite v = true /\ Props.all JS.isWhite w = true.
Proof.
  destruct (trimEnd_split (JS.trimStart s)) as (w & Hw & Hall).
  exists (Props.leading JS.isWhite s), w. split; [|split; [|exact Hall]].
  - unfold JS.trim. rewrite <- Hw. apply trimStart_split.
  - clear. induction s as [|c s IH]; [reflexivity|]. cbn [Props.leading].
    destruct (JS.isWhite c) eqn:Hc; [|reflexivity]. cbn [Props.all]. now rewrite Hc.
Qed.

Lemma includes_trim (p s : string) :
  JS.includes p (JS.trim s) = true -> JS.includes p s = true.
Proof.
  intro H. destruct (trim_split s) as (v & w & Hs & _).
  apply includes_split in H as (a & b & Ht).
  apply includes_split. exists (v ++ a), (b ++ w).
  rewrite Hs at 1. rewrite Ht. now rewrite !append_assoc.
Qed.

Lemma all_includes (d : ascii) (s : string) :
  JS.includes (String d EmptyString) s = false <->
  Props.all (fun c => negb (Ascii.eqb c d)) s = true.
Proof.
  induction s as [|c s IH]; [split; reflexivity|]. cbn [Props.all]. split.
  - intro H. apply includes_char_cons in H as [Hc Hs]. rewrite Hc. now apply IH.
  - intro H. apply andb_true_iff in H as [Hc Hs]. apply negb_true_iff in Hc.
    apply includes_char_false_cons; [exact Hc | now apply IH].
Qed.

Lemma trimStart_lacks (d : ascii) (s : string) :
  JS.includes (String d EmptyString) s = false ->
  JS.includes (String d EmptyString) (JS.trimStart s) = false.
Proof.
  intro H. rewrite (trimStart_split s), includes_char_append in H.
  apply orb_false_iff in H. tauto.
Qed.

Lemma trimEnd_lacks (d : ascii) (s : string) :
  JS.includes (String d EmptyString) s = false ->
  JS.includes (String d EmptyString) (JS.trimEnd s) = false.
Proof.
  intro H. destruct (trimEnd_split s) as (w & Hs & _).
  rewrite Hs, includes_char_append in H. apply orb_false_iff in H. tauto.
Qed.

Lemma trim_lacks (d : ascii) (s : string) :
  JS.includes (String d EmptyString) s = false ->
  JS.includes (String d EmptyString) (JS.trim s) = false.
Proof. intro H. now apply trimEnd_lacks, trimStart_lacks. Qed.

(** *** [escapeLatex] as a code *)

Lemma escapedChar_class (c : ascii) :
  (c = "\"%char /\ escapedChar c = "\textbackslash\{\}") \/
  (Props.reserved c = true /\ escapedChar c = String "\" (String c EmptyString)) \/
  (Props.special c = false /\ escapedChar c = String c EmptyString).
Proof.
  destruct c as [[] [] [] [] [] [] [] []]; vm_compute;
    first [ left; split; reflexivity
          | right; left; split; reflexivity
          | right; right; split; reflexivity ].
Qed.

Lemma reserved_special (c : ascii) : Props.reserved c = true -> Props.special c = true.
Proof. unfold Props.special. intros ->. apply orb_true_r. Qed.

Lemma reserved_not_backslash (c : ascii) :
  Props.reserved c = true -> Ascii.eqb c "\" = false.
Proof. destruct (Ascii.eqb_spec c "\") as [->|]; [discriminate | reflexivity]. Qed.

Lemma plain_not_backslash (c : ascii) :
  Props.special c = false -> Ascii.eqb c "\" = false /\ Props.reserved c = false.
Proof. unfold Props.special. intro H. now apply orb_false_iff in H. Qed.

Lemma escapedChar_prefix_free (c d : ascii) (x y : string) :
  escapedChar c ++ x = escapedChar d ++ y -> c = d /\ x = y.
Proof.
  destruct (escapedChar_class c) as [[-> ->]|[[Hc ->]|[Hc ->]]];
  destruct (escapedChar_class d) as [[-> ->]|[[Hd ->]|[Hd ->]]];
  cbn [append]; intro H.
  - injection H as ->. now split.
  - injection H as <- _. discriminate Hd.
  - injection H as <- _. discriminate Hd.
  - injection H as -> _. discriminate Hc.
  - injection H as -> ->. now split.
  - injection H as <- _. discriminate Hd.
  - injection H as -> _. discriminate Hc.
  - injection H as -> _. discriminate Hc.
  - injection H as -> ->. now split.
Qed.

Lemma escapedChar_nonempty (c : ascii) (x : string) : escapedChar c ++ x <> EmptyString.
Proof.
  destruct (escapedChar_class c) as [[_ ->]|[[_ ->]|[_ ->]]]; discriminate.
Qed.

Lemma flatMap_escapedChar_injective (a : string) :
  forall b, flatMap escapedChar a = flatMap escapedChar b -> a = b.
Proof.
  induction a as [|c a IH]; intros [|d b] H; cbn [flatMap] in H.
  - reflexivity.
  - symmetry in H. now apply escapedChar_nonempty in H.
  - now apply escapedChar_nonempty in H.
  - apply escapedChar_prefix_free in H as [-> H]. now rewrite (IH b H).
Qed.

Lemma length_flatMap_escapedChar (s : string) :
  String.length s <= String.length (flatMap escapedChar s).
Proof.
  induction s as [|c s IH]; [reflexivity|]. cbn [flatMap]. rewrite length_append.
  destruct (escapedChar_class c) as [[_ ->]|[[_ ->]|[_ ->]]]; simpl; lia.
Qed.

Lemma flatMap_escapedChar_plain (s : string) :
  Props.all (fun c => negb (Props.special c)) s = true -> flatMap escapedChar s = s.
Proof.
  induction s as [|c s IH]; [reflexivity|]. cbn [Props.all flatMap].
  intro H. apply andb_true_iff in H as [Hc Hs]. apply negb_true_iff in Hc.
  destruct (escapedChar_class c) as [[-> _]|[[Hr _]|[_ ->]]].
  - discriminate Hc.
  - apply reserved_special in Hr. congruence.
  - cbn [append]. now rewrite IH.
Qed.

Lemma flatMap_escapedChar_same_length (s : string) :
  String.length (flatMap escapedChar s) = String.length s ->
  Props.all (fun c => negb (Props.special c)) s = true.
Proof.
  induction s as [|c s IH]; [reflexivity|]. cbn [Props.all flatMap].
  rewrite length_append. pose proof (length_flatMap_escapedChar s) as Hle.
  destruct (escapedChar_class c) as [[_ ->]|[[_ ->]|[Hc ->]]]; simpl; intro H; try lia.
  rewrite Hc. cbn [negb andb]. apply IH. lia.
Qed.

Lemma guarded_sound (s : string) :
  forall prev a c b,
    Props.guarded prev s = true -> s = a ++ String c b -> Props.reserved c = true ->
    (a = EmptyString /\ prev = true) \/ exists a', a = a' ++ "\".
Proof.
  induction s as [|d s IH]; intros prev a c b Hg Hs Hc.
  - destruct a; discriminate.
  - cbn [Props.guarded] in Hg. apply andb_true_iff in Hg as [Hd Hg].
    destruct a as [|e a]; cbn [append] in Hs; injection Hs as -> Hs.
    + left. rewrite Hc in Hd. now split.
    + right. destruct (IH _ a c b Hg Hs Hc) as [[-> He]|[a' ->]].
      * apply Ascii.eqb_eq in He. subst e. now exists EmptyString.
      * now exists (String e a').
Qed.

Lemma guarded_flatMap_escapedChar (s : string) :
  forall prev, Props.guarded prev (flatMap escapedChar s) = true.
Proof.
  induction s as [|c s IH]; intro prev; [reflexivity|]. cbn [flatMap].
  destruct (escapedChar_class c) as [[-> ->]|[[Hc ->]|[Hc ->]]].
  - cbn. apply IH.
  - cbn [append Props.guarded]. rewrite Hc, (reserved_not_backslash _ Hc).
    replace (Props.reserved "\") with false by reflexivity.
    replace (Ascii.eqb "\" "\") with true by reflexivity.
    cbn [andb]. apply IH.
  - destruct (plain_not_backslash _ Hc) as [Hb Hr].
    cbn [append Props.guarded]. rewrite Hr, Hb. cbn [andb]. apply IH.
Qed.

(** *** The validation report and the schema *)

Lemma countFrom_char (a : ascii) (s : string) :
  Text.countFrom [Char a] 0 s = Props.countChar a s.
Proof.
  induction s as [|c s IH]; [reflexivity|].
  cbn [Text.countFrom Props.countChar]. rewrite exec_char.
  destruct (Ascii.eqb a c); cbn [matched String.length]; now rewrite IH.
Qed.

Lemma canonical_lower (c : ascii) : canonical c = true -> JS.lowerChar c = c.
Proof.
  destruct c as [[] [] [] [] [] [] [] []]; vm_compute; intro H;
    first [reflexivity | discriminate H].
Qed.

Lemma allCanonical_lower (s : string) :
  allCanonical s = true -> JS.toLowerCase s = s.
Proof.
  induction s as [|c s IH]; [reflexivity|]. cbn [allCanonical JS.toLowerCase].
  intro H. apply andb_true_iff in H as [Hc Hs]. now rewrite (canonical_lower _ Hc), IH.
Qed.

Lemma allCanonical_keep (s : string) :
  allCanonical s = true -> keepCanonical s = s.
Proof.
  induction s as [|c s IH]; [reflexivity|]. cbn [allCanonical keepCanonical].
  intro H. apply andb_true_iff in H as [Hc Hs]. now rewrite Hc, IH.
Qed.

Lemma normalise_fixed (i : string) :
  let y := replace Extractor.reNonCanonical EmptyString (JS.toLowerCase i) in
  replace Extractor.reNonCanonical EmptyString (JS.toLowerCase y) = y.
Proof.
  cbn zeta. rewrite !strip_keepCanonical.
  rewrite (allCanonical_lower _ (keepCanonical_all _)).
  apply allCanonical_keep, keepCanonical_all.
Qed.

Lemma validateLatex_report (body : string) (v : Validator.validation) :
  Validator.validateLatex body = Validator.Validated v ->
  Validator.valid v =
    JS.includes documentclass (JS.trim body) &&
    JS.includes beginDocument (JS.trim body) &&
    JS.includes Validator.endDocument (JS.trim body) /\
  Validator.errors v =
    ((if JS.includes documentclass (JS.trim body) then []
      else ["Missing \documentclass declaration"]) ++
     (if JS.includes beginDocument (JS.trim body) then []
      else ["Missing \begin{document}"]) ++
     (if JS.includes Validator.endDocument (JS.trim body) then []
      else ["Missing \end{document}"]))%list.
Proof.
  unfold Validator.validateLatex.
  destruct (String.eqb (JS.trim body) EmptyString); [discriminate|].
  cbn zeta. cbn [Validator.structure Validator.hasDocumentClass
                 Validator.hasBeginDocument Validator.hasEndDocument
                 Validator.hasNewCommands Validator.hasDefCommands].
  intro H. injection H as <-.
  destruct (JS.includes documentclass (JS.trim body)),
           (JS.includes beginDocument (JS.trim body)),
           (JS.includes Validator.endDocument (JS.trim body)),
           (test Validator.reNewcommand (JS.trim body)),
           (test Validator.reDefCommand (JS.trim body)),
           (Text.matchCount Validator.reOpenBrace (JS.trim body)
            =? Text.matchCount Validator.reCloseBrace (JS.trim body));
    split; reflexivity.
Qed.

(** *** The chain and the handler without assumptions on the file system *)

Section ChainOutcome.

Import Env Compiler.
Local Open Scope list_scope.

Context {world : Type} (E : env world).
Variables pdfPath logPath outputDir : string.

Lemma length_sliceLast (n : nat) (s : string) : String.length (JS.sliceLast n s) <= n.
Proof. unfold JS.sliceLast. rewrite length_drop. lia. Qed.

Lemma recordAttempt_success (c : compiler) (r : execResult) (w : world) :
  success (recordAttempt E pdfPath logPath c r w) = true ->
  error (recordAttempt E pdfPath logPath c r w) = None.
Proof.
  cbn [recordAttempt success error]. unfold succeeded.
  destruct (err r); [discriminate | reflexivity].
Qed.

Lemma tryNextCompiler_outcome (rest : list compiler) :
  forall w,
    let '(res, attempts, w') := tryNextCompiler E pdfPath logPath outputDir rest [] w in
    Forall (fun a => String.length (log a) <= 3000) attempts /\
    match res with
    | None =>
        existsSync E pdfPath w' = true /\
        exists init a,
          attempts = init ++ [a] /\ success a = true /\ error a = None /\
          Forall (fun a => success a = false) init /\
          List.length attempts <= List.length rest
    | Some msg =>
        msg = "All LaTeX compilers failed"%string /\
        map a_compiler attempts = map name rest /\
        map a_command attempts = map command rest /\
        Forall (fun a => success a = false) attempts
    end.
Proof.
  induction rest as [|c rest IH]; intro w.
  - cbn. repeat split; constructor.
  - cbn [tryNextCompiler].
    destruct (exec E (command c) outputDir w) as [r w1].
    destruct (succeeded E pdfPath r w1) eqn:Hs.
    + split.
      * constructor; [|constructor]. cbn [recordAttempt log]. apply length_sliceLast.
      * split; [now apply succeeded_iff in Hs|].
        exists [], (recordAttempt E pdfPath logPath c r w1).
        split; [reflexivity|]. split; [exact Hs|].
        split; [now apply recordAttempt_success|]. split; [constructor | cbn; lia].
    + rewrite tryNextCompiler_acc. specialize (IH (removeArtifact E pdfPath w1)).
      destruct (tryNextCompiler E pdfPath logPath outputDir rest []
                  (removeArtifact E pdfPath w1)) as [[res atts] w'].
      destruct IH as [Hlog IH]. cbn [app]. split.
      * constructor; [cbn [recordAttempt log]; apply length_sliceLast | exact Hlog].
      * destruct res as [msg|].
        -- destruct IH as (-> & Hn & Hc & Hf). cbn [map recordAttempt a_compiler a_command].
           rewrite Hn, Hc. repeat split. constructor; [exact Hs | exact Hf].
        -- destruct IH as (Hx & init & a & -> & Ha & He & Hinit & Hlen).
           split; [exact Hx|].
           exists (recordAttempt E pdfPath logPath c r w1 :: init), a.
           split; [reflexivity|]. split; [exact Ha|]. split; [exact He|].
           split; [constructor; [exact Hs | exact Hinit] | cbn [List.length] in *; lia].
Qed.

End ChainOutcome.

Section ChainResult.

Import Env Compiler.

Context {world : Type} (E : env world).

Lemma tryCompileLatex_result (texPath outputDir : string) (w : world) :
  let '(res, attempts, w') := tryCompileLatex E texPath outputDir w in
  match res with
  | None =>
      existsSync E (pathJoin E outputDir "resume.pdf") w' = true /\
      exists init a,
        attempts = (init ++ [a])%list /\ success a = true /\ error a = None /\
        Forall (fun a => success a = false) init /\
        List.length attempts <= 3
  | Some msg =>
      msg = "All LaTeX compilers failed" /\
      map a_compiler attempts = ["tectonic-local"; "tectonic-system"; "pdflatex"] /\
      map a_command attempts = map command (compilers E texPath outputDir) /\
      Forall (fun a => success a = false) attempts
  end.
Proof.
  unfold tryCompileLatex, runChain.
  pose proof (tryNextCompiler_outcome E (pathJoin E outputDir "resume.pdf")
                (pathJoin E outputDir "resume.log") outputDir
                (compilers E texPath outputDir) w) as H.
  destruct (tryNextCompiler E _ _ outputDir _ [] w) as [[res attempts] w'].
  destruct H as [_ H]. exact H.
Qed.

End ChainResult.

Section HandlerOutcome.

Import Env Compiler Workspace Handler.
Local Open Scope list_scope.

Context {world : Type} (E : env world).

Lemma troubleshootingFor_suffix (attempts : list compilationAttempt) :
  exists hints, troubleshootingFor attempts = hints ++ baseTroubleshooting /\
                List.length hints <= 3.
Proof.
  unfold troubleshootingFor.
  destruct (last (map Some attempts) None) as [a|]; [|exists []; split; [reflexivity | cbn; lia]].
  destruct (String.eqb (log a) EmptyString); cbn [negb];
    [exists []; split; [reflexivity | cbn; lia]|].
  destruct (JS.includes "! LaTeX Error" (log a)),
           (JS.includes "File" (log a) && JS.includes "not found" (log a)),
           (JS.includes "Emergency stop" (log a));
    eexists; (split; [cbn zeta; repeat (rewrite app_comm_cons); 
                      match goal with |- ?x = ?h ++ ?b => 
                         first [ instantiate (1 := []); reflexivity
                               | instantiate (1 := [_]); reflexivity
                               | instantiate (1 := [_; _]); reflexivity
                               | instantiate (1 := [_; _; _]); reflexivity ] end
                     | cbn; lia]).
Qed.

Lemma last_snoc {A : Type} (l : list A) (a d : A) : last (l ++ [a]) d = a.
Proof.
  induction l as [|x l IH]; [reflexivity|].
  cbn [app]. destruct l; [reflexivity | exact IH].
Qed.

Lemma attempt_trace (dirPath : string) :
  forall fuel retries w,
    maxRetries <= fuel + S retries ->
    exists k final w',
      attempt E fuel dirPath retries w =
        (Normal, map RetryCleanup (seq (S retries) k) ++ [final], w') /\
      isFinal final = true /\
      k + S retries <= Nat.max maxRetries (S retries).
Proof.
  induction fuel as [|fuel IH]; intros retries w Hfuel.
  - cbn [attempt]. unfold tryRemove.
    destruct (rmSync E dirPath w) as [[e|] w'].
    + destruct ((S retries <? maxRetries) && String.eqb (code e) "ENOTEMPTY") eqn:Hc.
      * apply andb_true_iff in Hc as [Hlt _]. apply Nat.ltb_lt in Hlt. lia.
      * exists 0, (CouldNotRemove (message e)), w'.
        split; [reflexivity|]. split; [reflexivity | lia].
    + exists 0, Cleaned, w'. split; [reflexivity|]. split; [reflexivity | lia].
  - rewrite attempt_S. destruct (rmSync E dirPath w) as [[e|] w'].
    + destruct ((S retries <? maxRetries) && String.eqb (code e) "ENOTEMPTY") eqn:Hc.
      * apply andb_true_iff in Hc as [Hlt _]. apply Nat.ltb_lt in Hlt.
        destruct (IH (S retries) w' ltac:(lia)) as (k & final & w'' & -> & Hf & Hlen).
        exists (S k), final, w''.
        split; [reflexivity|]. split; [exact Hf | lia].
      * exists 0, (CouldNotRemove (message e)), w'.
        split; [reflexivity|]. split; [reflexivity | lia].
    + exists 0, Cleaned, w'. split; [reflexivity|]. split; [reflexivity | lia].
Qed.

Lemma attempt_refused (dirPath : string) (w w1 w2 w3 : world) (e1 e2 e3 : jsError) :
  rmSync E dirPath w = (Some e1, w1) -> code e1 = "ENOTEMPTY"%string ->
  rmSync E dirPath w1 = (Some e2, w2) -> code e2 = "ENOTEMPTY"%string ->
  rmSync E dirPath w2 = (Some e3, w3) ->
  attempt E maxRetries dirPath 0 w =
    (Normal, [RetryCleanup 1; RetryCleanup 2; CouldNotRemove (message e3)], w3).
Proof.
  intros H1 C1 H2 C2 H3.
  change maxRetries with 3.
  rewrite attempt_S, H1, C1. change maxRetries with 3. cbn [Nat.ltb Nat.leb andb String.eqb].
  replace (String.eqb "ENOTEMPTY" "ENOTEMPTY") with true by reflexivity.
  cbn [andb].
  rewrite attempt_S, H2, C2. change maxRetries with 3. cbn [Nat.ltb Nat.leb andb].
  replace (String.eqb "ENOTEMPTY" "ENOTEMPTY") with true by reflexivity.
  cbn [andb].
  rewrite attempt_S, H3. change maxRetries with 3. cbn [Nat.ltb Nat.leb andb].
  reflexivity.
Qed.

End HandlerOutcome.

(** *** The compiler check of [test-latex.js] *)

Lemma startsWith_firstLine (s : string) : JS.startsWith (Text.firstLine s) s = true.
Proof.
  induction s as [|c s IH]; [reflexivity|]. cbn [Text.firstLine].
  destruct (Ascii.eqb c (ascii_of_nat 10)); [reflexivity|].
  cbn [JS.startsWith]. now rewrite Ascii.eqb_refl, IH.
Qed.

Lemma firstLine_one_line (s : string) :
  JS.includes (String (ascii_of_nat 10) EmptyString) (Text.firstLine s) = false.
Proof.
  induction s as [|c s IH]; [reflexivity|]. cbn [Text.firstLine].
  destruct (Ascii.eqb c (ascii_of_nat 10)) eqn:Hc; [reflexivity|].
  now apply includes_char_false_cons.
Qed.

Lemma startsWith_trans (a b c : string) :
  JS.startsWith a b = true -> JS.startsWith b c = true -> JS.startsWith a c = true.
Proof.
  intros Hab Hbc. apply startsWith_split in Hab, Hbc.
  rewrite Hbc, Hab, append_assoc. apply startsWith_append.
Qed.

Lemma take_lacks (d : ascii) (n : nat) (s : string) :
  JS.includes (String d EmptyString) s = false ->
  JS.includes (String d EmptyString) (Text.take n s) = false.
Proof.
  intro H. rewrite <- (take_drop n s), includes_char_append in H.
  apply orb_false_iff in H. tauto.
Qed.

Section ScriptFacts.

Import Env LatexCheck.
Local Open Scope list_scope.

Context {world : Type} (exec : string -> world -> execResult * world).

Lemma checkCompiler_lines (c : compiler) (w : world) :
  let '(available, out, _) := checkCompiler exec c w in
  Props.checkedNames out = [name c] /\
  Props.availableNames out = (if available then [name c] else []).
Proof.
  unfold checkCompiler. destruct (exec (command c) w) as [r w'].
  destruct (err r); split; reflexivity.
Qed.

Lemma checkedNames_app (a b : list line) :
  Props.checkedNames (a ++ b) = Props.checkedNames a ++ Props.checkedNames b.
Proof.
  induction a as [|l a IH]; [reflexivity|].
  destruct l; cbn [app Props.checkedNames]; now rewrite IH.
Qed.

Lemma availableNames_app (a b : list line) :
  Props.availableNames (a ++ b) = Props.availableNames a ++ Props.availableNames b.
Proof.
  induction a as [|l a IH]; [reflexivity|].
  destruct l; cbn [app Props.availableNames]; now rewrite IH.
Qed.

Lemma checkEach_lines (cs : list compiler) :
  forall results w,
    let '(results', out, _) := checkEach exec cs results w in
    exists new,
      results' = results ++ new /\
      Props.checkedNames out = map name cs /\
      Props.availableNames out = map fst (filter (fun r => snd r) new).
Proof.
  induction cs as [|c cs IH]; intros results w.
  - cbn. exists []. now rewrite app_nil_r.
  - cbn [checkEach]. pose proof (checkCompiler_lines c w) as Hc.
    destruct (checkCompiler exec c w) as [[available out] w'].
    specialize (IH (results ++ [(name c, available)]) w').
    destruct (checkEach exec cs (results ++ [(name c, available)]) w')
      as [[results' out'] w''].
    destruct IH as (new & -> & Hn & Ha). destruct Hc as [Hc1 Hc2].
    exists ((name c, available) :: new). split; [now rewrite <- app_assoc|].
    rewrite checkedNames_app, availableNames_app, Hc1, Hc2, Hn, Ha.
    split; [reflexivity|]. cbn [filter snd]. now destruct available.
Qed.

End ScriptFacts.

(** *** The patterns that clean the answer of the model *)

Section Cleaning.

Import Rx Upload.

Lemma option_eta {A : Type} (x : option A) :
  match x with Some r => Some r | None => None end = x.
Proof. now destruct x. Qed.

Lemma run_lit (p : string) (k : cont) :
  forall b m input,
    run (lit p) k b m input =
    if JS.startsWith p input
    then k (match p with EmptyString => b | _ => false end) (m ++ p)
           (JS.drop (String.length p) input)
    else None.
Proof.
  induction p as [|c p IH]; intros b m input.
  - cbn. now rewrite append_nil_r.
  - cbn [lit run]. destruct input as [|d rest]; [reflexivity|].
    cbn [accepts JS.startsWith JS.drop String.length].
    destruct (Ascii.eqb_spec c d) as [->|Hne]; [|reflexivity].
    rewrite IH. cbn [andb]. destruct (JS.startsWith p rest); [|reflexivity].
    rewrite append_snoc. now destruct p.
Qed.

Lemma needs_lit (d : ascii) (p : string) (k : cont) :
  Props.needs d (run (lit (String d p)) k).
Proof.
  split; intros; rewrite run_lit; [reflexivity|].
  cbn [JS.startsWith]. rewrite Ascii.eqb_sym. now rewrite H.
Qed.

Lemma star_lazy_skip (d : ascii) (k : cont) (a rest : string) :
  Props.needs d k -> JS.includes (String d EmptyString) a = false ->
  forall b m,
    star false AAny k b m (a ++ rest) =
    star false AAny k (match a with EmptyString => b | _ => false end) (m ++ a) rest.
Proof.
  intros [_ Hk]. induction a as [|c a IH]; intros Ha b m.
  - cbn. now rewrite append_nil_r.
  - apply includes_char_cons in Ha as [Hc Ha].
    cbn [append star accepts]. rewrite (Hk _ _ _ _ Hc).
    rewrite (IH Ha), append_snoc. now destruct a.
Qed.

Lemma star_lazy_unfold (k : cont) (b : bool) (m input : string) :
  star false AAny k b m input =
  match k b m input with
  | Some r => Some r
  | None =>
      match input with
      | String c rest => star false AAny k false (m ++ String c EmptyString) rest
      | EmptyString => None
      end
  end.
Proof. destruct input; cbn; destruct (k b m _); reflexivity. Qed.

Lemma star_lazy_fail (d : ascii) (k : cont) (s : string) :
  Props.needs d k -> JS.includes (String d EmptyString) s = false ->
  forall b m, star false AAny k b m s = None.
Proof.
  intros [Hk0 Hk]. induction s as [|c s IH]; intros Hs b m.
  - apply Hk0.
  - apply includes_char_cons in Hs as [Hc Hs].
    cbn [star accepts]. rewrite (Hk _ _ _ _ Hc). now apply IH.
Qed.

Lemma star_white_accept (input : string) :
  forall b m,
    star true AWhite accept b m input =
    Some (m ++ Props.leading JS.isWhite input, JS.trimStart input).
Proof.
  induction input as [|c rest IH]; intros b m.
  - cbn. now rewrite append_nil_r.
  - cbn [star accepts Props.leading JS.trimStart].
    destruct (JS.isWhite c).
    + rewrite IH. now rewrite append_snoc.
    + cbn. now rewrite append_nil_r.
Qed.

Lemma star_any_eol (input : string) :
  forall b m, star true AAny (run Eol accept) b m input = Some (m ++ input, EmptyString).
Proof.
  induction input as [|c rest IH]; intros b m.
  - cbn. now rewrite append_nil_r.
  - cbn [star accepts]. rewrite IH. now rewrite append_snoc.
Qed.

(** A continuation that fails on white space. *)
Lemma star_white_skip (k : cont) :
  (forall b m c rest, JS.isWhite c = true -> k b m (String c rest) = None) ->
  forall input b m,
    star true AWhite k b m input =
    k (match Props.leading JS.isWhite input with EmptyString => b | _ => false end)
      (m ++ Props.leading JS.isWhite input) (JS.trimStart input).
Proof.
  intros Hk. induction input as [|c rest IH]; intros b m.
  - cbn. now rewrite append_nil_r.
  - cbn [star accepts Props.leading JS.trimStart].
    destruct (JS.isWhite c) eqn:Hc.
    + rewrite (Hk _ _ _ _ Hc), option_eta, IH, append_snoc.
      now destruct (Props.leading JS.isWhite rest).
    + now rewrite append_nil_r.
Qed.

Lemma tick_not_white (c : ascii) : JS.isWhite c = true -> Ascii.eqb tick c = false.
Proof.
  destruct (Ascii.eqb_spec tick c) as [<-|]; [discriminate | reflexivity].
Qed.

(** [/^.*?```json\s*/s] *)

Lemma exec_fenceOpen_fenced (pre rest : string) :
  JS.includes "`" pre = false ->
  exec reFenceOpen true (pre ++ "```json" ++ rest) =
  Some (pre ++ "```json" ++ Props.leading JS.isWhite rest, JS.trimStart rest).
Proof.
  intro Hp. unfold exec, reFenceOpen. cbn [run].
  rewrite (star_lazy_skip "`" _ pre _ (needs_lit _ _ _) Hp).
  rewrite star_lazy_unfold, run_lit.
  rewrite (startsWith_append "```json" rest), drop_append.
  change (run (Star true AWhite) accept) with (star true AWhite accept).
  rewrite star_white_accept. now rewrite !append_assoc.
Qed.

Lemma searchFrom_fenceOpen_later (s pre0 : string) :
  searchFrom reFenceOpen pre0 false s = None.
Proof.
  revert pre0. induction s as [|c s IH]; intro pre0; [reflexivity|].
  cbn [searchFrom]. unfold exec at 1, reFenceOpen at 1. cbn [run]. apply IH.
Qed.

Lemma firstMatch_fenceOpen_plain (s : string) :
  JS.includes "`" s = false -> firstMatch reFenceOpen s = None.
Proof.
  intro Hs. unfold firstMatch.
  assert (He : exec reFenceOpen true s = None).
  { unfold exec, reFenceOpen. cbn [run].
    exact (star_lazy_fail "`" _ s (needs_lit _ _ _) Hs true EmptyString). }
  destruct s as [|c s]; cbn [searchFrom]; rewrite He; [reflexivity|].
  apply searchFrom_fenceOpen_later.
Qed.

Lemma star_lazy_fail_lit (p : string) (k : cont) (s : string) :
  JS.includes p s = false ->
  forall b m, star false AAny (run (lit p) k) b m s = None.
Proof.
  induction s as [|c s IH]; intros Hs b m; rewrite star_lazy_unfold, run_lit;
    rewrite (includes_false_startsWith _ _ Hs); [reflexivity|].
  apply IH. now apply includes_false_tail in Hs.
Qed.

Lemma firstMatch_fenceOpen_untagged (s : string) :
  JS.includes "```json" s = false -> firstMatch reFenceOpen s = None.
Proof.
  intro Hs. unfold firstMatch.
  assert (He : exec reFenceOpen true s = None).
  { unfold exec, reFenceOpen. cbn [run].
    exact (star_lazy_fail_lit "```json" _ s Hs true EmptyString). }
  destruct s as [|c s]; cbn [searchFrom]; rewrite He; [reflexivity|].
  apply searchFrom_fenceOpen_later.
Qed.

(** [/\s*```.*$/s] *)

Lemma exec_fenceClose (b : bool) (s : string) :
  exec reFenceClose b s =
  if JS.startsWith "```" (JS.trimStart s) then Some (s, EmptyString) else None.
Proof.
  unfold exec, reFenceClose. cbn [run].
  rewrite star_white_skip.
  - rewrite run_lit. destruct (JS.startsWith "```" (JS.trimStart s)) eqn:Hs; [|reflexivity].
    cbn [run]. rewrite star_any_eol. cbn [append].
    rewrite append_assoc.
    change ("```" ++ JS.drop (String.length "```") (JS.trimStart s))
      with ("```" ++ JS.drop 3 (JS.trimStart s)).
    apply startsWith_split in Hs. cbn [String.length] in Hs. rewrite <- Hs.
    now rewrite <- trimStart_split.
  - intros b0 m c rest Hc. rewrite run_lit. cbn [JS.startsWith].
    change "`"%char with tick. now rewrite (tick_not_white _ Hc).
Qed.

Lemma startsWith_ticks_plain (s rest : string) :
  JS.includes "`" s = false -> s <> EmptyString ->
  JS.startsWith "```" (s ++ rest) = false.
Proof.
  intros Hs Hne. destruct s as [|c s]; [now elim Hne|].
  apply includes_char_cons in Hs as [Hc _].
  cbn [append JS.startsWith]. now rewrite Ascii.eqb_sym, Hc.
Qed.

Lemma searchFrom_unfold (r : rx) (pre0 : string) (b : bool) (s : string) :
  searchFrom r pre0 b s =
  match exec r b s with
  | Some (m, af) => Some (pre0, m, af)
  | None =>
      match s with
      | String c s' => searchFrom r (pre0 ++ String c EmptyString) false s'
      | EmptyString => None
      end
  end.
Proof. destruct s; reflexivity. Qed.

Lemma searchFrom_fenceClose_fenced (body post : string) :
  JS.includes "`" body = false ->
  forall pre0 b, exists m,
    searchFrom reFenceClose pre0 b (body ++ "```" ++ post) =
    Some (pre0 ++ JS.trimEnd body, m, EmptyString).
Proof.
  set (T := "```" ++ post).
  assert (HTs : forall x, JS.trimStart (x ++ T) = JS.trimStart x ++ T).
  { intro x. apply (trimStart_append x "`" ("``" ++ post)). reflexivity. }
  assert (HTw : JS.startsWith "```" T = true) by apply startsWith_append.
  induction body as [|c body IH]; intros Hb pre0 b.
  - change (EmptyString ++ T) with T. exists T.
    rewrite searchFrom_unfold, exec_fenceClose.
    change T with (EmptyString ++ T) at 1. rewrite HTs.
    change (JS.trimStart EmptyString ++ T) with T. rewrite HTw.
    cbn [JS.trimEnd]. now rewrite append_nil_r.
  - pose proof Hb as Hb'. apply includes_char_cons in Hb' as [Hc Hbody].
    rewrite searchFrom_unfold, exec_fenceClose, HTs.
    destruct (Props.all JS.isWhite (String c body)) eqn:Hw.
    + rewrite (trimStart_white _ Hw).
      change (EmptyString ++ T) with T. rewrite HTw.
      apply trimEnd_white in Hw. rewrite Hw, append_nil_r. eexists. reflexivity.
    + assert (Hne : JS.trimStart (String c body) <> EmptyString).
      { intro He. apply trimStart_empty in He. congruence. }
      rewrite (startsWith_ticks_plain _ _ (trimStart_lacks _ _ Hb) Hne).
      change (String c body ++ T) with (String c (body ++ T)). cbv iota.
      destruct (IH Hbody (pre0 ++ String c EmptyString) false) as [m Hm].
      exists m. rewrite Hm. f_equal. f_equal. f_equal.
      rewrite append_snoc. f_equal. symmetry. apply trimEnd_cons.
      cbn [Props.all] in Hw. apply andb_false_iff in Hw as [Hw|Hw]; [now right | left].
      intro He. apply trimEnd_white in He. congruence.
Qed.

Lemma searchFrom_fenceClose_plain (s : string) :
  JS.includes "`" s = false ->
  forall pre0 b, searchFrom reFenceClose pre0 b s = None.
Proof.
  assert (He : forall x b, JS.includes "`" x = false -> exec reFenceClose b x = None).
  { intros x b Hx. rewrite exec_fenceClose.
    pose proof (trimStart_lacks _ _ Hx) as Ht.
    destruct (JS.trimStart x) as [|d t]; [reflexivity|].
    apply includes_char_cons in Ht as [Hd _].
    cbn [JS.startsWith]. now rewrite Ascii.eqb_sym, Hd. }
  induction s as [|c s IH]; intros Hs pre0 b; cbn [searchFrom]; rewrite (He _ _ Hs).
  - reflexivity.
  - apply includes_char_cons in Hs as [_ Hs]. now apply IH.
Qed.

(** [/^`+|`+$/g] *)

Lemma exec_ticks_plain (b : bool) (s : string) :
  JS.startsWith "`" s = false -> exec reTicks b s = None.
Proof.
  intro Hs. unfold exec, reTicks, plus. cbn [run].
  destruct s as [|c s]; [now destruct b|].
  cbn [JS.startsWith] in Hs. rewrite andb_true_r in Hs.
  cbn [accepts]. change tick with "`"%char. rewrite Hs. now destruct b.
Qed.

Lemma replaceAllFrom_ticks_plain (s : string) :
  JS.includes "`" s = false ->
  forall pre0 b, replaceAllFrom reTicks EmptyString pre0 0 b s = s.
Proof.
  induction s as [|c s IH]; intros Hs pre0 b; cbn [replaceAllFrom].
  - now rewrite exec_ticks_plain.
  - rewrite exec_ticks_plain by now apply includes_false_startsWith.
    apply includes_char_cons in Hs as [_ Hs]. now rewrite IH.
Qed.

(** [/\[[\s\S]*\]/] *)

Lemma splitLast_sound (c : ascii) (s : string) :
  forall x y, Props.splitLast c s = Some (x, y) ->
    s = x ++ String c y /\ JS.includes (String c EmptyString) y = false.
Proof.
  induction s as [|d s IH]; intros x y H; [discriminate|].
  cbn [Props.splitLast] in H. destruct (Props.splitLast c s) as [[x' y']|] eqn:E.
  - injection H as <- <-. destruct (IH _ _ eq_refl) as [-> Hy]. now split.
  - destruct (Ascii.eqb_spec c d) as [->|]; [|discriminate].
    injection H as <- <-. split; [reflexivity|].
    clear IH. induction s as [|e s IHs]; [reflexivity|].
    cbn [Props.splitLast] in E. destruct (Props.splitLast d s) as [[? ?]|]; [discriminate|].
    destruct (Ascii.eqb_spec d e); [discriminate|].
    apply includes_char_false_cons; [now apply Ascii.eqb_neq; auto | now apply IHs].
Qed.

Lemma splitLast_lacks (c : ascii) (s : string) :
  JS.includes (String c EmptyString) s = false -> Props.splitLast c s = None.
Proof.
  induction s as [|d s IH]; intro H; [reflexivity|].
  apply includes_char_cons in H as [Hd Hs].
  cbn [Props.splitLast]. rewrite (IH Hs). now rewrite Ascii.eqb_sym, Hd.
Qed.

Lemma splitLast_append (c : ascii) (x b : string) :
  JS.includes (String c EmptyString) b = false ->
  Props.splitLast c (x ++ String c b) = Some (x, b).
Proof.
  intro Hb. induction x as [|d x IH]; cbn [append Props.splitLast].
  - now rewrite (splitLast_lacks _ _ Hb), Ascii.eqb_refl.
  - now rewrite IH.
Qed.

Lemma star_any_last (c : ascii) (input : string) :
  forall b m,
    star true AAny (run (One (AChr c)) accept) b m input =
    match Props.splitLast c input with
    | Some (x, y) => Some (m ++ x ++ String c EmptyString, y)
    | None => None
    end.
Proof.
  induction input as [|d rest IH]; intros b m; [reflexivity|].
  cbn [star accepts Props.splitLast]. rewrite IH.
  destruct (Props.splitLast c rest) as [[x y]|].
  - now rewrite append_snoc.
  - cbn [run accepts]. destruct (Ascii.eqb_spec c d) as [->|]; reflexivity.
Qed.

Lemma exec_array (b : bool) (s : string) :
  exec reArray b s =
  match s with
  | String c rest =>
      if Ascii.eqb "[" c then
        match Props.splitLast "]" rest with
        | Some (mid, y) => Some ("[" ++ mid ++ "]", y)
        | None => None
        end
      else None
  | EmptyString => None
  end.
Proof.
  unfold exec, reArray. destruct s as [|c rest]; [reflexivity|].
  change (run (Seq (One (AChr "[")) (Seq (Star true AAny) (One (AChr "]"))))
            accept b EmptyString (String c rest))
    with (if accepts (AChr "[") c
          then star true AAny (run (One (AChr "]")) accept) false
                 (EmptyString ++ String c EmptyString) rest
          else None).
  cbn [accepts]. destruct (Ascii.eqb_spec "[" c) as [<-|]; [|reflexivity].
  rewrite star_any_last. reflexivity.
Qed.

Lemma exec_array_sound (b : bool) (s m af : string) :
  exec reArray b s = Some (m, af) ->
  s = m ++ af /\ exists mid, m = "[" ++ mid ++ "]".
Proof.
  rewrite exec_array. destruct s as [|c rest]; [discriminate|].
  destruct (Ascii.eqb_spec "[" c) as [<-|]; [|discriminate].
  destruct (Props.splitLast "]" rest) as [[mid y]|] eqn:E; [|discriminate].
  intro H. injection H as <- <-. apply splitLast_sound in E as [-> _].
  split; [|now exists mid]. cbn [append]. now rewrite append_assoc.
Qed.

Lemma searchFrom_array_sound (s : string) :
  forall pre0 b bf m af,
    searchFrom reArray pre0 b s = Some (bf, m, af) ->
    pre0 ++ s = bf ++ m ++ af /\ exists mid, m = "[" ++ mid ++ "]".
Proof.
  induction s as [|c s IH]; intros pre0 b bf m af H; cbn [searchFrom] in H.
  - destruct (exec reArray b EmptyString) as [[m' af']|] eqn:E; [|discriminate].
    injection H as <- <- <-. apply exec_array_sound in E as [-> Hm]. now split.
  - destruct (exec reArray b (String c s)) as [[m' af']|] eqn:E.
    + injection H as <- <- <-. apply exec_array_sound in E as [-> Hm]. now split.
    + apply IH in H as [H Hm]. rewrite append_snoc in H. now split.
Qed.

Lemma searchFrom_array_span (a mid b : string) :
  JS.includes "[" a = false -> JS.includes "]" b = false ->
  forall pre0 fl,
    searchFrom reArray pre0 fl (a ++ "[" ++ mid ++ "]" ++ b) =
    Some (pre0 ++ a, "[" ++ mid ++ "]", b).
Proof.
  intros Ha Hb. induction a as [|c a IH]; intros pre0 fl.
  - cbn [append]. cbn [searchFrom]. rewrite exec_array.
    replace (Ascii.eqb "[" "[") with true by reflexivity.
    change (mid ++ String "]" b) with (mid ++ String "]" b).
    rewrite (splitLast_append "]" mid b Hb). now rewrite append_nil_r.
  - apply includes_char_cons in Ha as [Hc Ha].
    cbn [append searchFrom]. rewrite exec_array. rewrite Ascii.eqb_sym, Hc.
    rewrite (IH Ha). now rewrite append_snoc.
Qed.

Lemma searchFrom_array_none (a x : string) :
  forall pre0 fl,
    searchFrom reArray pre0 fl (a ++ x) = None ->
    exists fl', exec reArray fl' x = None.
Proof.
  induction a as [|c a IH]; intros pre0 fl H.
  - cbn [append] in H. exists fl. destruct x; cbn [searchFrom] in H;
      destruct (exec reArray fl _) as [[? ?]|]; try discriminate; reflexivity.
  - cbn [append searchFrom] in H.
    destruct (exec reArray fl (String c (a ++ x))) as [[? ?]|]; [discriminate|].
    now apply IH in H.
Qed.

Lemma firstMatch_array_none (s : string) :
  firstMatch reArray s = None <->
  forall a mid b, s <> a ++ "[" ++ mid ++ "]" ++ b.
Proof.
  unfold firstMatch. split.
  - intros H a mid b ->. apply searchFrom_array_none in H as [fl H].
    rewrite exec_array in H. cbn [append] in H.
    replace (Ascii.eqb "[" "[") with true in H by reflexivity.
    destruct (Props.splitLast "]" (mid ++ String "]" b)) as [[? ?]|] eqn:E; [discriminate|].
    assert (Hin : JS.includes "]" (mid ++ String "]" b) = true).
    { apply includes_split. now exists mid, b. }
    destruct (JS.includes "]" (mid ++ String "]" b)) eqn:Hi; [|discriminate].
    clear H Hin. revert E Hi. generalize (mid ++ String "]" b). intro t.
    induction t as [|d t IHt]; [discriminate|]. cbn [Props.splitLast].
    destruct (Props.splitLast "]" t) as [[? ?]|]; [discriminate|].
    destruct (Ascii.eqb_spec "]" d) as [|Hd]; [discriminate|].
    intros _ Hi. cbn [JS.includes JS.startsWith] in Hi.
    apply Ascii.eqb_neq in Hd. rewrite Hd in Hi. cbn [andb orb] in Hi.
    destruct t; [discriminate | now apply IHt].
  - intro H. destruct (searchFrom reArray EmptyString true s) as [[[bf m] af]|] eqn:E;
      [|reflexivity].
    apply searchFrom_array_sound in E as [Hs [mid ->]]. cbn [append] in Hs.
    elim (H bf mid af). rewrite Hs. cbn [append]. now rewrite append_assoc.
Qed.

End Cleaning.

Section CleaningSteps.

Import Rx Upload.

Lemma replaceFirst_fenceOpen_plain (s : string) :
  JS.includes "`" s = false -> replaceFirst reFenceOpen EmptyString s = s.
Proof. intro H. unfold replaceFirst. now rewrite firstMatch_fenceOpen_plain. Qed.

Lemma replaceFirst_fenceClose_plain (s : string) :
  JS.includes "`" s = false -> replaceFirst reFenceClose EmptyString s = s.
Proof.
  intro H. unfold replaceFirst, firstMatch. now rewrite searchFrom_fenceClose_plain.
Qed.

Lemma replaceAll_ticks_plain (s : string) :
  JS.includes "`" s = false -> replaceAll reTicks EmptyString s = s.
Proof. intro H. now apply replaceAllFrom_ticks_plain. Qed.

Lemma replaceFirst_fenceOpen_fenced (pre rest : string) :
  JS.includes "`" pre = false ->
  replaceFirst reFenceOpen EmptyString (pre ++ "```json" ++ rest) = JS.trimStart rest.
Proof.
  intro H. unfold replaceFirst, firstMatch.
  rewrite searchFrom_unfold, (exec_fenceOpen_fenced _ _ H). reflexivity.
Qed.

Lemma replaceFirst_fenceClose_fenced (body post : string) :
  JS.includes "`" body = false ->
  replaceFirst reFenceClose EmptyString (body ++ "```" ++ post) = JS.trimEnd body.
Proof.
  intro H. unfold replaceFirst, firstMatch.
  destruct (searchFrom_fenceClose_fenced body post H EmptyString true) as [m ->].
  cbn. now rewrite append_nil_r.
Qed.

Lemma trim_fenced (pre mid post : string) :
  JS.trim (pre ++ String "`" (mid ++ String "`" post)) =
  JS.trimStart pre ++ String "`" (mid ++ String "`" (JS.trimEnd post)).
Proof.
  unfold JS.trim. rewrite trimStart_append by reflexivity.
  transitivity (JS.trimEnd ((JS.trimStart pre ++ String "`" mid) ++ String "`" post)).
  { f_equal. now rewrite append_assoc. }
  rewrite trimEnd_append.
  - rewrite trimEnd_cons by now right. now rewrite append_assoc.
  - rewrite trimEnd_cons by now right. discriminate.
Qed.

Lemma stripFences_block (pre body post : string) :
  JS.includes "`" pre = false -> JS.includes "`" body = false ->
  stripFences (pre ++ "```json" ++ body ++ "```" ++ post) = JS.trim body.
Proof.
  intros Hpre Hbody. unfold stripFences.
  assert (Ht : JS.trim (pre ++ "```json" ++ body ++ "```" ++ post) =
               JS.trimStart pre ++ "```json" ++ body ++ "```" ++ JS.trimEnd post).
  { transitivity (JS.trim (pre ++ String "`" (("``json" ++ body ++ "``") ++ String "`" post))).
    { cbn [append]. now rewrite !append_assoc. }
    rewrite trim_fenced. cbn [append]. now rewrite !append_assoc. }
  rewrite Ht.
  rewrite (replaceFirst_fenceOpen_fenced _ _ (trimStart_lacks _ _ Hpre)).
  change (body ++ "```" ++ JS.trimEnd post)
    with (body ++ String "`" ("``" ++ JS.trimEnd post)).
  rewrite (trimStart_append body "`" ("``" ++ JS.trimEnd post)) by reflexivity.
  change (JS.trimStart body ++ String "`" ("``" ++ JS.trimEnd post))
    with (JS.trimStart body ++ "```" ++ JS.trimEnd post).
  rewrite (replaceFirst_fenceClose_fenced _ _ (trimStart_lacks _ _ Hbody)).
  change (JS.trimEnd (JS.trimStart body)) with (JS.trim body).
  rewrite (replaceAll_ticks_plain _ (trim_lacks _ _ Hbody)).
  apply trim_fixed.
Qed.

Lemma extractArray_between (a mid b : string) :
  JS.includes "[" a = false -> JS.includes "]" b = false ->
  extractArray (a ++ "[" ++ mid ++ "]" ++ b) = "[" ++ mid ++ "]".
Proof.
  intros Ha Hb. unfold extractArray, firstMatch.
  now rewrite (searchFrom_array_span a mid b Ha Hb).
Qed.

End CleaningSteps.

(** *** The five patterns of a key on plain documents *)

Lemma untilBrace_sound (s : string) :
  forall b r, untilBrace s = Some (b, r) ->
    s = b ++ String "}" r /\ JS.includes "}" b = false.
Proof.
  induction s as [|c s IH]; intros b r H; [discriminate|].
  cbn [untilBrace] in H. destruct (Ascii.eqb_spec "}" c) as [<-|Hc].
  - injection H as <- <-. now split.
  - destruct (untilBrace s) as [[b' r']|]; [|discriminate].
    injection H as <- <-. destruct (IH _ _ eq_refl) as [-> Hb]. split; [reflexivity|].
    apply includes_char_false_cons; [|exact Hb].
    apply Ascii.eqb_neq. auto.
Qed.

Lemma untilBrace_total (x y : string) : untilBrace (x ++ String "}" y) <> None.
Proof.
  induction x as [|c x IH]; cbn [append untilBrace].
  - discriminate.
  - destruct (Ascii.eqb "}" c); [discriminate|].
    destruct (untilBrace (x ++ String "}" y)) as [[? ?]|]; [discriminate | exact IH].
Qed.

Lemma test_definition (pre doc : string) :
  test (Open :: chars pre ++ starTail) doc = true <->
  exists a body b, doc = a ++ pre ++ body ++ String "}" b.
Proof.
  split.
  - induction doc as [|c doc IH]; cbn [test]; rewrite exec_definition.
    + destruct (JS.startsWith pre EmptyString) eqn:Hp; [|discriminate].
      apply startsWith_split in Hp. destruct pre; [|discriminate]. discriminate.
    + destruct (JS.startsWith pre (String c doc)) eqn:Hp.
      * destruct (untilBrace _) as [[bd r]|] eqn:Hu.
        -- intros _. apply startsWith_split in Hp. apply untilBrace_sound in Hu as [Hu _].
           exists EmptyString, bd, r. rewrite Hp at 1. now rewrite Hu.
        -- intro H. destruct (IH H) as (a & bd & b & ->). now exists (String c a), bd, b.
      * intro H. destruct (IH H) as (a & bd & b & ->). now exists (String c a), bd, b.
  - intros (a & body & b & ->). induction a as [|c a IH].
    + cbn [append].
      assert (He : exec (Open :: chars pre ++ starTail) (pre ++ body ++ String "}" b) <> None).
      { rewrite exec_definition, startsWith_append, drop_append.
        pose proof (untilBrace_total body b) as Hu.
        destruct (untilBrace (body ++ String "}" b)) as [[? ?]|]; [discriminate | now elim Hu]. }
      destruct (pre ++ body ++ String "}" b); cbn [test];
        destruct (exec _ _); try reflexivity; now elim He.
    + cbn [append test]. destruct (exec _ _); [reflexivity | exact IH].
Qed.

Lemma test_definition_lacks (pre doc : string) :
  JS.includes pre doc = false -> test (Open :: chars pre ++ starTail) doc = false.
Proof.
  intro H. destruct (test _ doc) eqn:E; [|reflexivity].
  apply test_definition in E as (a & body & b & ->).
  rewrite includes_append_l in H; [discriminate | apply includes_self].
Qed.

Lemma includes_skip (d : ascii) (p x y : string) :
  JS.includes (String d EmptyString) x = false ->
  JS.includes (String d p) (x ++ y) = JS.includes (String d p) y.
Proof.
  induction x as [|c x IH]; intro H; [reflexivity|].
  apply includes_char_cons in H as [Hc Hx].
  cbn [append JS.includes JS.startsWith]. rewrite (Ascii.eqb_sym d c), Hc.
  cbn [andb orb]. now apply IH.
Qed.

Lemma includes_cons_pattern (d : ascii) (p s : string) :
  JS.includes (String d p) (String d s) =
  JS.startsWith p s || JS.includes (String d p) s.
Proof. cbn [JS.includes JS.startsWith]. now rewrite Ascii.eqb_refl. Qed.

Lemma startsWith_needs_char (d : ascii) (x y s : string) :
  JS.includes (String d EmptyString) s = false ->
  JS.startsWith (x ++ String d y) s = false.
Proof.
  intro H. apply includes_false_startsWith. now apply includes_needs_char.
Qed.

Lemma all_lacks (p : ascii -> bool) (d : ascii) (s : string) :
  p d = false -> Props.all p s = true -> JS.includes (String d EmptyString) s = false.
Proof.
  intros Hd. induction s as [|c s IH]; [reflexivity|]. cbn [Props.all].
  intro H. apply andb_true_iff in H as [Hc Hs].
  apply includes_char_false_cons; [|now apply IH].
  destruct (Ascii.eqb_spec c d) as [->|]; [congruence | reflexivity].
Qed.

Lemma text_lacks (d : ascii) (s : string) :
  Props.special d || Ascii.eqb d "<" = true -> Props.text s = true ->
  JS.includes (String d EmptyString) s = false.
Proof.
  intros Hd. apply all_lacks.
  destruct (Props.special d); [reflexivity|]. cbn in Hd |- *. now rewrite Hd.
Qed.

Lemma text_plain (s : string) :
  Props.text s = true -> Props.all (fun c => negb (Props.special c)) s = true.
Proof.
  unfold Props.text. induction s as [|c s IH]; [reflexivity|]. cbn [Props.all].
  intro H. apply andb_true_iff in H as [Hc Hs]. apply andb_true_iff in Hc as [Hc _].
  now rewrite Hc, IH.
Qed.

Lemma escaped_lacks_dollar (val : string) :
  JS.includes "$" val = false -> JS.includes "$" (flatMap escapedChar val) = false.
Proof.
  induction val as [|c val IH]; intro H; [reflexivity|].
  apply includes_char_cons in H as [Hc Hv]. cbn [flatMap].
  apply includes_char_append_false; [|now apply IH].
  destruct (escapedChar_class c) as [[-> ->]|[[_ ->]|[_ ->]]].
  - reflexivity.
  - apply includes_char_false_cons; [reflexivity|].
    now apply includes_char_false_cons.
  - now apply includes_char_false_cons.
Qed.

(** Where no match can start. *)
Lemma replaceFrom_segment (re : list node) (d : ascii) (tpl seg rest : string) :
  (forall c s, Ascii.eqb c d = false -> exec re (String c s) = None) ->
  JS.includes (String d EmptyString) seg = false ->
  forall bf,
    replaceFrom re tpl bf 0 (seg ++ rest) =
    seg ++ replaceFrom re tpl (bf ++ seg) 0 rest.
Proof.
  intros Hre. induction seg as [|c seg IH]; intros Hs bf.
  - cbn. now rewrite append_nil_r.
  - apply includes_char_cons in Hs as [Hc Hs].
    cbn [append replaceFrom]. rewrite (Hre _ _ Hc), (IH Hs), append_snoc. reflexivity.
Qed.

Lemma replaceFrom_skip (re : list node) (tpl x rest : string) :
  forall bf,
    replaceFrom re tpl bf (String.length x) (x ++ rest) =
    replaceFrom re tpl (bf ++ x) 0 rest.
Proof.
  induction x as [|c x IH]; intro bf.
  - cbn. now rewrite append_nil_r.
  - cbn [append String.length replaceFrom]. now rewrite IH, append_snoc.
Qed.

(** A match at the start of what is left. *)
Lemma replaceFrom_match (re : list node) (tpl bf : string) (c : ascii) (m rest : string)
    (caps : list string) :
  exec re (String c m ++ rest) = Some (mkResult (String c m) caps rest) ->
  replaceFrom re tpl bf 0 (String c m ++ rest) =
  getSubstitution (String c m) bf rest caps tpl ++
  replaceFrom re tpl (bf ++ String c m) 0 rest.
Proof.
  intro He. cbn [append] in *. cbn [replaceFrom]. rewrite He.
  cbn [matched captures after String.length]. rewrite replaceFrom_skip.
  now rewrite append_snoc.
Qed.

Lemma exec_chars_other (d : ascii) (p : string) (c : ascii) (s : string) :
  Ascii.eqb c d = false -> exec (chars (String d p)) (String c s) = None.
Proof.
  intro H. rewrite exec_chars. cbn [JS.startsWith]. now rewrite Ascii.eqb_sym, H.
Qed.

Lemma exec_definition_other (d : ascii) (p : string) (c : ascii) (s : string) :
  Ascii.eqb c d = false ->
  exec (Open :: chars (String d p) ++ starTail) (String c s) = None.
Proof.
  intro H. rewrite exec_definition. cbn [JS.startsWith]. now rewrite Ascii.eqb_sym, H.
Qed.

Lemma replaceFrom_concat (d : ascii) (p v : string) (segs : list string) :
  JS.includes "$" v = false ->
  (forall s, In s segs -> JS.includes (String d EmptyString) s = false) ->
  forall bf,
    replaceFrom (chars (String d p)) v bf 0 (String.concat (String d p) segs) =
    String.concat v segs.
Proof.
  intros Hv. induction segs as [|x segs IH]; intros Hs bf.
  - reflexivity.
  - assert (Hx : JS.includes (String d EmptyString) x = false) by (apply Hs; now left).
    destruct segs as [|y segs].
    + cbn [String.concat].
      pose proof (replaceFrom_segment (chars (String d p)) d v x EmptyString
                    (exec_chars_other d p) Hx bf) as Hseg.
      rewrite append_nil_r in Hseg. rewrite Hseg.
      cbn [replaceFrom]. rewrite exec_chars. cbn. apply append_nil_r.
    + change (String.concat (String d p) (x :: y :: segs))
        with (x ++ String d p ++ String.concat (String d p) (y :: segs)).
      change (String.concat v (x :: y :: segs))
        with (x ++ v ++ String.concat v (y :: segs)).
      rewrite (replaceFrom_segment (chars (String d p)) d v x _ (exec_chars_other d p) Hx).
      rewrite replaceFrom_match with (caps := []).
      * rewrite (getSubstitution_plain_all _ _ _ _ _ Hv).
        rewrite IH; [reflexivity|]. intros s Hin. apply Hs. now right.
      * rewrite exec_chars, startsWith_append, drop_append. reflexivity.
Qed.

Lemma concat_lacks (d : ascii) (sep : string) (segs : list string) :
  JS.includes (String d EmptyString) sep = false ->
  (forall s, In s segs -> JS.includes (String d EmptyString) s = false) ->
  JS.includes (String d EmptyString) (String.concat sep segs) = false.
Proof.
  intros Hsep. induction segs as [|x segs IH]; intro Hs; [reflexivity|].
  assert (Hx : JS.includes (String d EmptyString) x = false) by (apply Hs; now left).
  destruct segs as [|y segs]; [exact Hx|].
  change (String.concat sep (x :: y :: segs))
    with (x ++ sep ++ String.concat sep (y :: segs)).
  rewrite !includes_char_append, Hx, Hsep, IH; [reflexivity|].
  intros s Hin. apply Hs. now right.
Qed.

(** A closing brace ends the key and the value at the same place. *)
Lemma startsWith_closed (k v rest : string) :
  JS.includes "}" k = false -> JS.includes "}" v = false ->
  JS.startsWith (k ++ "}") (v ++ String "}" rest) = true -> k = v.
Proof.
  revert v. induction k as [|c k IH]; intros [|e v] Hk Hv H.
  - reflexivity.
  - apply includes_char_cons in Hv as [He _].
    cbn [append JS.startsWith] in H. rewrite Ascii.eqb_sym, He in H. discriminate.
  - apply includes_char_cons in Hk as [Hc _].
    cbn [append JS.startsWith] in H. rewrite Hc in H. discriminate.
  - apply includes_char_cons in Hk as [_ Hk]. apply includes_char_cons in Hv as [_ Hv].
    cbn [append JS.startsWith] in H. apply andb_true_iff in H as [Hce H].
    apply Ascii.eqb_eq in Hce. subst e. now rewrite (IH v Hk Hv H).
Qed.

(** One definition in a text that holds its first character nowhere else. *)
Lemma replace_definition_once (d : ascii) (p a old b v : string) :
  JS.includes (String d EmptyString) a = false ->
  JS.includes (String d EmptyString) b = false ->
  JS.includes "}" old = false -> JS.includes "$" v = false ->
  replace (Open :: chars (String d p) ++ starTail) ("$1" ++ v ++ "$2")
    (a ++ String d p ++ old ++ String "}" b)
  = a ++ String d p ++ v ++ String "}" b.
Proof.
  intros Ha Hb Hold Hv. unfold replace.
  rewrite (replaceFrom_segment _ d _ a _ (exec_definition_other d p) Ha). f_equal.
  assert (Hm : String d p ++ old ++ String "}" b = String d (p ++ old ++ "}") ++ b).
  { cbn [append]. now rewrite !append_assoc. }
  assert (He : exec (Open :: chars (String d p) ++ starTail)
                 (String d (p ++ old ++ "}") ++ b) =
               Some (mkResult (String d (p ++ old ++ "}")) [String d p; "}"] b)).
  { rewrite <- Hm. rewrite exec_definition, startsWith_append, drop_append.
    now rewrite (untilBrace_body _ _ Hold). }
  rewrite Hm, (replaceFrom_match _ _ _ _ _ _ _ He).
  rewrite (getSubstitution_groups _ _ _ (String d p) "}" v Hv).
  pose proof (replaceFrom_segment _ d ("$1" ++ v ++ "$2") b EmptyString
                (exec_definition_other d p) Hb
                ((EmptyString ++ a) ++ String d (p ++ old ++ "}"))) as Hseg.
  rewrite append_nil_r in Hseg. rewrite Hseg.
  cbn [replaceFrom]. rewrite exec_definition.
  cbn [JS.startsWith]. rewrite append_nil_r. cbn [append]. now rewrite !append_assoc.
Qed.

(** *** Templates of plain text and double-angle placeholders *)






























(** *** A definition in plain text *)

Lemma definitionsHold_skip (d : ascii) (p s x y : string) :
  JS.includes (String d EmptyString) x = false ->
  definitionsHold (String d p) s (x ++ y) = definitionsHold (String d p) s y.
Proof.
  induction x as [|c x IH]; intro Hx; [reflexivity|].
  apply includes_char_cons in Hx as [Hc Hx].
  cbn [append definitionsHold JS.startsWith].
  rewrite Ascii.eqb_sym, Hc. cbn [andb negb orb]. now apply IH.
Qed.

(** The document with the definition of [key] rewritten to [val]: what it
    holds of the patterns of [key]. *)
Lemma definition_clean (key val a b : string) :
  Props.text key = true -> Props.text val = true -> val <> key ->
  Props.text a = true -> Props.text b = true ->
  let doc := a ++ ("\newcommand{\" ++ key ++ "}{") ++ val ++ "}" ++ b in
  definitionsHold ("\newcommand{\" ++ key ++ "}{") val doc = true /\
  JS.includes ("\def\" ++ key ++ "{") doc = false /\
  JS.includes ("{" ++ key ++ "}") doc = false /\
  JS.includes ("<<" ++ key ++ ">>") doc = false.
Proof.
  intros Hkey Hval Hne Ha Hb.
  set (head := "\newcommand{\" ++ key ++ "}{").
  set (doc := a ++ head ++ val ++ "}" ++ b). cbn zeta.
  set (tail2 := val ++ "}" ++ b).
  set (tail1 := key ++ "}" ++ String "{" tail2).
  assert (Hdoc : doc = a ++ "\newcommand" ++ String "{" (String "\" tail1)).
  { unfold doc, head, tail1, tail2. cbn [append]. now rewrite !append_assoc. }
  assert (Hb1 : JS.includes "\" tail1 = false).
  { unfold tail1, tail2.
    change (key ++ "}" ++ String "{" (val ++ "}" ++ b))
      with (key ++ "}{" ++ val ++ "}" ++ b).
    rewrite !includes_char_append,
      (text_lacks "\" key eq_refl Hkey), (text_lacks "\" val eq_refl Hval),
      (text_lacks "\" b eq_refl Hb). reflexivity. }
  split; [|split; [|split]].
  - change head with (String "\" ("newcommand{\" ++ key ++ "}{")).
    unfold doc.
    rewrite (definitionsHold_skip "\" _ val a _ (text_lacks "\" a eq_refl Ha)).
    assert (Hfull : JS.startsWith
                      (String "\" ("newcommand{\" ++ key ++ "}{") ++ val ++ "}")
                      (head ++ val ++ "}" ++ b) = true).
    { replace (head ++ val ++ "}" ++ b) with ((head ++ val ++ "}") ++ b)
        by now rewrite !append_assoc.
      exact (startsWith_append (head ++ val ++ "}") b). }
    replace (head ++ val ++ "}" ++ b)
      with (String "\" ("newcommand{" ++ String "\" tail1)) in *
      by (unfold head, tail1, tail2; cbn [append]; now rewrite !append_assoc).
    cbn [definitionsHold]. rewrite Hfull, orb_true_r. cbn [andb].
    rewrite (definitionsHold_skip "\" _ val "newcommand{" _ eq_refl).
    cbn [definitionsHold].
    replace (JS.startsWith (String "\" ("newcommand{\" ++ key ++ "}{")) (String "\" tail1))
      with (JS.startsWith ("newcommand{" ++ String "\" (key ++ "}{")) tail1)
      by reflexivity.
    rewrite (startsWith_needs_char "\" "newcommand{" (key ++ "}{") tail1 Hb1).
    cbn [negb orb andb].
    rewrite <- (append_nil_r tail1).
    rewrite (definitionsHold_skip "\" _ val tail1 EmptyString Hb1).
    reflexivity.
  - rewrite Hdoc.
    change ("\def\" ++ key ++ "{") with (String "\" ("def\" ++ key ++ "{")).
    rewrite (includes_skip "\" _ a) by exact (text_lacks "\" a eq_refl Ha).
    change ("\newcommand" ++ String "{" (String "\" tail1))
      with (String "\" ("newcommand{" ++ String "\" tail1)).
    rewrite includes_cons_pattern.
    replace (JS.startsWith ("def\" ++ key ++ "{") ("newcommand{" ++ String "\" tail1))
      with false by reflexivity.
    cbn [orb]. rewrite (includes_skip "\" _ "newcommand{") by reflexivity.
    rewrite includes_cons_pattern. apply orb_false_iff. split.
    + exact (startsWith_needs_char "\" "def" (key ++ "{") tail1 Hb1).
    + exact (includes_needs_char "\" EmptyString ("def\" ++ key ++ "{") tail1 Hb1).
  - rewrite Hdoc.
    change ("{" ++ key ++ "}") with (String "{" (key ++ "}")).
    rewrite <- append_assoc.
    rewrite (includes_skip "{" _ (a ++ "\newcommand"))
      by (rewrite includes_char_append, (text_lacks "{" a eq_refl Ha); reflexivity).
    rewrite includes_cons_pattern. apply orb_false_iff. split.
    + destruct key as [|c key]; [reflexivity|].
      cbn [append JS.startsWith].
      cbn [Props.text Props.all] in Hkey. apply andb_true_iff in Hkey as [Hc _].
      destruct (Ascii.eqb_spec c "\") as [->|]; [discriminate Hc | reflexivity].
    + replace (String "\" tail1) with ((String "\" key ++ "}") ++ String "{" tail2)
        by (unfold tail1; cbn [append]; now rewrite append_assoc).
      rewrite (includes_skip "{" _ (String "\" key ++ "}"))
        by (rewrite includes_char_append;
            apply orb_false_iff; split; [|reflexivity];
            apply includes_char_false_cons; [reflexivity|];
            exact (text_lacks "{" key eq_refl Hkey)).
      rewrite includes_cons_pattern. apply orb_false_iff. split.
      * unfold tail2. destruct (JS.startsWith (key ++ "}") (val ++ "}" ++ b)) eqn:Hs;
          [|reflexivity].
        apply startsWith_closed in Hs;
          [congruence | exact (text_lacks "}" key eq_refl Hkey)
                      | exact (text_lacks "}" val eq_refl Hval)].
      * apply (includes_needs_char "{" EmptyString (key ++ "}")).
        unfold tail2.
        now rewrite !includes_char_append,
          (text_lacks "{" val eq_refl Hval), (text_lacks "{" b eq_refl Hb).
  - apply (includes_needs_char "<" EmptyString ("<" ++ key ++ ">>")).
    unfold doc, head.
    change ("\newcommand{\" ++ key ++ "}{") with ("\newcommand{\" ++ (key ++ "}{")).
    now rewrite !includes_char_append,
      (text_lacks "<" a eq_refl Ha), (text_lacks "<" key eq_refl Hkey),
      (text_lacks "<" val eq_refl Hval), (text_lacks "<" b eq_refl Hb).
Qed.

(** One round of the loop on a definition in plain text. *)
Lemma substituteField_definition (key val a old b : string) :
  Props.text key = true -> Props.text val = true -> val <> key ->
  Props.text a = true -> Props.text b = true ->
  JS.includes "}" old = false ->
  substituteField key val (a ++ ("\newcommand{\" ++ key ++ "}{") ++ old ++ "}" ++ b) =
  Some (a ++ ("\newcommand{\" ++ key ++ "}{") ++ val ++ "}" ++ b).
Proof.
  intros Hkey Hval Hne Ha Hb Hold.
  assert (Hsafe : escapeLatex val = val)
    by (rewrite escapeLatex_flatMap; now apply flatMap_escapedChar_plain, text_plain).
  rewrite substituteField_eq. cbn zeta. rewrite Hsafe.
  unfold newCmdNodes, defNodes, placeholderNodes, varNodes, bracketNodes.
  (* the definition is rewritten *)
  assert (H1 : replace (Open :: chars ("\newcommand{\" ++ key ++ "}{") ++ starTail)
                 ("$1" ++ val ++ "$2")
                 (a ++ ("\newcommand{\" ++ key ++ "}{") ++ old ++ "}" ++ b)
               = a ++ ("\newcommand{\" ++ key ++ "}{") ++ val ++ "}" ++ b)
    by exact (replace_definition_once "\" ("newcommand{\" ++ key ++ "}{") a old b val
                (text_lacks "\" a eq_refl Ha) (text_lacks "\" b eq_refl Hb) Hold
                (text_lacks "$" val eq_refl Hval)).
  rewrite H1. clear H1.
  destruct (definition_clean key val a b Hkey Hval Hne Ha Hb) as (_ & Hdef & Hph & Hbr).
  set (doc := a ++ ("\newcommand{\" ++ key ++ "}{") ++ val ++ "}" ++ b) in *.
  rewrite (replace_no_match _ _ doc) by now apply test_definition_lacks.
  rewrite (replace_no_match _ _ doc) by now rewrite test_chars.
  rewrite (replace_no_match _ _ doc)
    by (rewrite test_chars; exact (includes_suffix_false "\VAR" _ _ Hph)).
  rewrite (replace_no_match _ _ doc) by now rewrite test_chars.
  reflexivity.
Qed.


(** ** The second pass of the substitution *)

Section SecondPass.

Local Open Scope string_scope.




End SecondPass.

(** ** Further properties of the code *)

Section Escaping.

(** X1: [escapeLatex] works character by character: the escaped form of a
    text made of two parts is the escaped form of the first part followed by
    the escaped form of the second. *)
Theorem escapeLatex_append (a b : string) :
  escapeLatex (a ++ b) = escapeLatex a ++ escapeLatex b.
Proof. rewrite !escapeLatex_flatMap. apply flatMap_append. Qed.

(** X2: [escapeLatex] returns a text unchanged exactly when the text holds
    none of the ten characters backslash, braces, dollar, ampersand, percent,
    hash, caret, underscore and tilde. *)
Theorem escapeLatex_unchanged_iff_plain (text : string) :
  escapeLatex text = text <->
  Props.all (fun c => negb (Props.special c)) text = true.
Proof.
  rewrite escapeLatex_flatMap. split.
  - intro H. apply flatMap_escapedChar_same_length. now rewrite H.
  - apply flatMap_escapedChar_plain.
Qed.

(** X3: [escapeLatex] loses nothing: two texts have the same escaped form
    only when they are the same text. *)
Theorem escapeLatex_injective (a b : string) :
  escapeLatex a = escapeLatex b <-> a = b.
Proof.
  split; [|now intros ->].
  rewrite !escapeLatex_flatMap. apply flatMap_escapedChar_injective.
Qed.

(** X4: in the result of [escapeLatex] every brace, dollar, ampersand,
    percent, hash, caret, underscore and tilde has a backslash right before
    it. *)
Theorem escapeLatex_guards_reserved (text a : string) (c : ascii) (b : string) :
  escapeLatex text = a ++ String c b -> Props.reserved c = true ->
  exists a', a = a' ++ "\".
Proof.
  rewrite escapeLatex_flatMap. intros H Hc.
  destruct (guarded_sound _ false a c b (guarded_flatMap_escapedChar text false) H Hc)
    as [[_ Hf]|Ha]; [discriminate | exact Ha].
Qed.

Lemma escapeLatex_guards_reserved_witness :
  exists a', "50\" = a' ++ "\".
Proof.
  apply (escapeLatex_guards_reserved "50% off" "50\" "%" " off"); reflexivity.
Defined.

End Escaping.

Section Patterns.

(** X5: whatever characters a key holds, its five patterns look for the
    key itself: the bare, the [\VAR] and the double-angle pattern match
    exactly where the text [{key}], [\VAR{key}] and [<<key>>] stands, and a
    definition pattern matches exactly when the document holds the head of
    the definition of the key with a closing brace somewhere after it. *)
Theorem patterns_match_key_literally (key doc : string) :
  let escKey := replace reSpecial "\$&" key in
  matchesIn (placeholderSource escKey) doc = JS.includes ("{" ++ key ++ "}") doc /\
  matchesIn (varSource escKey) doc = JS.includes ("\VAR{" ++ key ++ "}") doc /\
  matchesIn (bracketSource escKey) doc = JS.includes ("<<" ++ key ++ ">>") doc /\
  (matchesIn (newCmdSource escKey) doc = true <->
     exists a body b, doc = a ++ ("\newcommand{\" ++ key ++ "}{") ++ body ++ String "}" b) /\
  (matchesIn (defSource escKey) doc = true <->
     exists a body b, doc = a ++ ("\def\" ++ key ++ "{") ++ body ++ String "}" b).
Proof.
  cbn zeta. unfold matchesIn.
  rewrite compile_newCmd, compile_def, compile_placeholder, compile_var, compile_bracket.
  unfold placeholderNodes, varNodes, bracketNodes, newCmdNodes, defNodes.
  rewrite !test_chars. repeat split; try apply test_definition.
Qed.

(** X6: a document made of text without [<] and [{], with the placeholder
    [<<key>>] between the pieces of text: for a key without [{] and a value
    without [$], the round of the loop for the key puts the escaped value
    in the place of every placeholder and leaves the text as it is. *)
Theorem bracket_placeholders_filled (key val : string) (segs : list string) :
  JS.includes "{" key = false -> JS.includes "$" val = false ->
  (forall s, In s segs -> JS.includes "<" s = false /\ JS.includes "{" s = false) ->
  substituteField key val (String.concat ("<<" ++ key ++ ">>") segs) =
  Some (String.concat (escapeLatex val) segs).
Proof.
  intros Hkey Hval Hsegs.
  set (doc := String.concat ("<<" ++ key ++ ">>") segs).
  assert (Hdoc : JS.includes "{" doc = false).
  { apply concat_lacks.
    - change ("<<" ++ key ++ ">>") with ("<<" ++ (key ++ ">>")).
      now rewrite !includes_char_append, Hkey.
    - intros s Hin. now apply Hsegs. }
  assert (Hnew : JS.includes ("\newcommand{\" ++ key ++ "}{") doc = false)
    by exact (includes_needs_char "{" "\newcommand" ("\" ++ key ++ "}{") doc Hdoc).
  assert (Hdef : JS.includes ("\def\" ++ key ++ "{") doc = false).
  { rewrite <- (append_assoc "\def\" key "{").
    exact (includes_needs_char "{" ("\def\" ++ key) EmptyString doc Hdoc). }
  assert (Hph : JS.includes ("{" ++ key ++ "}") doc = false)
    by exact (includes_needs_char "{" EmptyString (key ++ "}") doc Hdoc).
  assert (Hvar : JS.includes ("\VAR{" ++ key ++ "}") doc = false)
    by exact (includes_needs_char "{" "\VAR" (key ++ "}") doc Hdoc).
  rewrite substituteField_eq. cbn zeta.
  unfold newCmdNodes, defNodes, placeholderNodes, varNodes, bracketNodes.
  rewrite (replace_no_match _ _ doc) by now apply test_definition_lacks.
  rewrite (replace_no_match _ _ doc) by now apply test_definition_lacks.
  rewrite (replace_no_match _ _ doc) by now rewrite test_chars.
  rewrite (replace_no_match _ _ doc) by now rewrite test_chars.
  f_equal. unfold replace.
  apply (replaceFrom_concat "<" ("<" ++ key ++ ">>") (escapeLatex val) segs).
  - rewrite escapeLatex_flatMap. now apply escaped_lacks_dollar.
  - intros s Hin. now apply Hsegs.
Qed.

Lemma bracket_placeholders_filled_witness :
  substituteField "name" "Ada & Co"
    (String.concat ("<<" ++ "name" ++ ">>") ["Dear "; ", dear "; "!"])
  = Some (String.concat (escapeLatex "Ada & Co") ["Dear "; ", dear "; "!"]).
Proof.
  apply (bracket_placeholders_filled "name" "Ada & Co" ["Dear "; ", dear "; "!"]);
    try reflexivity.
  intros s [<-|[<-|[<-|[]]]]; split; reflexivity.
Defined.

(** X7: a document of plain text around one definition
    [\newcommand{\key}{old}], with a plain key and a plain value other than
    the key: the round of the loop for the key puts the value in the place
    of the old body, up to the first closing brace, and changes nothing
    else. *)
Theorem definition_rewritten (key val a old b : string) :
  Props.text key = true -> Props.text val = true -> val <> key ->
  Props.text a = true -> Props.text b = true ->
  JS.includes "}" old = false ->
  substituteField key val (a ++ ("\newcommand{\" ++ key ++ "}{") ++ old ++ "}" ++ b) =
  Some (a ++ ("\newcommand{\" ++ key ++ "}{") ++ val ++ "}" ++ b).
Proof. exact (substituteField_definition key val a old b). Qed.

Lemma definition_rewritten_witness :
  substituteField "name" "Ada Lovelace"
    ("Hello " ++ ("\newcommand{\" ++ "name" ++ "}{") ++ "John Doe" ++ "}" ++ " world")
  = Some ("Hello " ++ ("\newcommand{\" ++ "name" ++ "}{") ++ "Ada Lovelace" ++ "}" ++ " world").
Proof.
  apply (definition_rewritten "name" "Ada Lovelace" "Hello " "John Doe" " world");
    try reflexivity.
  discriminate.
Defined.

End Patterns.

Section Validation.

Import Validator.

(** X8: in the report of [/validate-latex] the template is valid exactly
    when no error is listed, and exactly when the trimmed body holds the
    three markers [\documentclass], [\begin{document}] and
    [\end{document}]; each marker that is missing has its own error. *)
Theorem validateLatex_valid_iff (body : string) (v : validation) :
  validateLatex body = Validated v ->
  let latex := JS.trim body in
  (valid v = true <-> errors v = []) /\
  (valid v = true <->
     JS.includes documentclass latex = true /\
     JS.includes beginDocument latex = true /\
     JS.includes endDocument latex = true) /\
  (In "Missing \documentclass declaration" (errors v) <->
     JS.includes documentclass latex = false) /\
  (In "Missing \begin{document}" (errors v) <->
     JS.includes beginDocument latex = false) /\
  (In "Missing \end{document}" (errors v) <->
     JS.includes endDocument latex = false).
Proof.
  intro H. destruct (validateLatex_report body v H) as (Hvalid & Herrors).
  cbn zeta. rewrite Hvalid, Herrors.
  destruct (JS.includes documentclass (JS.trim body)),
           (JS.includes beginDocument (JS.trim body)),
           (JS.includes endDocument (JS.trim body));
    cbn [andb app In];
    repeat split; intros; try reflexivity; try discriminate; try tauto;
    repeat match goal with
           | Hc : _ /\ _ |- _ => destruct Hc
           | Hc : _ \/ _ |- _ => destruct Hc
           | Hc : False |- _ => destruct Hc
           end; try discriminate; auto.
Qed.

Lemma validateLatex_valid_iff_witness :
  In "Missing \end{document}"
    (errors {| valid := false; warnings := [];
               errors := ["Missing \end{document}"];
               structure := mkFlags true true false true false |}).
Proof.
  destruct (validateLatex_valid_iff
              "\documentclass{article}\newcommand{\name}{x}\begin{document}\name"
              {| valid := false; warnings := [];
                 errors := ["Missing \end{document}"];
                 structure := mkFlags true true false true false |} eq_refl)
    as (_ & _ & _ & _ & H).
  apply H. reflexivity.
Defined.

(** X9: the warnings of the report: the warning about fillable fields is
    given exactly when the trimmed body holds neither [\newcommand] nor
    [\def\]; the warning about braces is given exactly when the number of
    opening braces differs from the number of closing braces, and it reports
    these two numbers. *)
Theorem validateLatex_warnings (body : string) (v : validation) :
  validateLatex body = Validated v ->
  let latex := JS.trim body in
  let openBraces := Props.countChar "{" latex in
  let closeBraces := Props.countChar "}" latex in
  warnings v =
    app (if JS.includes "\newcommand" latex || JS.includes "\def\" latex then []
         else ["No \newcommand or \def found - template might not have fillable fields"])
        (if openBraces =? closeBraces then []
         else ["Unbalanced braces: " ++ Text.ofNat openBraces ++ " open, "
               ++ Text.ofNat closeBraces ++ " close"]).
Proof.
  unfold validateLatex. destruct (String.eqb (JS.trim body) EmptyString); [discriminate|].
  cbn zeta. cbn [structure hasDocumentClass hasBeginDocument hasEndDocument
                 hasNewCommands hasDefCommands].
  intro H. injection H as <-.
  unfold Text.matchCount, reOpenBrace, reCloseBrace. rewrite !countFrom_char.
  change reNewcommand with (chars "\newcommand").
  change reDefCommand with (chars "\def\").
  rewrite !test_chars.
  destruct (JS.includes documentclass (JS.trim body)),
           (JS.includes beginDocument (JS.trim body)),
           (JS.includes endDocument (JS.trim body)),
           (JS.includes "\newcommand" (JS.trim body)),
           (JS.includes "\def\" (JS.trim body)),
           (Props.countChar "{" (JS.trim body) =? Props.countChar "}" (JS.trim body));
    reflexivity.
Qed.

Lemma validateLatex_warnings_witness :
  warnings {| valid := true;
              warnings := ["Unbalanced braces: 5 open, 4 close"];
              errors := [];
              structure := mkFlags true true true true false |}
  = ["Unbalanced braces: 5 open, 4 close"].
Proof.
  exact (validateLatex_warnings
           "\documentclass{a}\newcommand{\n}{x\begin{document}\end{document}"
           {| valid := true;
              warnings := ["Unbalanced braces: 5 open, 4 close"];
              errors := [];
              structure := mkFlags true true true true false |} eq_refl).
Defined.

(** X10: a template that [/validate-latex] reports as valid passes the
    structure check of [/generate-pdf] as it is, with no values given, and
    the front checks of [/upload-tex], which hands it to the model. *)
Theorem valid_template_accepted (body : string) (v : validation) :
  validateLatex body = Validated v -> valid v = true ->
  inject body [] = Processed body /\
  forall (num : Type) (numIsZero : num -> bool) (numToString : num -> string)
         (jsonParse : string -> Env.jsError + Extractor.value num)
         (generateContent : string -> Env.jsError + string),
    Upload.uploadTex numIsZero numToString jsonParse generateContent body =
    match generateContent (Upload.prompt (JS.trim body)) with
    | inr raw => Upload.afterModel numIsZero numToString jsonParse raw
    | inl err =>
        Upload.ExtractionFailed ("AI extraction failed: " ++ Env.message err)
          (Upload.extractionTroubleshooting (Env.message err))
    end.
Proof.
  intros Hv Hvalid.
  destruct (validateLatex_report body v Hv) as (Hm & _).
  rewrite Hm in Hvalid. apply andb_true_iff in Hvalid as [Hvalid _].
  apply andb_true_iff in Hvalid as [Hd Hb].
  assert (Hne : String.eqb (JS.trim body) EmptyString = false).
  { unfold validateLatex in Hv.
    destruct (String.eqb (JS.trim body) EmptyString); [discriminate | reflexivity]. }
  split.
  - unfold inject. cbn [substitute].
    now rewrite (includes_trim _ _ Hd), (includes_trim _ _ Hb).
  - intros. unfold Upload.uploadTex. now rewrite Hne, Hd.
Qed.

Lemma valid_template_accepted_witness :
  inject "\documentclass{article}\begin{document}Hi\end{document}" []
  = Processed "\documentclass{article}\begin{document}Hi\end{document}".
Proof.
  refine (proj1 (valid_template_accepted
                   "\documentclass{article}\begin{document}Hi\end{document}" _ _ _)).
  - vm_compute. reflexivity.
  - reflexivity.
Defined.

(** X11: [/validate-latex] and [/upload-tex] answer that no LaTeX was
    provided exactly when the body is empty or made of white space only. *)
Theorem blank_body_rejected (body : string) :
  (validateLatex body = NoLatexProvided <-> Props.all JS.isWhite body = true) /\
  forall (num : Type) (numIsZero : num -> bool) (numToString : num -> string)
         (jsonParse : string -> Env.jsError + Extractor.value num)
         (generateContent : string -> Env.jsError + string),
    Upload.uploadTex numIsZero numToString jsonParse generateContent body
      = Upload.NoLatexProvided <->
    Props.all JS.isWhite body = true.
Proof.
  split; [|intros]; rewrite <- trim_empty.
  - unfold validateLatex. destruct (String.eqb_spec (JS.trim body) EmptyString) as [->|Hne].
    + tauto.
    + split; [discriminate | tauto].
  - unfold Upload.uploadTex, Upload.afterModel.
    destruct (String.eqb_spec (JS.trim body) EmptyString) as [->|Hne]; [tauto|].
    split; [|tauto].
    repeat match goal with
           | |- context [if ?b then _ else _] => destruct b
           | |- context [match ?x with inl _ => _ | inr _ => _ end] => destruct x
           end; discriminate.
Qed.

(** X12: [/upload-tex] does not call the model for a body without
    [\documentclass]: whatever the model and the parser would do, the answer
    is that no LaTeX was provided when the body is blank, and that
    [\documentclass] is missing otherwise. *)
Theorem upload_without_documentclass (body : string)
    (num : Type) (numIsZero : num -> bool) (numToString : num -> string)
    (jsonParse : string -> Env.jsError + Extractor.value num)
    (generateContent : string -> Env.jsError + string) :
  JS.includes documentclass body = false ->
  Upload.uploadTex numIsZero numToString jsonParse generateContent body =
  if Props.all JS.isWhite body then Upload.NoLatexProvided
  else Upload.MissingDocumentclass.
Proof.
  intro H. unfold Upload.uploadTex.
  destruct (String.eqb_spec (JS.trim body) EmptyString) as [He|Hne].
  - apply trim_empty in He. now rewrite He.
  - destruct (Props.all JS.isWhite body) eqn:Hw.
    + apply trim_empty in Hw. contradiction.
    + destruct (JS.includes documentclass (JS.trim body)) eqn:Hd; [|reflexivity].
      apply includes_trim in Hd. congruence.
Qed.

Lemma upload_without_documentclass_witness :
  Upload.uploadTex (Nat.eqb 0) Sim.natToString
    (fun _ => inr Extractor.JNull) (fun _ => inr "[]") "\begin{document}Hi\end{document}"
  = Upload.MissingDocumentclass.
Proof.
  apply (upload_without_documentclass "\begin{document}Hi\end{document}"). reflexivity.
Defined.

End Validation.

Section SchemaShape.

Import Extractor.

Context {num : Type} (numIsZero : num -> bool) (numToString : num -> string).

(** X13: when the validation answers with a schema, the parsed response was
    an array, [totalFound] is its length, [validFields] is the length of the
    schema, and at least one and at most [totalFound] fields are valid. *)
Theorem schema_meta_counts (parsed : value num) (schema : list field)
    (totalFound validFields : nat) :
  validate numIsZero numToString parsed = Schema schema totalFound validFields ->
  exists items,
    parsed = JArr items /\
    totalFound = List.length items /\
    validFields = List.length schema /\
    1 <= validFields <= totalFound.
Proof.
  destruct parsed as [| | | |items|]; try discriminate.
  rewrite validate_filter.
  pose proof (filter_length_le (isValid numIsZero) items) as Hle.
  destruct (filter (isValid numIsZero) items) as [|x kept]; [discriminate|].
  intro H. injection H as <- <- <-. exists items.
  cbn [map List.length] in *. rewrite ?length_map. repeat split; lia.
Qed.

(** X14: the fields of a returned schema are in normal form: the
    normalisation of ids leaves every id as it is, and every label and every
    default is already trimmed. *)
Theorem schema_fields_normal (parsed : value num) (schema : list field)
    (totalFound validFields : nat) :
  validate numIsZero numToString parsed = Schema schema totalFound validFields ->
  Forall (fun f =>
            replace reNonCanonical EmptyString (JS.toLowerCase (id f)) = id f /\
            JS.trim (label f) = label f /\
            JS.trim (default f) = default f) schema.
Proof.
  destruct parsed as [| | | |items|]; try discriminate.
  rewrite validate_filter.
  destruct (filter (isValid numIsZero) items) as [|x kept]; [discriminate|].
  intro H. injection H as <- _ _.
  apply Forall_forall. intros f Hf.
  apply (in_map_iff (clean numIsZero numToString) (x :: kept) f) in Hf as (item & <- & _).
  unfold clean. cbn [id label default].
  split; [apply normalise_fixed|]. split; apply trim_fixed.
Qed.

End SchemaShape.

Section SchemaRuns.

Import Extractor.

Lemma schema_meta_counts_witness :
  exists items,
    JArr Sim.twins = JArr items /\
    2 = List.length items /\
    2 = List.length [mkField "name" "Name" EmptyString;
                     mkField "name" "Full name" EmptyString] /\
    1 <= 2 <= 2.
Proof.
  apply (schema_meta_counts (Nat.eqb 0) Sim.natToString (JArr Sim.twins)).
  vm_compute. reflexivity.
Defined.

Lemma schema_fields_normal_witness :
  Forall (fun f =>
            replace reNonCanonical EmptyString (JS.toLowerCase (id f)) = id f /\
            JS.trim (label f) = label f /\
            JS.trim (default f) = default f)
    [mkField "full_name" "Full name" "Ada"].
Proof.
  apply (schema_fields_normal (Nat.eqb 0) Sim.natToString
           (JArr [JObj [("id", JStr "Full_Name!"); ("label", JStr " Full name ");
                        ("default", JStr " Ada")]]) _ 1 1).
  vm_compute. reflexivity.
Defined.

End SchemaRuns.

Section AnswerOfTheModel.

Import Rx Upload.

(** X15: an answer of the model without a backtick comes out of the removal
    of the markdown formatting as it is, trimmed. *)
Theorem stripFences_plain (raw : string) :
  JS.includes "`" raw = false -> stripFences raw = JS.trim raw.
Proof.
  intro H. apply trim_lacks in H. unfold stripFences.
  rewrite (replaceFirst_fenceOpen_plain _ H), (replaceFirst_fenceClose_plain _ H),
    (replaceAll_ticks_plain _ H).
  apply trim_fixed.
Qed.

Lemma stripFences_plain_witness :
  stripFences " [1, 2] " = JS.trim " [1, 2] ".
Proof. apply (stripFences_plain " [1, 2] "). reflexivity. Defined.

(** X16: of an answer that holds a block fenced by [```json] and [```], the
    removal of the markdown formatting keeps the block, trimmed, and drops
    the fences and the text around them, when the text before the block and
    the block hold no backtick. *)
Theorem stripFences_fenced (pre body post : string) :
  JS.includes "`" pre = false -> JS.includes "`" body = false ->
  stripFences (pre ++ "```json" ++ body ++ "```" ++ post) = JS.trim body.
Proof. exact (stripFences_block pre body post). Qed.

(** X17: a fence without the [json] tag: when the answer holds no
    [```json], the removal of the markdown formatting drops everything from
    the first [```] on, the block included, and keeps the text before it,
    trimmed. *)
Theorem stripFences_untagged (pre post : string) :
  JS.includes "`" pre = false ->
  JS.includes "```json" (pre ++ "```" ++ post) = false ->
  stripFences (pre ++ "```" ++ post) = JS.trim pre.
Proof.
  intros Hpre Htag. unfold stripFences.
  assert (Hno : JS.includes "```json" (JS.trim (pre ++ "```" ++ post)) = false).
  { destruct (JS.includes "```json" (JS.trim (pre ++ "```" ++ post))) eqn:E; [|reflexivity].
    apply includes_trim in E. congruence. }
  assert (H1 : replaceFirst reFenceOpen EmptyString (JS.trim (pre ++ "```" ++ post))
               = JS.trim (pre ++ "```" ++ post)).
  { unfold replaceFirst. now rewrite (firstMatch_fenceOpen_untagged _ Hno). }
  rewrite H1.
  assert (Ht : JS.trim (pre ++ "```" ++ post) =
               JS.trimStart pre ++ "```" ++ JS.trimEnd post)
    by exact (trim_fenced pre "`" post).
  rewrite Ht.
  rewrite (replaceFirst_fenceClose_fenced _ _ (trimStart_lacks _ _ Hpre)).
  change (JS.trimEnd (JS.trimStart pre)) with (JS.trim pre).
  rewrite (replaceAll_ticks_plain _ (trim_lacks _ _ Hpre)).
  apply trim_fixed.
Qed.

(** X18: when the cleaned answer holds an opening bracket and, after it, a
    closing bracket, the handler keeps the text from the first opening
    bracket to the last closing bracket, and drops the explanation around
    it. *)
Theorem extractArray_span (a mid b : string) :
  JS.includes "[" a = false -> JS.includes "]" b = false ->
  extractArray (a ++ "[" ++ mid ++ "]" ++ b) = "[" ++ mid ++ "]".
Proof. exact (extractArray_between a mid b). Qed.

Section UploadHandler.

Context {num : Type} (numIsZero : num -> bool) (numToString : num -> string).
Variable jsonParse : string -> Env.jsError + Extractor.value num.

(** X19: [/upload-tex] answers that the model returned an invalid JSON
    format exactly when the cleaned answer holds no opening bracket with a
    closing bracket after it; the answer then shows the first 500 characters
    of the raw and of the cleaned answer.  In all other cases the text handed
    to [JSON.parse] starts with an opening bracket and ends with a closing
    one. *)
Theorem invalid_format_iff_no_array (raw : string) :
  ((exists r c, afterModel numIsZero numToString jsonParse raw = InvalidJsonFormat r c)
   <-> forall a mid b, stripFences raw <> a ++ "[" ++ mid ++ "]" ++ b) /\
  ((forall a mid b, stripFences raw <> a ++ "[" ++ mid ++ "]" ++ b) ->
   afterModel numIsZero numToString jsonParse raw =
   InvalidJsonFormat (Text.take 500 raw ++ "...")
     (Text.take 500 (stripFences raw) ++ "...")) /\
  (forall a mid b, stripFences raw = a ++ "[" ++ mid ++ "]" ++ b ->
   exists mid',
     afterModel numIsZero numToString jsonParse raw =
     match jsonParse ("[" ++ mid' ++ "]") with
     | inl parseErr =>
         ParseFailed (Env.message parseErr) (Text.take 500 ("[" ++ mid' ++ "]") ++ "...")
     | inr schema => Answered (Extractor.validate numIsZero numToString schema)
     end).
Proof.
  unfold afterModel, extractArray.
  destruct (firstMatch reArray (stripFences raw)) as [[[bf m] af]|] eqn:E.
  - unfold firstMatch in E. apply searchFrom_array_sound in E as [Hs [mid ->]].
    cbn [append] in Hs.
    assert (Hspan : stripFences raw = bf ++ "[" ++ mid ++ "]" ++ af).
    { rewrite Hs. cbn [append]. now rewrite append_assoc. }
    assert (Hcheck : negb (JS.startsWith "[" ("[" ++ mid ++ "]"))
                     || negb (Text.endsWith "]" ("[" ++ mid ++ "]")) = false).
    { change ("[" ++ mid ++ "]") with (("[" ++ mid) ++ "]") at 2.
      now rewrite endsWith_append. }
    rewrite Hcheck. split; [split|split].
    + intros (r & c & H). destruct (jsonParse _); discriminate.
    + intro H. elim (H _ _ _ Hspan).
    + intro H. elim (H _ _ _ Hspan).
    + intros. now exists mid.
  - pose proof (proj1 (firstMatch_array_none _) E) as Hno. clear E. rename Hno into E.
    assert (Hcheck : negb (JS.startsWith "[" (stripFences raw))
                     || negb (Text.endsWith "]" (stripFences raw)) = true).
    { destruct (JS.startsWith "[" (stripFences raw)) eqn:Hs; [|reflexivity].
      destruct (Text.endsWith "]" (stripFences raw)) eqn:He; [|reflexivity].
      apply endsWith_split in He as [x Hx]. rewrite Hx in Hs.
      destruct x as [|c x]; [discriminate Hs|].
      cbn [append JS.startsWith] in Hs. apply andb_true_iff in Hs as [Hc _].
      apply Ascii.eqb_eq in Hc. subst c.
      elim (E EmptyString x EmptyString). rewrite Hx. reflexivity. }
    rewrite Hcheck. split; [split|split].
    + intros _. exact E.
    + intros _. eexists. eexists. reflexivity.
    + reflexivity.
    + intros a mid b H. elim (E _ _ _ H).
Qed.

Variable generateContent : string -> Env.jsError + string.


End UploadHandler.

(** X21: the prompt holds the template as it is, between the instructions
    that end with the start marker and the text that begins with the end
    marker: trimming the prompt does not touch the template. *)
Theorem prompt_embeds_template :
  exists before after,
    (forall latex, prompt latex = before ++ latex ++ after) /\
    Text.endsWith ("### LATEX TEMPLATE START ###" ++ String (ascii_of_nat 10) EmptyString)
      before = true /\
    JS.startsWith (String (ascii_of_nat 10) "### LATEX TEMPLATE END ###") after = true.
Proof.
  exists (JS.trimStart (unlines promptHead)), (unlines promptTail).
  split; [|split; vm_compute; reflexivity].
  intro latex. unfold prompt, JS.trim.
  assert (Hh : unlines promptHead =
               String (ascii_of_nat 10) (String "Y" (JS.drop 2 (unlines promptHead))))
    by (vm_compute; reflexivity).
  assert (Ht : JS.trimEnd (unlines promptTail) = unlines promptTail)
    by (vm_compute; reflexivity).
  assert (Hne : JS.trimEnd (unlines promptTail) <> EmptyString)
    by (vm_compute; discriminate).
  rewrite Hh. set (rest := JS.drop 2 (unlines promptHead)).
  change (JS.trimStart (String (ascii_of_nat 10) (String "Y" rest)))
    with (String "Y" rest).
  change (JS.trimStart (String (ascii_of_nat 10) (String "Y" rest)
                        ++ latex ++ unlines promptTail))
    with (String "Y" rest ++ latex ++ unlines promptTail).
  rewrite <- append_assoc, trimEnd_append by exact Hne.
  now rewrite Ht.
Qed.

End AnswerOfTheModel.

Section AnswerRuns.

Import Upload.

Lemma stripFences_fenced_witness :
  stripFences ("Here are the fields:" ++ "```json" ++ " [] " ++ "```" ++ " Done.")
  = JS.trim " [] ".
Proof.
  apply (stripFences_fenced "Here are the fields:" " [] " " Done."); reflexivity.
Defined.

Lemma stripFences_untagged_witness :
  stripFences (" see: " ++ "```" ++ "[1]```") = JS.trim " see: ".
Proof.
  apply (stripFences_untagged " see: " "[1]```"); reflexivity.
Defined.

Lemma extractArray_span_witness :
  extractArray ("The fields: " ++ "[" ++ "1, [2]" ++ "]" ++ " (two)") = "[" ++ "1, [2]" ++ "]".
Proof.
  apply (extractArray_span "The fields: " "1, [2]" " (two)"); reflexivity.
Defined.

Lemma invalid_format_iff_no_array_witness :
  afterModel (Nat.eqb 0) Sim.natToString (fun _ => inr Extractor.JNull) "]no fields["
  = InvalidJsonFormat (Text.take 500 "]no fields[" ++ "...")
      (Text.take 500 (stripFences "]no fields[") ++ "...").
Proof.
  refine (proj1 (proj2 (invalid_format_iff_no_array (Nat.eqb 0) Sim.natToString
                          (fun _ => inr Extractor.JNull) "]no fields[")) _).
  apply firstMatch_array_none. vm_compute. reflexivity.
Defined.


End AnswerRuns.

Section Compilation.

Import Env Compiler Workspace Handler.

Context {world : Type} (E : env world).

(** X22: whatever the file system and the processes do, [tryCompileLatex]
    ends in one of two ways.  Without error: the PDF exists in the world it
    leaves, the last attempt is the only successful one and carries no error
    message.  With the error [All LaTeX compilers failed]: there is one
    failed attempt for each of [tectonic-local], [tectonic-system] and
    [pdflatex], in this order, each recorded with the command that was
    run. *)
Theorem tryCompileLatex_outcome (texPath outputDir : string) (w : world) :
  let '(res, attempts, w') := tryCompileLatex E texPath outputDir w in
  match res with
  | None =>
      existsSync E (pathJoin E outputDir "resume.pdf") w' = true /\
      exists init a,
        attempts = (init ++ [a])%list /\ success a = true /\ error a = None /\
        Forall (fun a => success a = false) init /\
        List.length attempts <= 3
  | Some msg =>
      msg = "All LaTeX compilers failed" /\
      map a_compiler attempts = ["tectonic-local"; "tectonic-system"; "pdflatex"] /\
      map a_command attempts = map command (compilers E texPath outputDir) /\
      Forall (fun a => success a = false) attempts
  end.
Proof. exact (tryCompileLatex_result E texPath outputDir w). Qed.

(** X23: every attempt that [tryCompileLatex] records keeps at most 3000
    characters of log. *)
Theorem attempt_logs_bounded (texPath outputDir : string) (w : world) :
  let '(_, attempts, _) := tryCompileLatex E texPath outputDir w in
  Forall (fun a => String.length (log a) <= 3000) attempts.
Proof.
  unfold tryCompileLatex, runChain.
  pose proof (tryNextCompiler_outcome E (pathJoin E outputDir "resume.pdf")
                (pathJoin E outputDir "resume.log") outputDir
                (compilers E texPath outputDir) w) as H.
  destruct (tryNextCompiler E _ _ outputDir _ [] w) as [[res attempts] w'].
  destruct H as [H _]. exact H.
Qed.

(** X24: what an answer of [/generate-pdf] to a string template tells.
    [Invalid payload]: the type of [values] is not ['object'].  [Error
    processing template]: [values] is [null], or the conversion of one of
    its values to a string throws.  A missing marker is named exactly as
    the injection found it.  An exception escapes the handler only out of
    [fs.mkdtempSync], after the injection produced a document.  A write
    failure carries the message of the error of [fs.writeFileSync] on
    [resume.tex] in the workspace [fs.mkdtempSync] made; a PDF is
    [resume.pdf] in that workspace; and when the generation failed, the
    three compilers were tried in order, all failed, and the
    troubleshooting list ends with the five general tips. *)
Theorem generatePdf_answers (template : string) (values : payloadValues)
    (w : world) :
  let '(answer, _, _) := generatePdf E template values w in
  match answer with
  | InvalidPayload => values = NotAnObject
  | ErrorProcessingTemplate =>
      values = NullValues \/
      exists entries, values = ValueMap entries /\ texts entries = None
  | InvalidTemplate marker => Props.injects template values (MissingStructure marker)
  | Uncaught e =>
      exists processed w1,
        Props.injects template values (Processed processed) /\
        mkdtempSync E (pathJoin E (tmpdir E) "latex-") w = (inl e, w1)
  | FailedToWrite details =>
      exists processed tmp w1 e w2,
        Props.injects template values (Processed processed) /\
        mkdtempSync E (pathJoin E (tmpdir E) "latex-") w = (inr tmp, w1) /\
        writeFileSync E (pathJoin E tmp "resume.tex") processed w1 = (Some e, w2) /\
        details = message e
  | Pdf pdfPath =>
      exists processed tmp w1,
        Props.injects template values (Processed processed) /\
        mkdtempSync E (pathJoin E (tmpdir E) "latex-") w = (inr tmp, w1) /\
        pdfPath = pathJoin E tmp "resume.pdf"
  | GenerationFailed attempts troubleshooting =>
      (exists processed, Props.injects template values (Processed processed)) /\
      map a_compiler attempts = ["tectonic-local"; "tectonic-system"; "pdflatex"] /\
      Forall (fun a => success a = false) attempts /\
      exists hints, troubleshooting = (hints ++ baseTroubleshooting)%list
  end.
Proof.
  unfold generatePdf. destruct values as [| |entries]; [reflexivity | now left |].
  destruct (texts entries) as [converted|] eqn:Ht; [|right; now exists entries].
  assert (Hin : forall r, inject template converted = r ->
                  Props.injects template (ValueMap entries) r)
    by (intros r Hr; now exists entries, converted).
  destruct (inject template converted) as [processed|marker|] eqn:Hi.
  - specialize (Hin _ eq_refl).
    destruct (mkdtempSync E _ w) as [[e|tmp] w0] eqn:Hm; [now exists processed, w0|].
    destruct (writeFileSync E _ processed w0) as [[e|] w1] eqn:Hw.
    + destruct (safeRemoveDir_completes E tmp w1) as (evs & w' & ->).
      now exists processed, tmp, w0, e, w1.
    + pose proof (tryCompileLatex_result E (pathJoin E tmp "resume.tex") tmp w1) as H.
      destruct (tryCompileLatex E _ tmp w1) as [[res attempts] w2].
      destruct res as [msg|].
      * destruct (safeRemoveDir_completes E tmp w2) as (evs & w' & ->).
        destruct H as (_ & Hn & _ & Hf).
        split; [now exists processed|]. split; [exact Hn|]. split; [exact Hf|].
        destruct (troubleshootingFor_suffix attempts) as (hints & Hh & _).
        now exists hints.
      * destruct H as (Hx & _). rewrite Hx. cbn [negb].
        destruct (safeRemoveDir_completes E tmp w2) as (evs & w' & ->).
        now exists processed, tmp, w0.
  - now apply Hin.
  - unfold inject in Hi.
    destruct (substitute_total converted template) as [doc Hd]. rewrite Hd in Hi.
    destruct (negb _); [discriminate|]. destruct (negb _); discriminate.
Qed.

(** X25: the hints of a failed generation are read off the log of the last
    attempt: each of the three hints is in the list exactly when the log
    holds its pattern, and the list always ends with the five general
    tips. *)
Theorem troubleshooting_hints (init : list compilationAttempt) (a : compilationAttempt) :
  let troubleshooting := troubleshootingFor (init ++ [a])%list in
  (exists hints, troubleshooting = (hints ++ baseTroubleshooting)%list /\
                 List.length hints <= 3) /\
  (In "LaTeX syntax error detected - check your template" troubleshooting <->
     JS.includes "! LaTeX Error" (log a) = true) /\
  (In "Missing LaTeX package - install required packages" troubleshooting <->
     JS.includes "File" (log a) && JS.includes "not found" (log a) = true) /\
  (In "Critical LaTeX error - check document structure" troubleshooting <->
     JS.includes "Emergency stop" (log a) = true).
Proof.
  cbn zeta. split; [apply troubleshootingFor_suffix|].
  unfold troubleshootingFor. rewrite map_app. cbn [map]. rewrite last_snoc.
  destruct (log a) as [|c l] eqn:Hl.
  - cbn [String.eqb negb]. cbn.
    repeat split; intros; try discriminate;
      repeat match goal with
             | Hc : _ \/ _ |- _ => destruct Hc
             | Hc : False |- _ => destruct Hc
             end; discriminate.
  - replace (String.eqb (String c l) EmptyString) with false by reflexivity.
    cbn [negb].
    destruct (JS.includes "! LaTeX Error" (String c l)),
             (JS.includes "File" (String c l) && JS.includes "not found" (String c l)),
             (JS.includes "Emergency stop" (String c l));
      unfold baseTroubleshooting; cbn [In];
      repeat split; intros; try reflexivity; try tauto;
      repeat match goal with
             | Hc : _ \/ _ |- _ => destruct Hc
             | Hc : False |- _ => destruct Hc
             end; discriminate.
Qed.

(** X26: when the directory exists, the console lines of [safeRemoveDir]
    are the retries numbered 1, 2, ... in order, fewer than [maxRetries] of
    them, followed by one last line: the directory was cleaned up, or it
    could not be removed. *)
Theorem cleanup_trace (dirPath : string) (w : world) :
  existsSync E dirPath w = true ->
  exists k final w',
    safeRemoveDir E dirPath w =
      (Normal, (map RetryCleanup (seq 1 k) ++ [final])%list, w') /\
    k < maxRetries /\ isFinal final = true.
Proof.
  intro Hx. unfold safeRemoveDir. rewrite Hx.
  destruct (attempt_trace E dirPath maxRetries 0 w ltac:(unfold maxRetries; lia))
    as (k & final & w' & -> & Hf & Hlen).
  exists k, final, w'. split; [reflexivity|]. split; [unfold maxRetries in *; lia | exact Hf].
Qed.

(** X27: when the directory exists and [fs.rmSync] fails three times in a
    row, the first two times with ENOTEMPTY, [safeRemoveDir] makes these
    three calls and no other: it logs the retries 1 and 2 and then gives up
    with the message of the error of the third call, whatever its code, in
    the world that call left. *)
Theorem cleanup_gives_up_after_three (dirPath : string) (w w1 w2 w3 : world)
    (e1 e2 e3 : jsError) :
  existsSync E dirPath w = true ->
  rmSync E dirPath w = (Some e1, w1) -> code e1 = "ENOTEMPTY" ->
  rmSync E dirPath w1 = (Some e2, w2) -> code e2 = "ENOTEMPTY" ->
  rmSync E dirPath w2 = (Some e3, w3) ->
  safeRemoveDir E dirPath w =
    (Normal, [RetryCleanup 1; RetryCleanup 2; CouldNotRemove (message e3)], w3).
Proof.
  intros Hx H1 C1 H2 C2 H3. unfold safeRemoveDir. rewrite Hx.
  now rewrite (attempt_refused E dirPath w w1 w2 w3 e1 e2 e3 H1 C1 H2 C2 H3).
Qed.

End Compilation.

Section CompilationRuns.

Import Env Compiler Workspace Handler.

(** The answers of the handler that tell of the payload and of the
    workspace: [values] that is a string, [null], an object with a value
    whose conversion throws, and a host without room for the workspace. *)
Example generatePdf_payload_answers :
  generatePdf Sim.host Sim.letter NotAnObject [] = (InvalidPayload, [], []) /\
  generatePdf Sim.host Sim.letter NullValues [] = (ErrorProcessingTemplate, [], []) /\
  generatePdf Sim.host Sim.letter
    (ValueMap [("name", StringValue "Ada"); ("city", OtherValue None)]) []
  = (ErrorProcessingTemplate, [], []) /\
  generatePdf Sim.fullHost Sim.letter (ValueMap [("name", StringValue "Ada")]) []
  = (Uncaught {| code := "ENOSPC"; message := "no space left on device" |}, [], []) /\
  fst (generatePdf Sim.host Sim.letter
         (ValueMap [("name", StringValue "Ada"); ("age", OtherValue (Some "36"))]) [])
  = (Pdf "/tmp/latex-a1B2c3/resume.pdf", [Cleaned]).
Proof. vm_compute. repeat split. Qed.

Lemma cleanup_trace_witness :
  exists k final w',
    safeRemoveDir Sim.host Sim.workdir [Sim.workdir] =
      (Normal, (map RetryCleanup (seq 1 k) ++ [final])%list, w') /\
    k < maxRetries /\ isFinal final = true.
Proof.
  apply (cleanup_trace Sim.host Sim.workdir [Sim.workdir]). reflexivity.
Defined.

Lemma cleanup_gives_up_after_three_witness :
  safeRemoveDir (Sim.simEnv Sim.pdflatexOnly (Sim.rmRefused "ENOTEMPTY"))
    Sim.workdir [Sim.workdir] =
    (Normal, [RetryCleanup 1; RetryCleanup 2; CouldNotRemove "rm failed"],
     [Sim.workdir]).
Proof.
  apply (cleanup_gives_up_after_three
           (Sim.simEnv Sim.pdflatexOnly (Sim.rmRefused "ENOTEMPTY"))
           Sim.workdir [Sim.workdir] [Sim.workdir] [Sim.workdir] [Sim.workdir]
           {| code := "ENOTEMPTY"; message := "rm failed" |}
           {| code := "ENOTEMPTY"; message := "rm failed" |}
           {| code := "ENOTEMPTY"; message := "rm failed" |});
    reflexivity.
Defined.

End CompilationRuns.

Section CompilerCheck.

Import Env LatexCheck.

Context {world : Type} (exec : string -> world -> execResult * world).

(** X28: [checkCompiler] reports a compiler as available exactly when its
    command ended without error; the version it then prints is the start of
    the output of the command, within its first line and of at most 80
    characters. *)
Theorem checkCompiler_version (c : compiler) (w : world) :
  let '(available, out, _) := checkCompiler exec c w in
  let r := fst (exec (command c) w) in
  if available then
    err r = None /\
    exists version,
      out = [Available (name c); Version version] /\
      JS.startsWith version (stdout r) = true /\
      JS.includes (String (ascii_of_nat 10) EmptyString) version = false /\
      String.length version <= 80
  else err r <> None /\ out = [NotAvailable (name c)].
Proof.
  unfold checkCompiler. destruct (exec (command c) w) as [r w']. cbn [fst].
  destruct (err r) as [e|]; [split; [discriminate | reflexivity]|].
  split; [reflexivity|]. eexists. split; [reflexivity|]. split; [|split].
  - eapply startsWith_trans; [apply startsWith_take | apply startsWith_firstLine].
  - apply take_lacks, firstLine_one_line.
  - apply length_take.
Qed.

(** X29: a run of [checkAllCompilers] reports on [tectonic], [pdflatex],
    [xelatex] and [lualatex], in this order, and its summary agrees with
    these reports: it counts and lists the compilers reported as available,
    in order, and says that none was found exactly when none was reported as
    available. *)
Theorem checkAllCompilers_summary (w : world) :
  let '(out, _) := checkAllCompilers exec w in
  exists checks,
    Props.checkedNames checks = ["tectonic"; "pdflatex"; "xelatex"; "lualatex"] /\
    out = (checks ++ Summary ::
             match Props.availableNames checks with
             | [] => [NoneFound; ToInstall; InstallMiKTeX; InstallTectonic]
             | names => AvailableCount (List.length names) :: map Item names
             end)%list.
Proof.
  unfold checkAllCompilers.
  pose proof (checkEach_lines exec compilers [] w) as H.
  destruct (checkEach exec compilers [] w) as [[results out] w'].
  destruct H as (new & -> & Hn & Ha). cbn [app].
  exists out. split; [exact Hn|]. f_equal. unfold summary. rewrite Ha. f_equal.
  destruct (filter (fun r => snd r) new) as [|x l]; [reflexivity|].
  cbn [List.length Nat.ltb Nat.leb map]. now rewrite length_map, map_map.
Qed.

End CompilerCheck.
